(** * Spine AI review tool: image session and report pipeline

    A shallow embedding of the front-end code of the repository:

    - [CornerstoneInit]: [initCornerstone] of [frontend/src/cornerstoneInit.js];
    - [DICOMViewer]: the slice viewer component
      ([frontend/src/components/DICOMViewer.jsx]);
    - [ReportViewer]: confidence tiers and the edit commit of the report
      panel ([components/ReportViewer.jsx]);
    - [ReportFormat]: [utils/reportFormat.js] ([enhanceReportHtml],
      [markdownToHtmlAsync], [markdownToHtml], [htmlToPlainText],
      [htmlToFormattedText]);
    - [App]: the image ids that the [App] component of the desktop shell
      hands to the viewer.

    JavaScript strings are sequences of UTF-16 code units; they are modelled
    as [list N]. *)

From Stdlib Require Import ZArith NArith Lia String Ascii Permutation.
From Stdlib Require QArith DecimalString DecimalNat.
From stdpp Require Import base list gmap.

#[local] Open Scope Z_scope.
#[local] Open Scope list_scope.

(* ================================================================== *)
(** * JavaScript strings *)
(* ================================================================== *)

Module JS.

(** A string value: its UTF-16 code units. *)
Definition jsstring : Type := list N.

(** Code units of a literal written in ASCII. *)
Fixpoint str (s : string) : jsstring :=
  match s with
  | EmptyString => []
  | String a r => N_of_ascii a :: str r
  end.

Definition ch (a : ascii) : N := N_of_ascii a.

(** [s.length] *)
Definition jslength (s : jsstring) : Z := Z.of_nat (length s).

(** Truthiness of a value that is either [null]/[undefined] or a string:
    the empty string is falsy. *)
Definition truthy (v : option jsstring) : bool :=
  match v with
  | Some (_ :: _) => true
  | _ => false
  end.

(** [a || b] where [b] is a string. *)
Definition or_default (a : option jsstring) (b : jsstring) : jsstring :=
  match a with
  | Some (c :: r) => c :: r
  | _ => b
  end.

(** White space and line terminators of ECMAScript: what [trim] removes and
    what [\s] matches. *)
Definition is_space (c : N) : bool :=
  ((9 <=? c) && (c <=? 13) || (c =? 32) || (c =? 160) || (c =? 5760)
   || ((8192 <=? c) && (c <=? 8202)) || (c =? 8232) || (c =? 8233)
   || (c =? 8239) || (c =? 8287) || (c =? 12288) || (c =? 65279))%N.

Definition head_not_space (s : list N) : Prop :=
  match s with x :: _ => is_space x = false | [] => True end.

Fixpoint trimStart (s : jsstring) : jsstring :=
  match s with
  | c :: r => if is_space c then trimStart r else s
  | [] => []
  end.

Definition trimEnd (s : jsstring) : jsstring := rev (trimStart (rev s)).

(** [s.trim()] *)
Definition trim (s : jsstring) : jsstring := trimEnd (trimStart s).

(** [s.startsWith(p)] *)
Fixpoint startsWith (p s : jsstring) : bool :=
  match p, s with
  | [], _ => true
  | a :: p', b :: s' => (a =? b)%N && startsWith p' s'
  | _ :: _, [] => false
  end.

(** [s.includes(p)] *)
Fixpoint includes (p s : jsstring) : bool :=
  startsWith p s ||
  match s with
  | [] => false
  | _ :: s' => includes p s'
  end.

Definition is_lower (c : N) : bool := ((97 <=? c) && (c <=? 122))%N.
Definition is_upper (c : N) : bool := ((65 <=? c) && (c <=? 90))%N.

(** Case mapping of one ASCII code unit. *)
Definition upper1 (c : N) : N := if is_lower c then (c - 32)%N else c.
Definition lower1 (c : N) : N := if is_upper c then (c + 32)%N else c.

(** The code points outside ASCII that [toUpperCase] changes, each with
    its upper-case form as a sequence of code points: the full case mapping
    of the Unicode character database, version 14.0 (the simple mappings of
    UnicodeData.txt, overridden by the unconditional, locale-independent
    entries of SpecialCasing.txt).  Some forms are longer than the
    character and some are ASCII: U+00DF gives [SS], U+0131 gives [I],
    U+017F gives [S], U+FB01 gives [FI]. *)
Definition upper_table : list (N * list N) :=
  [(181, [924]); (223, [83; 83]); (224, [192]); (225, [193]); (226, [194]);
   (227, [195]); (228, [196]); (229, [197]); (230, [198]); (231, [199]);
   (232, [200]); (233, [201]); (234, [202]); (235, [203]); (236, [204]);
   (237, [205]); (238, [206]); (239, [207]); (240, [208]); (241, [209]);
   (242, [210]); (243, [211]); (244, [212]); (245, [213]); (246, [214]);
   (248, [216]); (249, [217]); (250, [218]); (251, [219]); (252, [220]);
   (253, [221]); (254, [222]); (255, [376]); (257, [256]); (259, [258]);
   (261, [260]); (263, [262]); (265, [264]); (267, [266]); (269, [268]);
   (271, [270]); (273, [272]); (275, [274]); (277, [276]); (279, [278]);
   (281, [280]); (283, [282]); (285, [284]); (287, [286]); (289, [288]);
   (291, [290]); (293, [292]); (295, [294]); (297, [296]); (299, [298]);
   (301, [300]); (303, [302]); (305, [73]); (307, [306]); (309, [308]);
   (311, [310]); (314, [313]); (316, [315]); (318, [317]); (320, [319]);
   (322, [321]); (324, [323]); (326, [325]); (328, [327]); (329, [700; 78]);
   (331, [330]); (333, [332]); (335, [334]); (337, [336]); (339, [338]);
   (341, [340]); (343, [342]); (345, [344]); (347, [346]); (349, [348]);
   (351, [350]); (353, [352]); (355, [354]); (357, [356]); (359, [358]);
   (361, [360]); (363, [362]); (365, [364]); (367, [366]); (369, [368]);
   (371, [370]); (373, [372]); (375, [374]); (378, [377]); (380, [379]);
   (382, [381]); (383, [83]); (384, [579]); (387, [386]); (389, [388]);
   (392, [391]); (396, [395]); (402, [401]); (405, [502]); (409, [408]);
   (410, [573]); (414, [544]); (417, [416]); (419, [418]); (421, [420]);
   (424, [423]); (429, [428]); (432, [431]); (436, [435]); (438, [437]);
   (441, [440]); (445, [444]); (447, [503]); (453, [452]); (454, [452]);
   (456, [455]); (457, [455]); (459, [458]); (460, [458]); (462, [461]);
   (464, [463]); (466, [465]); (468, [467]); (470, [469]); (472, [471]);
   (474, [473]); (476, [475]); (477, [398]); (479, [478]); (481, [480]);
   (483, [482]); (485, [484]); (487, [486]); (489, [488]); (491, [490]);
   (493, [492]); (495, [494]); (496, [74; 780]); (498, [497]); (499, [497]);
   (501, [500]); (505, [504]); (507, [506]); (509, [508]); (511, [510]);
   (513, [512]); (515, [514]); (517, [516]); (519, [518]); (521, [520]);
   (523, [522]); (525, [524]); (527, [526]); (529, [528]); (531, [530]);
   (533, [532]); (535, [534]); (537, [536]); (539, [538]); (541, [540]);
   (543, [542]); (547, [546]); (549, [548]); (551, [550]); (553, [552]);
   (555, [554]); (557, [556]); (559, [558]); (561, [560]); (563, [562]);
   (572, [571]); (575, [11390]); (576, [11391]); (578, [577]); (583, [582]);
   (585, [584]); (587, [586]); (589, [588]); (591, [590]); (592, [11375]);
   (593, [11373]); (594, [11376]); (595, [385]); (596, [390]); (598, [393]);
   (599, [394]); (601, [399]); (603, [400]); (604, [42923]); (608, [403]);
   (609, [42924]); (611, [404]); (613, [42893]); (614, [42922]); (616, [407]);
   (617, [406]); (618, [42926]); (619, [11362]); (620, [42925]); (623, [412]);
   (625, [11374]); (626, [413]); (629, [415]); (637, [11364]); (640, [422]);
   (642, [42949]); (643, [425]); (647, [42929]); (648, [430]); (649, [580]);
   (650, [433]); (651, [434]); (652, [581]); (658, [439]); (669, [42930]);
   (670, [42928]); (837, [921]); (881, [880]); (883, [882]); (887, [886]);
   (891, [1021]); (892, [1022]); (893, [1023]); (912, [921; 776; 769]); (940, [902]);
   (941, [904]); (942, [905]); (943, [906]); (944, [933; 776; 769]); (945, [913]);
   (946, [914]); (947, [915]); (948, [916]); (949, [917]); (950, [918]);
   (951, [919]); (952, [920]); (953, [921]); (954, [922]); (955, [923]);
   (956, [924]); (957, [925]); (958, [926]); (959, [927]); (960, [928]);
   (961, [929]); (962, [931]); (963, [931]); (964, [932]); (965, [933]);
   (966, [934]); (967, [935]); (968, [936]); (969, [937]); (970, [938]);
   (971, [939]); (972, [908]); (973, [910]); (974, [911]); (976, [914]);
   (977, [920]); (981, [934]); (982, [928]); (983, [975]); (985, [984]);
   (987, [986]); (989, [988]); (991, [990]); (993, [992]); (995, [994]);
   (997, [996]); (999, [998]); (1001, [1000]); (1003, [1002]); (1005, [1004]);
   (1007, [1006]); (1008, [922]); (1009, [929]); (1010, [1017]); (1011, [895]);
   (1013, [917]); (1016, [1015]); (1019, [1018]); (1072, [1040]); (1073, [1041]);
   (1074, [1042]); (1075, [1043]); (1076, [1044]); (1077, [1045]); (1078, [1046]);
   (1079, [1047]); (1080, [1048]); (1081, [1049]); (1082, [1050]); (1083, [1051]);
   (1084, [1052]); (1085, [1053]); (1086, [1054]); (1087, [1055]); (1088, [1056]);
   (1089, [1057]); (1090, [1058]); (1091, [1059]); (1092, [1060]); (1093, [1061]);
   (1094, [1062]); (1095, [1063]); (1096, [1064]); (1097, [1065]); (1098, [1066]);
   (1099, [1067]); (1100, [1068]); (1101, [1069]); (1102, [1070]); (1103, [1071]);
   (1104, [1024]); (1105, [1025]); (1106, [1026]); (1107, [1027]); (1108, [1028]);
   (1109, [1029]); (1110, [1030]); (1111, [1031]); (1112, [1032]); (1113, [1033]);
   (1114, [1034]); (1115, [1035]); (1116, [1036]); (1117, [1037]); (1118, [1038]);
   (1119, [1039]); (1121, [1120]); (1123, [1122]); (1125, [1124]); (1127, [1126]);
   (1129, [1128]); (1131, [1130]); (1133, [1132]); (1135, [1134]); (1137, [1136]);
   (1139, [1138]); (1141, [1140]); (1143, [1142]); (1145, [1144]); (1147, [1146]);
   (1149, [1148]); (1151, [1150]); (1153, [1152]); (1163, [1162]); (1165, [1164]);
   (1167, [1166]); (1169, [1168]); (1171, [1170]); (1173, [1172]); (1175, [1174]);
   (1177, [1176]); (1179, [1178]); (1181, [1180]); (1183, [1182]); (1185, [1184]);
   (1187, [1186]); (1189, [1188]); (1191, [1190]); (1193, [1192]); (1195, [1194]);
   (1197, [1196]); (1199, [1198]); (1201, [1200]); (1203, [1202]); (1205, [1204]);
   (1207, [1206]); (1209, [1208]); (1211, [1210]); (1213, [1212]); (1215, [1214]);
   (1218, [1217]); (1220, [1219]); (1222, [1221]); (1224, [1223]); (1226, [1225]);
   (1228, [1227]); (1230, [1229]); (1231, [1216]); (1233, [1232]); (1235, [1234]);
   (1237, [1236]); (1239, [1238]); (1241, [1240]); (1243, [1242]); (1245, [1244]);
   (1247, [1246]); (1249, [1248]); (1251, [1250]); (1253, [1252]); (1255, [1254]);
   (1257, [1256]); (1259, [1258]); (1261, [1260]); (1263, [1262]); (1265, [1264]);
   (1267, [1266]); (1269, [1268]); (1271, [1270]); (1273, [1272]); (1275, [1274]);
   (1277, [1276]); (1279, [1278]); (1281, [1280]); (1283, [1282]); (1285, [1284]);
   (1287, [1286]); (1289, [1288]); (1291, [1290]); (1293, [1292]); (1295, [1294]);
   (1297, [1296]); (1299, [1298]); (1301, [1300]); (1303, [1302]); (1305, [1304]);
   (1307, [1306]); (1309, [1308]); (1311, [1310]); (1313, [1312]); (1315, [1314]);
   (1317, [1316]); (1319, [1318]); (1321, [1320]); (1323, [1322]); (1325, [1324]);
   (1327, [1326]); (1377, [1329]); (1378, [1330]); (1379, [1331]); (1380, [1332]);
   (1381, [1333]); (1382, [1334]); (1383, [1335]); (1384, [1336]); (1385, [1337]);
   (1386, [1338]); (1387, [1339]); (1388, [1340]); (1389, [1341]); (1390, [1342]);
   (1391, [1343]); (1392, [1344]); (1393, [1345]); (1394, [1346]); (1395, [1347]);
   (1396, [1348]); (1397, [1349]); (1398, [1350]); (1399, [1351]); (1400, [1352]);
   (1401, [1353]); (1402, [1354]); (1403, [1355]); (1404, [1356]); (1405, [1357]);
   (1406, [1358]); (1407, [1359]); (1408, [1360]); (1409, [1361]); (1410, [1362]);
   (1411, [1363]); (1412, [1364]); (1413, [1365]); (1414, [1366]); (1415, [1333; 1362]);
   (4304, [7312]); (4305, [7313]); (4306, [7314]); (4307, [7315]); (4308, [7316]);
   (4309, [7317]); (4310, [7318]); (4311, [7319]); (4312, [7320]); (4313, [7321]);
   (4314, [7322]); (4315, [7323]); (4316, [7324]); (4317, [7325]); (4318, [7326]);
   (4319, [7327]); (4320, [7328]); (4321, [7329]); (4322, [7330]); (4323, [7331]);
   (4324, [7332]); (4325, [7333]); (4326, [7334]); (4327, [7335]); (4328, [7336]);
   (4329, [7337]); (4330, [7338]); (4331, [7339]); (4332, [7340]); (4333, [7341]);
   (4334, [7342]); (4335, [7343]); (4336, [7344]); (4337, [7345]); (4338, [7346]);
   (4339, [7347]); (4340, [7348]); (4341, [7349]); (4342, [7350]); (4343, [7351]);
   (4344, [7352]); (4345, [7353]); (4346, [7354]); (4349, [7357]); (4350, [7358]);
   (4351, [7359]); (5112, [5104]); (5113, [5105]); (5114, [5106]); (5115, [5107]);
   (5116, [5108]); (5117, [5109]); (7296, [1042]); (7297, [1044]); (7298, [1054]);
   (7299, [1057]); (7300, [1058]); (7301, [1058]); (7302, [1066]); (7303, [1122]);
   (7304, [42570]); (7545, [42877]); (7549, [11363]); (7566, [42950]); (7681, [7680]);
   (7683, [7682]); (7685, [7684]); (7687, [7686]); (7689, [7688]); (7691, [7690]);
   (7693, [7692]); (7695, [7694]); (7697, [7696]); (7699, [7698]); (7701, [7700]);
   (7703, [7702]); (7705, [7704]); (7707, [7706]); (7709, [7708]); (7711, [7710]);
   (7713, [7712]); (7715, [7714]); (7717, [7716]); (7719, [7718]); (7721, [7720]);
   (7723, [7722]); (7725, [7724]); (7727, [7726]); (7729, [7728]); (7731, [7730]);
   (7733, [7732]); (7735, [7734]); (7737, [7736]); (7739, [7738]); (7741, [7740]);
   (7743, [7742]); (7745, [7744]); (7747, [7746]); (7749, [7748]); (7751, [7750]);
   (7753, [7752]); (7755, [7754]); (7757, [7756]); (7759, [7758]); (7761, [7760]);
   (7763, [7762]); (7765, [7764]); (7767, [7766]); (7769, [7768]); (7771, [7770]);
   (7773, [7772]); (7775, [7774]); (7777, [7776]); (7779, [7778]); (7781, [7780]);
   (7783, [7782]); (7785, [7784]); (7787, [7786]); (7789, [7788]); (7791, [7790]);
   (7793, [7792]); (7795, [7794]); (7797, [7796]); (7799, [7798]); (7801, [7800]);
   (7803, [7802]); (7805, [7804]); (7807, [7806]); (7809, [7808]); (7811, [7810]);
   (7813, [7812]); (7815, [7814]); (7817, [7816]); (7819, [7818]); (7821, [7820]);
   (7823, [7822]); (7825, [7824]); (7827, [7826]); (7829, [7828]); (7830, [72; 817]);
   (7831, [84; 776]); (7832, [87; 778]); (7833, [89; 778]); (7834, [65; 702]); (7835, [7776]);
   (7841, [7840]); (7843, [7842]); (7845, [7844]); (7847, [7846]); (7849, [7848]);
   (7851, [7850]); (7853, [7852]); (7855, [7854]); (7857, [7856]); (7859, [7858]);
   (7861, [7860]); (7863, [7862]); (7865, [7864]); (7867, [7866]); (7869, [7868]);
   (7871, [7870]); (7873, [7872]); (7875, [7874]); (7877, [7876]); (7879, [7878]);
   (7881, [7880]); (7883, [7882]); (7885, [7884]); (7887, [7886]); (7889, [7888]);
   (7891, [7890]); (7893, [7892]); (7895, [7894]); (7897, [7896]); (7899, [7898]);
   (7901, [7900]); (7903, [7902]); (7905, [7904]); (7907, [7906]); (7909, [7908]);
   (7911, [7910]); (7913, [7912]); (7915, [7914]); (7917, [7916]); (7919, [7918]);
   (7921, [7920]); (7923, [7922]); (7925, [7924]); (7927, [7926]); (7929, [7928]);
   (7931, [7930]); (7933, [7932]); (7935, [7934]); (7936, [7944]); (7937, [7945]);
   (7938, [7946]); (7939, [7947]); (7940, [7948]); (7941, [7949]); (7942, [7950]);
   (7943, [7951]); (7952, [7960]); (7953, [7961]); (7954, [7962]); (7955, [7963]);
   (7956, [7964]); (7957, [7965]); (7968, [7976]); (7969, [7977]); (7970, [7978]);
   (7971, [7979]); (7972, [7980]); (7973, [7981]); (7974, [7982]); (7975, [7983]);
   (7984, [7992]); (7985, [7993]); (7986, [7994]); (7987, [7995]); (7988, [7996]);
   (7989, [7997]); (7990, [7998]); (7991, [7999]); (8000, [8008]); (8001, [8009]);
   (8002, [8010]); (8003, [8011]); (8004, [8012]); (8005, [8013]); (8016, [933; 787]);
   (8017, [8025]); (8018, [933; 787; 768]); (8019, [8027]); (8020, [933; 787; 769]); (8021, [8029]);
   (8022, [933; 787; 834]); (8023, [8031]); (8032, [8040]); (8033, [8041]); (8034, [8042]);
   (8035, [8043]); (8036, [8044]); (8037, [8045]); (8038, [8046]); (8039, [8047]);
   (8048, [8122]); (8049, [8123]); (8050, [8136]); (8051, [8137]); (8052, [8138]);
   (8053, [8139]); (8054, [8154]); (8055, [8155]); (8056, [8184]); (8057, [8185]);
   (8058, [8170]); (8059, [8171]); (8060, [8186]); (8061, [8187]); (8064, [7944; 921]);
   (8065, [7945; 921]); (8066, [7946; 921]); (8067, [7947; 921]); (8068, [7948; 921]); (8069, [7949; 921]);
   (8070, [7950; 921]); (8071, [7951; 921]); (8072, [7944; 921]); (8073, [7945; 921]); (8074, [7946; 921]);
   (8075, [7947; 921]); (8076, [7948; 921]); (8077, [7949; 921]); (8078, [7950; 921]); (8079, [7951; 921]);
   (8080, [7976; 921]); (8081, [7977; 921]); (8082, [7978; 921]); (8083, [7979; 921]); (8084, [7980; 921]);
   (8085, [7981; 921]); (8086, [7982; 921]); (8087, [7983; 921]); (8088, [7976; 921]); (8089, [7977; 921]);
   (8090, [7978; 921]); (8091, [7979; 921]); (8092, [7980; 921]); (8093, [7981; 921]); (8094, [7982; 921]);
   (8095, [7983; 921]); (8096, [8040; 921]); (8097, [8041; 921]); (8098, [8042; 921]); (8099, [8043; 921]);
   (8100, [8044; 921]); (8101, [8045; 921]); (8102, [8046; 921]); (8103, [8047; 921]); (8104, [8040; 921]);
   (8105, [8041; 921]); (8106, [8042; 921]); (8107, [8043; 921]); (8108, [8044; 921]); (8109, [8045; 921]);
   (8110, [8046; 921]); (8111, [8047; 921]); (8112, [8120]); (8113, [8121]); (8114, [8122; 921]);
   (8115, [913; 921]); (8116, [902; 921]); (8118, [913; 834]); (8119, [913; 834; 921]); (8124, [913; 921]);
   (8126, [921]); (8130, [8138; 921]); (8131, [919; 921]); (8132, [905; 921]); (8134, [919; 834]);
   (8135, [919; 834; 921]); (8140, [919; 921]); (8144, [8152]); (8145, [8153]); (8146, [921; 776; 768]);
   (8147, [921; 776; 769]); (8150, [921; 834]); (8151, [921; 776; 834]); (8160, [8168]); (8161, [8169]);
   (8162, [933; 776; 768]); (8163, [933; 776; 769]); (8164, [929; 787]); (8165, [8172]); (8166, [933; 834]);
   (8167, [933; 776; 834]); (8178, [8186; 921]); (8179, [937; 921]); (8180, [911; 921]); (8182, [937; 834]);
   (8183, [937; 834; 921]); (8188, [937; 921]); (8526, [8498]); (8560, [8544]); (8561, [8545]);
   (8562, [8546]); (8563, [8547]); (8564, [8548]); (8565, [8549]); (8566, [8550]);
   (8567, [8551]); (8568, [8552]); (8569, [8553]); (8570, [8554]); (8571, [8555]);
   (8572, [8556]); (8573, [8557]); (8574, [8558]); (8575, [8559]); (8580, [8579]);
   (9424, [9398]); (9425, [9399]); (9426, [9400]); (9427, [9401]); (9428, [9402]);
   (9429, [9403]); (9430, [9404]); (9431, [9405]); (9432, [9406]); (9433, [9407]);
   (9434, [9408]); (9435, [9409]); (9436, [9410]); (9437, [9411]); (9438, [9412]);
   (9439, [9413]); (9440, [9414]); (9441, [9415]); (9442, [9416]); (9443, [9417]);
   (9444, [9418]); (9445, [9419]); (9446, [9420]); (9447, [9421]); (9448, [9422]);
   (9449, [9423]); (11312, [11264]); (11313, [11265]); (11314, [11266]); (11315, [11267]);
   (11316, [11268]); (11317, [11269]); (11318, [11270]); (11319, [11271]); (11320, [11272]);
   (11321, [11273]); (11322, [11274]); (11323, [11275]); (11324, [11276]); (11325, [11277]);
   (11326, [11278]); (11327, [11279]); (11328, [11280]); (11329, [11281]); (11330, [11282]);
   (11331, [11283]); (11332, [11284]); (11333, [11285]); (11334, [11286]); (11335, [11287]);
   (11336, [11288]); (11337, [11289]); (11338, [11290]); (11339, [11291]); (11340, [11292]);
   (11341, [11293]); (11342, [11294]); (11343, [11295]); (11344, [11296]); (11345, [11297]);
   (11346, [11298]); (11347, [11299]); (11348, [11300]); (11349, [11301]); (11350, [11302]);
   (11351, [11303]); (11352, [11304]); (11353, [11305]); (11354, [11306]); (11355, [11307]);
   (11356, [11308]); (11357, [11309]); (11358, [11310]); (11359, [11311]); (11361, [11360]);
   (11365, [570]); (11366, [574]); (11368, [11367]); (11370, [11369]); (11372, [11371]);
   (11379, [11378]); (11382, [11381]); (11393, [11392]); (11395, [11394]); (11397, [11396]);
   (11399, [11398]); (11401, [11400]); (11403, [11402]); (11405, [11404]); (11407, [11406]);
   (11409, [11408]); (11411, [11410]); (11413, [11412]); (11415, [11414]); (11417, [11416]);
   (11419, [11418]); (11421, [11420]); (11423, [11422]); (11425, [11424]); (11427, [11426]);
   (11429, [11428]); (11431, [11430]); (11433, [11432]); (11435, [11434]); (11437, [11436]);
   (11439, [11438]); (11441, [11440]); (11443, [11442]); (11445, [11444]); (11447, [11446]);
   (11449, [11448]); (11451, [11450]); (11453, [11452]); (11455, [11454]); (11457, [11456]);
   (11459, [11458]); (11461, [11460]); (11463, [11462]); (11465, [11464]); (11467, [11466]);
   (11469, [11468]); (11471, [11470]); (11473, [11472]); (11475, [11474]); (11477, [11476]);
   (11479, [11478]); (11481, [11480]); (11483, [11482]); (11485, [11484]); (11487, [11486]);
   (11489, [11488]); (11491, [11490]); (11500, [11499]); (11502, [11501]); (11507, [11506]);
   (11520, [4256]); (11521, [4257]); (11522, [4258]); (11523, [4259]); (11524, [4260]);
   (11525, [4261]); (11526, [4262]); (11527, [4263]); (11528, [4264]); (11529, [4265]);
   (11530, [4266]); (11531, [4267]); (11532, [4268]); (11533, [4269]); (11534, [4270]);
   (11535, [4271]); (11536, [4272]); (11537, [4273]); (11538, [4274]); (11539, [4275]);
   (11540, [4276]); (11541, [4277]); (11542, [4278]); (11543, [4279]); (11544, [4280]);
   (11545, [4281]); (11546, [4282]); (11547, [4283]); (11548, [4284]); (11549, [4285]);
   (11550, [4286]); (11551, [4287]); (11552, [4288]); (11553, [4289]); (11554, [4290]);
   (11555, [4291]); (11556, [4292]); (11557, [4293]); (11559, [4295]); (11565, [4301]);
   (42561, [42560]); (42563, [42562]); (42565, [42564]); (42567, [42566]); (42569, [42568]);
   (42571, [42570]); (42573, [42572]); (42575, [42574]); (42577, [42576]); (42579, [42578]);
   (42581, [42580]); (42583, [42582]); (42585, [42584]); (42587, [42586]); (42589, [42588]);
   (42591, [42590]); (42593, [42592]); (42595, [42594]); (42597, [42596]); (42599, [42598]);
   (42601, [42600]); (42603, [42602]); (42605, [42604]); (42625, [42624]); (42627, [42626]);
   (42629, [42628]); (42631, [42630]); (42633, [42632]); (42635, [42634]); (42637, [42636]);
   (42639, [42638]); (42641, [42640]); (42643, [42642]); (42645, [42644]); (42647, [42646]);
   (42649, [42648]); (42651, [42650]); (42787, [42786]); (42789, [42788]); (42791, [42790]);
   (42793, [42792]); (42795, [42794]); (42797, [42796]); (42799, [42798]); (42803, [42802]);
   (42805, [42804]); (42807, [42806]); (42809, [42808]); (42811, [42810]); (42813, [42812]);
   (42815, [42814]); (42817, [42816]); (42819, [42818]); (42821, [42820]); (42823, [42822]);
   (42825, [42824]); (42827, [42826]); (42829, [42828]); (42831, [42830]); (42833, [42832]);
   (42835, [42834]); (42837, [42836]); (42839, [42838]); (42841, [42840]); (42843, [42842]);
   (42845, [42844]); (42847, [42846]); (42849, [42848]); (42851, [42850]); (42853, [42852]);
   (42855, [42854]); (42857, [42856]); (42859, [42858]); (42861, [42860]); (42863, [42862]);
   (42874, [42873]); (42876, [42875]); (42879, [42878]); (42881, [42880]); (42883, [42882]);
   (42885, [42884]); (42887, [42886]); (42892, [42891]); (42897, [42896]); (42899, [42898]);
   (42900, [42948]); (42903, [42902]); (42905, [42904]); (42907, [42906]); (42909, [42908]);
   (42911, [42910]); (42913, [42912]); (42915, [42914]); (42917, [42916]); (42919, [42918]);
   (42921, [42920]); (42933, [42932]); (42935, [42934]); (42937, [42936]); (42939, [42938]);
   (42941, [42940]); (42943, [42942]); (42945, [42944]); (42947, [42946]); (42952, [42951]);
   (42954, [42953]); (42961, [42960]); (42967, [42966]); (42969, [42968]); (42998, [42997]);
   (43859, [42931]); (43888, [5024]); (43889, [5025]); (43890, [5026]); (43891, [5027]);
   (43892, [5028]); (43893, [5029]); (43894, [5030]); (43895, [5031]); (43896, [5032]);
   (43897, [5033]); (43898, [5034]); (43899, [5035]); (43900, [5036]); (43901, [5037]);
   (43902, [5038]); (43903, [5039]); (43904, [5040]); (43905, [5041]); (43906, [5042]);
   (43907, [5043]); (43908, [5044]); (43909, [5045]); (43910, [5046]); (43911, [5047]);
   (43912, [5048]); (43913, [5049]); (43914, [5050]); (43915, [5051]); (43916, [5052]);
   (43917, [5053]); (43918, [5054]); (43919, [5055]); (43920, [5056]); (43921, [5057]);
   (43922, [5058]); (43923, [5059]); (43924, [5060]); (43925, [5061]); (43926, [5062]);
   (43927, [5063]); (43928, [5064]); (43929, [5065]); (43930, [5066]); (43931, [5067]);
   (43932, [5068]); (43933, [5069]); (43934, [5070]); (43935, [5071]); (43936, [5072]);
   (43937, [5073]); (43938, [5074]); (43939, [5075]); (43940, [5076]); (43941, [5077]);
   (43942, [5078]); (43943, [5079]); (43944, [5080]); (43945, [5081]); (43946, [5082]);
   (43947, [5083]); (43948, [5084]); (43949, [5085]); (43950, [5086]); (43951, [5087]);
   (43952, [5088]); (43953, [5089]); (43954, [5090]); (43955, [5091]); (43956, [5092]);
   (43957, [5093]); (43958, [5094]); (43959, [5095]); (43960, [5096]); (43961, [5097]);
   (43962, [5098]); (43963, [5099]); (43964, [5100]); (43965, [5101]); (43966, [5102]);
   (43967, [5103]); (64256, [70; 70]); (64257, [70; 73]); (64258, [70; 76]); (64259, [70; 70; 73]);
   (64260, [70; 70; 76]); (64261, [83; 84]); (64262, [83; 84]); (64275, [1348; 1350]); (64276, [1348; 1333]);
   (64277, [1348; 1339]); (64278, [1358; 1350]); (64279, [1348; 1341]); (65345, [65313]); (65346, [65314]);
   (65347, [65315]); (65348, [65316]); (65349, [65317]); (65350, [65318]); (65351, [65319]);
   (65352, [65320]); (65353, [65321]); (65354, [65322]); (65355, [65323]); (65356, [65324]);
   (65357, [65325]); (65358, [65326]); (65359, [65327]); (65360, [65328]); (65361, [65329]);
   (65362, [65330]); (65363, [65331]); (65364, [65332]); (65365, [65333]); (65366, [65334]);
   (65367, [65335]); (65368, [65336]); (65369, [65337]); (65370, [65338]); (66600, [66560]);
   (66601, [66561]); (66602, [66562]); (66603, [66563]); (66604, [66564]); (66605, [66565]);
   (66606, [66566]); (66607, [66567]); (66608, [66568]); (66609, [66569]); (66610, [66570]);
   (66611, [66571]); (66612, [66572]); (66613, [66573]); (66614, [66574]); (66615, [66575]);
   (66616, [66576]); (66617, [66577]); (66618, [66578]); (66619, [66579]); (66620, [66580]);
   (66621, [66581]); (66622, [66582]); (66623, [66583]); (66624, [66584]); (66625, [66585]);
   (66626, [66586]); (66627, [66587]); (66628, [66588]); (66629, [66589]); (66630, [66590]);
   (66631, [66591]); (66632, [66592]); (66633, [66593]); (66634, [66594]); (66635, [66595]);
   (66636, [66596]); (66637, [66597]); (66638, [66598]); (66639, [66599]); (66776, [66736]);
   (66777, [66737]); (66778, [66738]); (66779, [66739]); (66780, [66740]); (66781, [66741]);
   (66782, [66742]); (66783, [66743]); (66784, [66744]); (66785, [66745]); (66786, [66746]);
   (66787, [66747]); (66788, [66748]); (66789, [66749]); (66790, [66750]); (66791, [66751]);
   (66792, [66752]); (66793, [66753]); (66794, [66754]); (66795, [66755]); (66796, [66756]);
   (66797, [66757]); (66798, [66758]); (66799, [66759]); (66800, [66760]); (66801, [66761]);
   (66802, [66762]); (66803, [66763]); (66804, [66764]); (66805, [66765]); (66806, [66766]);
   (66807, [66767]); (66808, [66768]); (66809, [66769]); (66810, [66770]); (66811, [66771]);
   (66967, [66928]); (66968, [66929]); (66969, [66930]); (66970, [66931]); (66971, [66932]);
   (66972, [66933]); (66973, [66934]); (66974, [66935]); (66975, [66936]); (66976, [66937]);
   (66977, [66938]); (66979, [66940]); (66980, [66941]); (66981, [66942]); (66982, [66943]);
   (66983, [66944]); (66984, [66945]); (66985, [66946]); (66986, [66947]); (66987, [66948]);
   (66988, [66949]); (66989, [66950]); (66990, [66951]); (66991, [66952]); (66992, [66953]);
   (66993, [66954]); (66995, [66956]); (66996, [66957]); (66997, [66958]); (66998, [66959]);
   (66999, [66960]); (67000, [66961]); (67001, [66962]); (67003, [66964]); (67004, [66965]);
   (68800, [68736]); (68801, [68737]); (68802, [68738]); (68803, [68739]); (68804, [68740]);
   (68805, [68741]); (68806, [68742]); (68807, [68743]); (68808, [68744]); (68809, [68745]);
   (68810, [68746]); (68811, [68747]); (68812, [68748]); (68813, [68749]); (68814, [68750]);
   (68815, [68751]); (68816, [68752]); (68817, [68753]); (68818, [68754]); (68819, [68755]);
   (68820, [68756]); (68821, [68757]); (68822, [68758]); (68823, [68759]); (68824, [68760]);
   (68825, [68761]); (68826, [68762]); (68827, [68763]); (68828, [68764]); (68829, [68765]);
   (68830, [68766]); (68831, [68767]); (68832, [68768]); (68833, [68769]); (68834, [68770]);
   (68835, [68771]); (68836, [68772]); (68837, [68773]); (68838, [68774]); (68839, [68775]);
   (68840, [68776]); (68841, [68777]); (68842, [68778]); (68843, [68779]); (68844, [68780]);
   (68845, [68781]); (68846, [68782]); (68847, [68783]); (68848, [68784]); (68849, [68785]);
   (68850, [68786]); (71872, [71840]); (71873, [71841]); (71874, [71842]); (71875, [71843]);
   (71876, [71844]); (71877, [71845]); (71878, [71846]); (71879, [71847]); (71880, [71848]);
   (71881, [71849]); (71882, [71850]); (71883, [71851]); (71884, [71852]); (71885, [71853]);
   (71886, [71854]); (71887, [71855]); (71888, [71856]); (71889, [71857]); (71890, [71858]);
   (71891, [71859]); (71892, [71860]); (71893, [71861]); (71894, [71862]); (71895, [71863]);
   (71896, [71864]); (71897, [71865]); (71898, [71866]); (71899, [71867]); (71900, [71868]);
   (71901, [71869]); (71902, [71870]); (71903, [71871]); (93792, [93760]); (93793, [93761]);
   (93794, [93762]); (93795, [93763]); (93796, [93764]); (93797, [93765]); (93798, [93766]);
   (93799, [93767]); (93800, [93768]); (93801, [93769]); (93802, [93770]); (93803, [93771]);
   (93804, [93772]); (93805, [93773]); (93806, [93774]); (93807, [93775]); (93808, [93776]);
   (93809, [93777]); (93810, [93778]); (93811, [93779]); (93812, [93780]); (93813, [93781]);
   (93814, [93782]); (93815, [93783]); (93816, [93784]); (93817, [93785]); (93818, [93786]);
   (93819, [93787]); (93820, [93788]); (93821, [93789]); (93822, [93790]); (93823, [93791]);
   (125218, [125184]); (125219, [125185]); (125220, [125186]); (125221, [125187]); (125222, [125188]);
   (125223, [125189]); (125224, [125190]); (125225, [125191]); (125226, [125192]); (125227, [125193]);
   (125228, [125194]); (125229, [125195]); (125230, [125196]); (125231, [125197]); (125232, [125198]);
   (125233, [125199]); (125234, [125200]); (125235, [125201]); (125236, [125202]); (125237, [125203]);
   (125238, [125204]); (125239, [125205]); (125240, [125206]); (125241, [125207]); (125242, [125208]);
   (125243, [125209]); (125244, [125210]); (125245, [125211]); (125246, [125212]); (125247, [125213]);
   (125248, [125214]); (125249, [125215]); (125250, [125216]); (125251, [125217])]%N.

Fixpoint assoc (c : N) (t : list (N * list N)) : option (list N) :=
  match t with
  | [] => None
  | (k, v) :: t' => if (k =? c)%N then Some v else assoc c t'
  end.

(** Upper-case form of one code point. *)
Definition upper_cp (c : N) : list N :=
  if (c <? 128)%N then [upper1 c]
  else match assoc c upper_table with
       | Some u => u
       | None => [c]
       end.

(** UTF-16: the two halves of a surrogate pair, the code point a pair
    stands for, and the code units of a code point. *)
Definition is_high (c : N) : bool := ((55296 <=? c) && (c <=? 56319))%N.
Definition is_low (c : N) : bool := ((56320 <=? c) && (c <=? 57343))%N.

Definition code_point (hi lo : N) : N :=
  (65536 + (hi - 55296) * 1024 + (lo - 56320))%N.

Definition units (cp : N) : list N :=
  if (cp <? 65536)%N then [cp]
  else [(55296 + (cp - 65536) / 1024)%N; (56320 + (cp - 65536) mod 1024)%N].

(** [s.toUpperCase()]: the string is read as code points (a high surrogate
    followed by a low one is one code point, any other code unit stands for
    itself), every code point is replaced by its upper-case form, and the
    result is written back as code units. *)
Fixpoint toUpperCase (s : jsstring) : jsstring :=
  match s with
  | [] => []
  | c :: r =>
      match r with
      | d :: r' =>
          if is_high c && is_low d
          then flat_map units (upper_cp (code_point c d)) ++ toUpperCase r'
          else flat_map units (upper_cp c) ++ toUpperCase r
      | [] => flat_map units (upper_cp c)
      end
  end.

(** [s.toLowerCase()], as far as the program looks at the result (it
    compares it with ['low'] and with ['medium']): the ASCII letters are
    mapped and other code units are kept.  Outside ASCII only U+0130 and
    U+212A have a lower-case form with an ASCII letter in it ([i] followed
    by U+0307, and [k]), and neither makes a string equal to one of the two
    words. *)
Definition toLowerCase (s : jsstring) : jsstring := map lower1 s.

Definition eqb (a b : jsstring) : bool := bool_decide (a = b).

End JS.

Import JS.

(* ================================================================== *)
(** * cornerstoneInit.js *)
(* ================================================================== *)

Module CornerstoneInit.

(** The two module variables, [initialized] and [initError], and a ghost
    counter of how often the body of the [try] block was entered. *)
Record module_state : Type := {
  initialized : bool;
  initError : option jsstring;
  setup_runs : nat
}.

Definition fresh : module_state :=
  {| initialized := false; initError := None; setup_runs := 0 |}.

(** What the [catch] clause reads from the value it caught: [e?.message]
    and [String(e)]. *)
Record thrown : Type := {
  message : option jsstring;
  to_String : jsstring
}.

(** What the registration of the loader does when it is run. *)
Inductive setup : Type :=
| Completes
| Throws (e : thrown).

(** [{ ok: boolean, error?: string }] *)
Record result : Type := { ok : bool; error : option jsstring }.

Definition describe (e : thrown) : jsstring := or_default (message e) (to_String e).

Definition initCornerstone (env : setup) (st : module_state) : result * module_state :=
  if truthy (initError st) then ({| ok := false; error := initError st |}, st)
  else if initialized st then ({| ok := true; error := None |}, st)
  else
    match env with
    | Completes =>
        ({| ok := true; error := None |},
         {| initialized := true; initError := initError st;
            setup_runs := S (setup_runs st) |})
    | Throws e =>
        ({| ok := false; error := Some (describe e) |},
         {| initialized := initialized st; initError := Some (describe e);
            setup_runs := S (setup_runs st) |})
    end.

(** Successive calls; [envs] gives, for each call, what the setup would do
    if that call ran it. *)
Fixpoint calls (envs : list setup) (st : module_state) : list result * module_state :=
  match envs with
  | [] => ([], st)
  | env :: rest =>
      let '(r, st1) := initCornerstone env st in
      let '(rs, st2) := calls rest st1 in
      (r :: rs, st2)
  end.

End CornerstoneInit.

(* ================================================================== *)
(** * components/DICOMViewer.jsx *)
(* ================================================================== *)

Module DICOMViewer.

(** One run of the load effect that reached [cornerstone.loadImage]: the
    index and image id it was started for, its [cancelled] variable, and
    whether its promise has settled. *)
Record load : Type := {
  l_index : Z;
  l_imageId : jsstring;
  l_cancelled : bool;
  l_settled : bool
}.

(** The component: the [imageIds] prop, the React state, what the rendering
    surface shows (the id of the image last passed to
    [cornerstone.displayImage]), every load issued so far (oldest first),
    and the load whose effect clean-up is still pending. *)
Record viewer : Type := {
  imageIds : list jsstring;
  currentIndex : Z;
  loading : bool;
  error : option jsstring;
  enabled : bool;
  surface : option jsstring;
  loads : list load;
  effect : option nat
}.

Definition totalSlices (v : viewer) : Z := Z.of_nat (length (imageIds v)).

(** [useState(0)], [useState(false)], [useState(null)], [useState(false)] *)
Definition mount (ids : list jsstring) : viewer :=
  {| imageIds := ids; currentIndex := 0; loading := false; error := None;
     enabled := false; surface := None; loads := []; effect := None |}.

(** [(i) => (i <= 0 ? totalSlices - 1 : i - 1)] *)
Definition goPrev (total i : Z) : Z := if i <=? 0 then total - 1 else i - 1.

(** [(i) => (i >= totalSlices - 1 ? 0 : i + 1)] *)
Definition goNext (total i : Z) : Z := if i >=? total - 1 then 0 else i + 1.

(** [imageIds[currentIndex]] *)
Definition url_at (ids : list jsstring) (i : Z) : option jsstring :=
  if i <? 0 then None else ids !! Z.to_nat i.

Definition cancel (l : load) : load :=
  {| l_index := l_index l; l_imageId := l_imageId l;
     l_cancelled := true; l_settled := l_settled l |}.

Definition settled (l : load) : load :=
  {| l_index := l_index l; l_imageId := l_imageId l;
     l_cancelled := l_cancelled l; l_settled := true |}.

(** The clean-up of the previous run of the load effect:
    [() => { cancelled = true }]. *)
Definition cleanup (v : viewer) : list load :=
  match effect v with
  | Some k => alter cancel k (loads v)
  | None => loads v
  end.

(** A run of the load effect, after one of its dependencies
    [currentIndex, imageIds, totalSlices, enabled] changed.  The surface
    element exists exactly when the viewer is rendered with at least one
    slice. *)
Definition load_effect (v : viewer) : viewer :=
  let ls := cleanup v in
  let idle :=
    {| imageIds := imageIds v; currentIndex := currentIndex v;
       loading := loading v; error := error v; enabled := enabled v;
       surface := surface v; loads := ls; effect := None |} in
  if (totalSlices v =? 0) || negb (enabled v) then idle
  else
    match url_at (imageIds v) (currentIndex v) with
    | None => idle
    | Some url =>
        {| imageIds := imageIds v; currentIndex := currentIndex v;
           loading := true; error := None; enabled := enabled v;
           surface := surface v;
           loads := ls ++ [ {| l_index := currentIndex v;
                               l_imageId := str "wadouri:" ++ url;
                               l_cancelled := false; l_settled := false |} ];
           effect := Some (length ls) |}
    end.

(** [setCurrentIndex(f)]: a state change re-renders and re-runs the load
    effect; setting the same value does neither. *)
Definition setCurrentIndex (f : Z -> Z) (v : viewer) : viewer :=
  let i := f (currentIndex v) in
  if i =? currentIndex v then v
  else
    load_effect
      {| imageIds := imageIds v; currentIndex := i; loading := loading v;
         error := error v; enabled := enabled v; surface := surface v;
         loads := loads v; effect := effect v |}.

(** The Prev and Next buttons carry [disabled={totalSlices <= 1}]. *)
Definition clickPrev (v : viewer) : viewer :=
  if totalSlices v <=? 1 then v else setCurrentIndex (goPrev (totalSlices v)) v.

Definition clickNext (v : viewer) : viewer :=
  if totalSlices v <=? 1 then v else setCurrentIndex (goNext (totalSlices v)) v.

Inductive key : Type := ArrowLeft | ArrowRight | Key_j | Key_J | Key_k | Key_K | OtherKey.

(** The [keydown] listener: it is registered only when [totalSlices > 1],
    and returns at once when the target is inside an input, a textarea or
    a content-editable element. *)
Definition handleKey (k : key) (in_editable : bool) (v : viewer) : viewer :=
  if totalSlices v <=? 1 then v
  else if in_editable then v
  else
    match k with
    | ArrowLeft | Key_j | Key_J => setCurrentIndex (goPrev (totalSlices v)) v
    | ArrowRight | Key_k | Key_K => setCurrentIndex (goNext (totalSlices v)) v
    | OtherKey => v
    end.

(** How [cornerstone.displayImage] and [cornerstone.resize] end; an
    exception is given by its [message] property. *)
Inductive display : Type :=
| DisplayOk
| DisplayThrows (message : option jsstring)
| ResizeThrows (message : option jsstring).

(** How the promise of [cornerstone.loadImage] settles. *)
Inductive outcome : Type :=
| Resolved (d : display)
| Rejected (message : option jsstring).

(** The [then], [catch] and [finally] callbacks of a load that was not
    cancelled. *)
Definition apply_outcome (l : load) (o : outcome) (v : viewer) (ls : list load) : viewer :=
  match o with
  | Resolved DisplayOk =>
      {| imageIds := imageIds v; currentIndex := currentIndex v;
         loading := false; error := error v; enabled := enabled v;
         surface := Some (l_imageId l); loads := ls; effect := effect v |}
  | Resolved (DisplayThrows m) =>
      {| imageIds := imageIds v; currentIndex := currentIndex v;
         loading := false;
         error := Some (or_default m (str "Failed to display image"));
         enabled := enabled v; surface := surface v; loads := ls;
         effect := effect v |}
  | Resolved (ResizeThrows m) =>
      {| imageIds := imageIds v; currentIndex := currentIndex v;
         loading := false;
         error := Some (or_default m (str "Failed to display image"));
         enabled := enabled v; surface := Some (l_imageId l); loads := ls;
         effect := effect v |}
  | Rejected m =>
      {| imageIds := imageIds v; currentIndex := currentIndex v;
         loading := false;
         error := Some (or_default m (str "Failed to load image"));
         enabled := enabled v; surface := surface v; loads := ls;
         effect := effect v |}
  end.

(** The promise of load number [k] settles. *)
Definition settle (k : nat) (o : outcome) (v : viewer) : viewer :=
  match loads v !! k with
  | None => v
  | Some l =>
      if l_settled l then v
      else
        let ls := alter settled k (loads v) in
        if l_cancelled l then
          {| imageIds := imageIds v; currentIndex := currentIndex v;
             loading := loading v; error := error v; enabled := enabled v;
             surface := surface v; loads := ls; effect := effect v |}
        else apply_outcome l o v ls
  end.

(** What can happen to a mounted viewer.  [Props] is a render with a new
    [imageIds] array; [Enabled] is a change of the [enabled] state by the
    effect that enables and disables the surface element. *)
Inductive event : Type :=
| ClickPrev
| ClickNext
| KeyDown (k : key) (in_editable : bool)
| Props (ids : list jsstring)
| Enabled (b : bool)
| Settle (k : nat) (o : outcome).

Definition step (v : viewer) (e : event) : viewer :=
  match e with
  | ClickPrev => clickPrev v
  | ClickNext => clickNext v
  | KeyDown k ed => handleKey k ed v
  | Props ids =>
      load_effect
        {| imageIds := ids; currentIndex := currentIndex v; loading := loading v;
           error := error v; enabled := enabled v; surface := surface v;
           loads := loads v; effect := effect v |}
  | Enabled b =>
      if Bool.eqb b (enabled v) then v
      else
        load_effect
          {| imageIds := imageIds v; currentIndex := currentIndex v;
             loading := loading v; error := error v; enabled := b;
             surface := surface v; loads := loads v; effect := effect v |}
  | Settle k o => settle k o v
  end.

Definition run (v : viewer) (es : list event) : viewer := fold_left step es v.

Inductive reachable : viewer -> Prop :=
| reach_mount ids : reachable (mount ids)
| reach_step v e : reachable v -> reachable (step v e).

(** What a user or the rest of the program can observe: the props, the
    React state and the surface. *)
Definition visible (v : viewer) :=
  (imageIds v, currentIndex v, loading v, error v, enabled v, surface v).

(** The events that keep the image sequence the viewer was mounted with. *)
Definition keeps_sequence (e : event) : bool :=
  match e with
  | Props _ => false
  | _ => true
  end.

(** Only the load of the effect run that is still in place has its
    [cancelled] variable unset ... *)
Definition cancelled_unless_active (v : viewer) : Prop :=
  forall k l, loads v !! k = Some l -> l_cancelled l = false -> effect v = Some k.

(** ... and that load is the last one issued, for the current index. *)
Definition active_is_current (v : viewer) : Prop :=
  forall k, effect v = Some k ->
    exists l, loads v !! k = Some l /\ l_index l = currentIndex v
              /\ S k = length (loads v).

Definition load_invariant (v : viewer) : Prop :=
  cancelled_unless_active v /\ active_is_current v.

(** ** What the component renders *)

(** [getSeriesBadgeClass] *)
Definition getSeriesBadgeClass (seriesDescription : option jsstring) : jsstring :=
  let d := toUpperCase (or_default seriesDescription []) in
  if includes (str "T1") d then str "bg-blue-500/90 text-white"
  else if includes (str "T2") d then str "bg-emerald-600 text-white"
  else if includes (str "STIR") d then str "bg-violet-600 text-white"
  else str "bg-gray-500/90 text-white".

(** The ellipsis U+2026. *)
Definition ellipsis : N := 8230%N.

(** The text of the series badge:
    [seriesDescription.length > 24 ? seriesDescription.slice(0, 24) + '…'
     : seriesDescription || 'Series'] *)
Definition series_label (seriesDescription : jsstring) : jsstring :=
  if jslength seriesDescription >? 24 then take 24 seriesDescription ++ [ellipsis]
  else or_default (Some seriesDescription) (str "Series").

(** The mount effect:
    [if (!result.ok) setInitFailed(result.error || 'Viewer failed to initialize')];
    the state [initFailed] starts as [null]. *)
Definition init_effect (result : CornerstoneInit.result) : option jsstring :=
  if CornerstoneInit.ok result then None
  else Some (or_default (CornerstoneInit.error result) (str "Viewer failed to initialize")).

(** The three things the component can return: the panel "Viewer
    unavailable" with [initFailed], the panel "No images loaded", or the
    viewer with its counter "Slice [currentIndex + 1] / [totalSlices]". *)
Inductive screen : Type :=
| Unavailable (message : jsstring)
| NoImages
| Slices (shown total : Z).

Definition render (initFailed : option jsstring) (v : viewer) : screen :=
  if truthy initFailed then Unavailable (or_default initFailed [])
  else if totalSlices v =? 0 then NoImages
  else Slices (currentIndex v + 1) (totalSlices v).

(** ** The load in force *)



(** Every load issued so far asked for an image of the sequence [ids], at
    the index it was started for. *)
Definition requests_within (ids : list jsstring) (v : viewer) : Prop :=
  Forall (fun l => exists url, url_at ids (l_index l) = Some url
                               /\ l_imageId l = str "wadouri:" ++ url) (loads v).

End DICOMViewer.

(* ================================================================== *)
(** * Regular expressions *)
(* ================================================================== *)

(** The regular-expression literals of the sources are kept as syntax and
    run by a backtracking matcher that returns every way to match at the
    current position, in the priority order of ECMAScript (left alternative
    first, greedy repetition first). *)
Module Regex.

Inductive regex : Type :=
| Eps
| Chr (c : N)
| Cls (p : N -> bool)
| Seq (r1 r2 : regex)
| Alt (r1 r2 : regex)
| Star (r : regex)
| WordB.

Definition Plus (r : regex) : regex := Seq r (Star r).
Definition Opt (r : regex) : regex := Alt r Eps.

Definition lit (s : jsstring) : regex := fold_right (fun c r => Seq (Chr c) r) Eps s.
Definition cat (rs : list regex) : regex := fold_right Seq Eps rs.

Fixpoint alts (rs : list regex) : regex :=
  match rs with
  | [] => Eps
  | [r] => r
  | r :: rest => Alt r (alts rest)
  end.

Definition range (lo hi : ascii) : regex :=
  Cls (fun c => (ch lo <=? c) && (c <=? ch hi))%N.

(** [\w] *)
Definition is_word (c : N) : bool :=
  (is_lower c || is_upper c || ((48 <=? c) && (c <=? 57)) || (c =? 95))%N.

Definition word_before (prev : option N) : bool :=
  match prev with Some c => is_word c | None => false end.

Definition word_after (s : jsstring) : bool :=
  match s with c :: _ => is_word c | [] => false end.

(** With the [i] flag two characters match when their upper-case forms
    agree. *)
Definition same (ci : bool) (c x : N) : bool :=
  if ci then (upper1 c =? upper1 x)%N else (c =? x)%N.

(** A position in the input: the character before it (for [\b]) and the
    rest of the input. *)
Definition pos : Type := option N * jsstring.

(** Greedy repetition of a matcher [step]: one more round first, then
    stopping here; a round that consumes nothing is not taken. *)
Fixpoint star_loop (step : option N -> jsstring -> list pos) (n : nat)
    (prev : option N) (s : jsstring) {struct n} : list pos :=
  match n with
  | O => [(prev, s)]
  | S n' =>
      flat_map (fun q =>
                  if (length (snd q) <? length s)%nat
                  then star_loop step n' (fst q) (snd q) else [])
               (step prev s)
      ++ [(prev, s)]
  end.

Fixpoint m (ci : bool) (r : regex) (prev : option N) (s : jsstring) {struct r} : list pos :=
  match r with
  | Eps => [(prev, s)]
  | Chr c =>
      match s with
      | x :: s' => if same ci c x then [(Some x, s')] else []
      | [] => []
      end
  | Cls p =>
      match s with
      | x :: s' => if p x then [(Some x, s')] else []
      | [] => []
      end
  | Seq r1 r2 => flat_map (fun q => m ci r2 (fst q) (snd q)) (m ci r1 prev s)
  | Alt r1 r2 => m ci r1 prev s ++ m ci r2 prev s
  | Star r1 => star_loop (m ci r1) (length s) prev s
  | WordB => if xorb (word_before prev) (word_after s) then [(prev, s)] else []
  end.

(** The match the engine reports at a position: the first one. *)
Definition first_match (ci : bool) (r : regex) (prev : option N) (s : jsstring) : option pos :=
  head (m ci r prev s).

(** [re.test(s)] for a regular expression without the [g] flag. *)
Fixpoint search (ci : bool) (r : regex) (prev : option N) (s : jsstring) : bool :=
  match first_match ci r prev s with
  | Some _ => true
  | None =>
      match s with
      | [] => false
      | c :: t => search ci r (Some c) t
      end
  end.

Definition test (ci : bool) (r : regex) (s : jsstring) : bool := search ci r None s.

(** [s.replace(re, repl)] for a regular expression with the [g] flag and a
    replacement without [$]: scan from the left; at a match emit [repl] and
    go on after it (one character further when the match is empty). *)
Fixpoint replace_loop (fuel : nat) (mt : option N -> jsstring -> option pos)
    (repl : jsstring) (prev : option N) (s : jsstring) : jsstring :=
  match fuel with
  | O => s
  | S f =>
      match mt prev s with
      | Some (prev', s') =>
          if (length s' <? length s)%nat
          then repl ++ replace_loop f mt repl prev' s'
          else
            match s with
            | [] => repl
            | c :: t => repl ++ c :: replace_loop f mt repl (Some c) t
            end
      | None =>
          match s with
          | [] => []
          | c :: t => c :: replace_loop f mt repl (Some c) t
          end
      end
  end.

Definition replace_with (mt : option N -> jsstring -> option pos)
    (repl : jsstring) (s : jsstring) : jsstring :=
  replace_loop (S (length s)) mt repl None s.

Definition replace (ci : bool) (r : regex) (repl s : jsstring) : jsstring :=
  replace_with (first_match ci r) repl s.

(** ** Reasoning about matches and replacements *)

(** The strings a regular expression can consume. *)
Inductive matches (ci : bool) : regex -> jsstring -> Prop :=
| matches_eps : matches ci Eps []
| matches_chr c x : same ci c x = true -> matches ci (Chr c) [x]
| matches_cls (p : N -> bool) x : p x = true -> matches ci (Cls p) [x]
| matches_seq r1 r2 w1 w2 :
    matches ci r1 w1 -> matches ci r2 w2 -> matches ci (Seq r1 r2) (w1 ++ w2)
| matches_alt_l r1 r2 w : matches ci r1 w -> matches ci (Alt r1 r2) w
| matches_alt_r r1 r2 w : matches ci r2 w -> matches ci (Alt r1 r2) w
| matches_star_nil r : matches ci (Star r) []
| matches_star_more r w1 w2 :
    matches ci r w1 -> matches ci (Star r) w2 -> matches ci (Star r) (w1 ++ w2)
| matches_wordb : matches ci WordB [].

(** A matcher for one character, and what its greedy repetition returns:
    every stop in the run of such characters, the longest first. *)
Definition char_step (q : N -> bool) (prev : option N) (s : jsstring) : list pos :=
  match s with
  | x :: s' => if q x then [(Some x, s')] else []
  | [] => []
  end.

Fixpoint star_list (q : N -> bool) (prev : option N) (s : jsstring) : list pos :=
  match s with
  | x :: s' => if q x then star_list q (Some x) s' ++ [(prev, s)] else [(prev, s)]
  | [] => [(prev, s)]
  end.

(** Drop the longest prefix of characters that satisfy [q]. *)
Fixpoint skip (q : N -> bool) (s : jsstring) : jsstring :=
  match s with
  | x :: s' => if q x then skip q s' else s
  | [] => []
  end.

(** The replacement loop for a matcher that does not look at the character
    before the position; it returns the rest of the input after the match. *)
Fixpoint scan (fuel : nat) (dm : jsstring -> option jsstring) (repl s : jsstring) : jsstring :=
  match fuel with
  | O => s
  | S f =>
      match dm s with
      | Some s' =>
          if (length s' <? length s)%nat
          then repl ++ scan f dm repl s'
          else
            match s with
            | [] => repl
            | c :: t => repl ++ c :: scan f dm repl t
            end
      | None =>
          match s with
          | [] => []
          | c :: t => c :: scan f dm repl t
          end
      end
  end.

(** A whole replacement: the loop with the fuel that [replace] gives it. *)
Definition scan_all (dm : jsstring -> option jsstring) (repl s : jsstring) : jsstring :=
  scan (S (length s)) dm repl s.

(** The steps of a replacement, when every match consumes something. *)
Inductive rewrites (dm : jsstring -> option jsstring) (repl : jsstring) :
    jsstring -> jsstring -> Prop :=
| rewrites_nil : rewrites dm repl [] []
| rewrites_keep c t o :
    dm (c :: t) = None -> rewrites dm repl t o -> rewrites dm repl (c :: t) (c :: o)
| rewrites_sub s s' o :
    dm s = Some s' -> rewrites dm repl s' o -> rewrites dm repl s (repl ++ o).

(** No match at any position of the string. *)
Fixpoint clean (dm : jsstring -> option jsstring) (s : jsstring) : Prop :=
  dm s = None /\ match s with [] => True | _ :: t => clean dm t end.

Fixpoint quiet (mt : option N -> jsstring -> option pos) (s : jsstring) : Prop :=
  (forall prev, mt prev s = None) /\ match s with [] => True | _ :: t => quiet mt t end.

(** What a literal matches at the start of a string. *)
Definition dm_lit (p s : jsstring) : option jsstring :=
  if startsWith p s then Some (drop (length p) s) else None.

End Regex.

(* ================================================================== *)
(** * The document tree *)
(* ================================================================== *)

(** The part of the DOM that [reportFormat.js] uses: element, text and
    comment nodes; [textContent]; the [class] attribute and [classList];
    the serialisation behind [innerHTML].  An element carries an identity,
    as a list such as the result of [querySelectorAll] holds elements, not
    copies of them. *)
Module Dom.

Definition attr : Type := jsstring * jsstring.

#[warnings="-register-all"]
Inductive node : Type :=
| Element (id : nat) (tag : jsstring) (attrs : list attr) (children : list node)
| Text (data : jsstring)
| Comment (data : jsstring).

(** The data of the text nodes below a node, in tree order. *)
Fixpoint texts (n : node) : list jsstring :=
  match n with
  | Element _ _ _ k => flat_map texts k
  | Text d => [d]
  | Comment _ => []
  end.

(** [textContent] of a node that is an element, and of a list of siblings
    seen as the children of one. *)
Definition textContent (n : node) : jsstring := concat (texts n).

Fixpoint getAttribute (name : jsstring) (a : list attr) : option jsstring :=
  match a with
  | [] => None
  | (n, v) :: r => if JS.eqb n name then Some v else getAttribute name r
  end.

Fixpoint setAttribute (name value : jsstring) (a : list attr) : list attr :=
  match a with
  | [] => [(name, value)]
  | (n, v) :: r =>
      if JS.eqb n name then (n, value) :: r else (n, v) :: setAttribute name value r
  end.

(** ASCII white space, which separates the tokens of a [class] value. *)
Definition is_ascii_ws (c : N) : bool :=
  ((c =? 9) || (c =? 10) || (c =? 12) || (c =? 13) || (c =? 32))%N.

(** The pieces between the white-space characters of a string. *)
Fixpoint fields (s : jsstring) : list jsstring :=
  match s with
  | [] => [[]]
  | c :: t =>
      if is_ascii_ws c then [] :: fields t
      else
        match fields t with
        | f :: fs => (c :: f) :: fs
        | [] => [[c]]
        end
  end.

Definition nonempty (s : jsstring) : bool :=
  match s with [] => false | _ :: _ => true end.

Definition tokens (s : jsstring) : list jsstring := filter (fun f => nonempty f = true) (fields s).

(** A token: not empty, and without white space. *)
Definition ws_free (t : jsstring) : Prop := forallb (fun c => negb (is_ascii_ws c)) t = true.
Definition good_token (t : jsstring) : Prop := nonempty t = true /\ ws_free t.

Definition add_token (acc : list jsstring) (t : jsstring) : list jsstring :=
  if bool_decide (t ∈ acc) then acc else acc ++ [t].

(** The token set of a [class] value: its tokens in order, each once. *)
Definition token_set (v : jsstring) : list jsstring := fold_left add_token (tokens v) [].

Fixpoint serialize_tokens (ts : list jsstring) : jsstring :=
  match ts with
  | [] => []
  | [t] => t
  | t :: rest => t ++ 32%N :: serialize_tokens rest
  end.

Definition class_tokens (a : list attr) : list jsstring :=
  token_set (default [] (getAttribute (str "class") a)).

(** [node.classList.add(token)]: add the token to the set unless it is
    there, then write the set back to the attribute. *)
Definition classList_add (token : jsstring) (a : list attr) : list attr :=
  setAttribute (str "class") (serialize_tokens (add_token (class_tokens a) token)) a.

Definition void_elements : list jsstring :=
  map str ["area"; "base"; "basefont"; "bgsound"; "br"; "col"; "embed"; "frame";
           "hr"; "img"; "input"; "keygen"; "link"; "meta"; "param"; "source";
           "track"; "wbr"]%string.

Definition raw_text_elements : list jsstring :=
  map str ["style"; "script"; "xmp"; "iframe"; "noembed"; "noframes"; "plaintext"]%string.

Definition one_of (l : list jsstring) (t : jsstring) : bool := bool_decide (t ∈ l).

Definition escape_char (in_attr : bool) (c : N) : jsstring :=
  if (c =? 38)%N then str "&amp;"
  else if (c =? 160)%N then str "&nbsp;"
  else if in_attr then (if (c =? 34)%N then str "&quot;" else [c])
  else if (c =? 60)%N then str "&lt;"
  else if (c =? 62)%N then str "&gt;"
  else [c].

Definition escape (in_attr : bool) (s : jsstring) : jsstring := flat_map (escape_char in_attr) s.

Definition serialize_attr (a : attr) : jsstring :=
  32%N :: fst a ++ [61%N; 34%N] ++ escape true (snd a) ++ [34%N].

(** The HTML fragment serialisation of a node; [raw] says that the parent
    is an element whose text is written as it is. *)
Fixpoint serialize (raw : bool) (n : node) : jsstring :=
  match n with
  | Element _ tag a k =>
      str "<" ++ tag ++ flat_map serialize_attr a ++ str ">" ++
      (if one_of void_elements tag then []
       else flat_map (serialize (one_of raw_text_elements tag)) k ++ str "</" ++ tag ++ str ">")
  | Text d => if raw then d else escape false d
  | Comment d => str "<!--" ++ d ++ str "-->"
  end.

(** [body.innerHTML] *)
Definition innerHTML (k : list node) : jsstring := flat_map (serialize false) k.

(** The identities of the elements of a tree, and one that is not among
    them (for [createElement]). *)
Fixpoint ids (n : node) : list nat :=
  match n with
  | Element i _ _ k => i :: flat_map ids k
  | _ => []
  end.

Definition fresh_id (k : list node) : nat := S (foldr Nat.max O (flat_map ids k)).

(** The element with a given identity. *)
Fixpoint find (i : nat) (n : node) : option node :=
  match n with
  | Element j _ _ k =>
      if (i =? j)%nat then Some n
      else foldr (fun c acc => match find i c with Some e => Some e | None => acc end) None k
  | _ => None
  end.

Definition find_in (i : nat) (k : list node) : option node :=
  foldr (fun c acc => match find i c with Some e => Some e | None => acc end) None k.

(** [querySelectorAll(tag)] below a list of siblings: the identities of
    the matching elements in tree order. *)
Fixpoint select (tag : jsstring) (n : node) : list nat :=
  match n with
  | Element i t _ k => (if JS.eqb t tag then [i] else []) ++ flat_map (select tag) k
  | _ => []
  end.

Definition querySelectorAll (tag : jsstring) (k : list node) : list nat :=
  flat_map (select tag) k.

(** What the markup of a tree spells out besides text: the tags of its
    elements, the names of their attributes, and its comments. *)
Fixpoint tag_names (n : node) : list jsstring :=
  match n with
  | Element _ t _ k => t :: flat_map tag_names k
  | _ => []
  end.

Fixpoint attribute_names (n : node) : list jsstring :=
  match n with
  | Element _ _ a k => map fst a ++ flat_map attribute_names k
  | _ => []
  end.

Fixpoint comment_nodes (n : node) : list jsstring :=
  match n with
  | Element _ _ _ k => flat_map comment_nodes k
  | Text _ => []
  | Comment d => [d]
  end.

(** The document [parsed] has no tag, no attribute name and no comment
    that the document [original] does not have.  For [parsed] the document
    that a parser reads in the serialisation of [original]: the parser
    makes up no element, attribute or comment.  (It may still join or split
    text and move elements.) *)
Definition nothing_new (parsed original : list node) : Prop :=
  flat_map tag_names parsed ⊆ flat_map tag_names original
  /\ flat_map attribute_names parsed ⊆ flat_map attribute_names original
  /\ flat_map comment_nodes parsed ⊆ flat_map comment_nodes original.

(** The node reached by a path of child positions. *)
Fixpoint at_path (p : list nat) (k : list node) : option node :=
  match p with
  | [] => None
  | [i] => k !! i
  | i :: rest =>
      match k !! i with
      | Some (Element _ _ _ k') => at_path rest k'
      | _ => None
      end
  end.

End Dom.

(* ================================================================== *)
(** * Platform functions used on concrete inputs *)
(* ================================================================== *)

(** [DOMParser] and [DOMPurify] are not code of this repository.  The
    theorems below hold for every parser; to run the pipeline on concrete
    reports this module provides a parser for well-nested markup (start tags
    with attributes, end tags, void elements, comments, text with the
    character references of the serialiser); the allow-list filter follows
    in [DOMPurify]. *)
Module Browser.

Import Dom.

Inductive token : Type :=
| TStart (name : jsstring) (attrs : list attr)
| TEnd (name : jsstring)
| TText (data : jsstring)
| TComment (data : jsstring).

Definition is_letter (c : N) : bool := is_lower c || is_upper c.

(** Replace the character references written by the serialiser. *)
Fixpoint decode_refs (skip : nat) (s : jsstring) : jsstring :=
  match s with
  | [] => []
  | c :: t =>
      match skip with
      | S k => decode_refs k t
      | O =>
          if startsWith (str "&amp;") s then 38%N :: decode_refs 4 t
          else if startsWith (str "&lt;") s then 60%N :: decode_refs 3 t
          else if startsWith (str "&gt;") s then 62%N :: decode_refs 3 t
          else if startsWith (str "&quot;") s then 34%N :: decode_refs 5 t
          else if startsWith (str "&nbsp;") s then 160%N :: decode_refs 5 t
          else c :: decode_refs 0 t
      end
  end.

(** A tag while it is being read. *)
Record tag_acc : Type := {
  closing : bool;
  name_rev : jsstring;
  attrs_rev : list attr;
  aname_rev : jsstring;
  aval_rev : jsstring
}.

Definition start_tag (closing : bool) (c : N) : tag_acc :=
  {| closing := closing; name_rev := [lower1 c]; attrs_rev := [];
     aname_rev := []; aval_rev := [] |}.

(** Finish the attribute being read; a repeated name is dropped. *)
Definition push_attr (t : tag_acc) : tag_acc :=
  match aname_rev t with
  | [] => t
  | _ =>
      let n := rev (aname_rev t) in
      let v := decode_refs 0 (rev (aval_rev t)) in
      {| closing := closing t; name_rev := name_rev t;
         attrs_rev := if bool_decide (n ∈ map fst (attrs_rev t)) then attrs_rev t
                      else (n, v) :: attrs_rev t;
         aname_rev := []; aval_rev := [] |}
  end.

Definition with_name (t : tag_acc) (c : N) : tag_acc :=
  {| closing := closing t; name_rev := lower1 c :: name_rev t;
     attrs_rev := attrs_rev t; aname_rev := aname_rev t; aval_rev := aval_rev t |}.

Definition with_aname (t : tag_acc) (c : N) : tag_acc :=
  {| closing := closing t; name_rev := name_rev t; attrs_rev := attrs_rev t;
     aname_rev := lower1 c :: aname_rev t; aval_rev := aval_rev t |}.

Definition with_aval (t : tag_acc) (c : N) : tag_acc :=
  {| closing := closing t; name_rev := name_rev t; attrs_rev := attrs_rev t;
     aname_rev := aname_rev t; aval_rev := c :: aval_rev t |}.

Definition emit_tag (t : tag_acc) : token :=
  let t := push_attr t in
  if closing t then TEnd (rev (name_rev t))
  else TStart (rev (name_rev t)) (rev (attrs_rev t)).

Inductive lex_state : Type :=
| Data (buf_rev : jsstring)
| TagOpen (buf_rev : jsstring)
| EndOpen (buf_rev : jsstring)
| TagName (t : tag_acc)
| BeforeAttr (t : tag_acc)
| AttrName (t : tag_acc)
| AfterAttrName (t : tag_acc)
| BeforeValue (t : tag_acc)
| ValueQuoted (q : N) (t : tag_acc)
| ValueUnquoted (t : tag_acc)
| Bang (dashes : nat)
| InComment (buf_rev : jsstring)
| Bogus (buf_rev : jsstring).

Definition flush (buf_rev : jsstring) : list token :=
  match buf_rev with
  | [] => []
  | _ => [TText (decode_refs 0 (rev buf_rev))]
  end.

Definition ends_comment (buf_rev : jsstring) : bool := startsWith (str "--") buf_rev.

Fixpoint lex (st : lex_state) (s : jsstring) : list token :=
  match s with
  | [] =>
      match st with
      | Data b => flush b
      | TagOpen b => flush (60%N :: b)
      | EndOpen b => flush (47%N :: 60%N :: b)
      | InComment b | Bogus b => [TComment (rev b)]
      | _ => []
      end
  | c :: r =>
      match st with
      | Data b => if (c =? 60)%N then lex (TagOpen b) r else lex (Data (c :: b)) r
      | TagOpen b =>
          if is_letter c then flush b ++ lex (TagName (start_tag false c)) r
          else if (c =? 47)%N then lex (EndOpen b) r
          else if (c =? 33)%N then flush b ++ lex (Bang 0) r
          else if (c =? 60)%N then lex (TagOpen (60%N :: b)) r
          else lex (Data (c :: 60%N :: b)) r
      | EndOpen b =>
          if is_letter c then flush b ++ lex (TagName (start_tag true c)) r
          else if (c =? 62)%N then lex (Data b) r
          else flush b ++ lex (Bogus [c]) r
      | TagName t =>
          if is_ascii_ws c || (c =? 47)%N then lex (BeforeAttr t) r
          else if (c =? 62)%N then emit_tag t :: lex (Data []) r
          else lex (TagName (with_name t c)) r
      | BeforeAttr t =>
          if is_ascii_ws c || (c =? 47)%N then lex (BeforeAttr t) r
          else if (c =? 62)%N then emit_tag t :: lex (Data []) r
          else lex (AttrName (with_aname t c)) r
      | AttrName t =>
          if is_ascii_ws c then lex (AfterAttrName t) r
          else if (c =? 47)%N then lex (BeforeAttr (push_attr t)) r
          else if (c =? 61)%N then lex (BeforeValue t) r
          else if (c =? 62)%N then emit_tag t :: lex (Data []) r
          else lex (AttrName (with_aname t c)) r
      | AfterAttrName t =>
          if is_ascii_ws c then lex (AfterAttrName t) r
          else if (c =? 47)%N then lex (BeforeAttr (push_attr t)) r
          else if (c =? 61)%N then lex (BeforeValue t) r
          else if (c =? 62)%N then emit_tag t :: lex (Data []) r
          else lex (AttrName (with_aname (push_attr t) c)) r
      | BeforeValue t =>
          if is_ascii_ws c then lex (BeforeValue t) r
          else if (c =? 34)%N || (c =? 39)%N then lex (ValueQuoted c t) r
          else if (c =? 62)%N then emit_tag t :: lex (Data []) r
          else lex (ValueUnquoted (with_aval t c)) r
      | ValueQuoted q t =>
          if (c =? q)%N then lex (BeforeAttr (push_attr t)) r
          else lex (ValueQuoted q (with_aval t c)) r
      | ValueUnquoted t =>
          if is_ascii_ws c then lex (BeforeAttr (push_attr t)) r
          else if (c =? 62)%N then emit_tag t :: lex (Data []) r
          else lex (ValueUnquoted (with_aval t c)) r
      | Bang n =>
          if (c =? 45)%N then
            match n with
            | O => lex (Bang 1) r
            | S _ => lex (InComment []) r
            end
          else if (c =? 62)%N then TComment [] :: lex (Data []) r
          else lex (Bogus (c :: repeat 45%N n)) r
      | InComment b =>
          if (c =? 62)%N && ends_comment b then TComment (rev (drop 2 b)) :: lex (Data []) r
          else lex (InComment (c :: b)) r
      | Bogus b =>
          if (c =? 62)%N then TComment (rev b) :: lex (Data []) r
          else lex (Bogus (c :: b)) r
      end
  end.

(** An element that is still open: identity, tag, attributes and the
    children read so far, last first. *)
Record frame : Type := {
  f_id : nat; f_tag : jsstring; f_attrs : list attr; f_kids_rev : list node
}.

Record builder : Type := {
  open : list frame;
  top_rev : list node;
  next : nat
}.

(** Append a node to the element being built; adjacent text is one node. *)
Definition push_node (n : node) (kids_rev : list node) : list node :=
  match n, kids_rev with
  | Text d, Text d0 :: rest => Text (d0 ++ d) :: rest
  | _, _ => n :: kids_rev
  end.

Definition append (n : node) (b : builder) : builder :=
  match open b with
  | f :: fs =>
      {| open := {| f_id := f_id f; f_tag := f_tag f; f_attrs := f_attrs f;
                    f_kids_rev := push_node n (f_kids_rev f) |} :: fs;
         top_rev := top_rev b; next := next b |}
  | [] => {| open := []; top_rev := push_node n (top_rev b); next := next b |}
  end.

Definition close_frame (f : frame) : node :=
  Element (f_id f) (f_tag f) (f_attrs f) (rev (f_kids_rev f)).

(** Close the innermost open element. *)
Definition pop (b : builder) : builder :=
  match open b with
  | f :: fs => append (close_frame f) {| open := fs; top_rev := top_rev b; next := next b |}
  | [] => b
  end.

(** Close open elements up to and including the innermost one named [name]. *)
Fixpoint close_to (name : jsstring) (n : nat) (b : builder) : builder :=
  match n with
  | O => b
  | S n' =>
      match open b with
      | f :: _ => if JS.eqb (f_tag f) name then pop b else close_to name n' (pop b)
      | [] => b
      end
  end.

Definition build_step (b : builder) (t : token) : builder :=
  match t with
  | TText d => append (Text d) b
  | TComment d => append (Comment d) b
  | TStart name a =>
      if one_of void_elements name then
        append (Element (next b) name a [])
               {| open := open b; top_rev := top_rev b; next := S (next b) |}
      else
        {| open := {| f_id := next b; f_tag := name; f_attrs := a; f_kids_rev := [] |}
                   :: open b;
           top_rev := top_rev b; next := S (next b) |}
  | TEnd name =>
      if bool_decide (name ∈ map f_tag (open b)) then close_to name (length (open b)) b
      else b
  end.

Fixpoint close_all (n : nat) (b : builder) : builder :=
  match n with
  | O => b
  | S n' => close_all n' (pop b)
  end.

Fixpoint skip_ws (s : jsstring) : jsstring :=
  match s with
  | c :: r => if is_ascii_ws c then skip_ws r else s
  | [] => []
  end.

(** The children of [body] after parsing a fragment; white space before
    the first node is not part of the body. *)
Definition parse (html : jsstring) : list node :=
  let b := fold_left build_step (lex (Data []) (skip_ws html))
                     {| open := []; top_rev := []; next := 0 |} in
  rev (top_rev (close_all (length (open b)) b)).

End Browser.

(* ================================================================== *)
(** * The allow-list sanitizer *)
(* ================================================================== *)

Module DOMPurify.

Import Dom.

(** The options of [DOMPurify.sanitize]: the two that the sources pass, and
    the two switches of the library for [data-*] and [aria-*] attributes,
    which are on unless the caller turns them off. *)
Record config : Type := {
  ALLOWED_TAGS : list jsstring;
  ALLOWED_ATTR : list jsstring;
  ALLOW_DATA_ATTR : bool;
  ALLOW_ARIA_ATTR : bool
}.

(** Elements that are removed together with what they contain (the
    library's [FORBID_CONTENTS]). *)
Definition dropped_with_content : list jsstring :=
  map str ["annotation-xml"; "audio"; "colgroup"; "desc"; "foreignobject"; "head";
           "iframe"; "math"; "mi"; "mn"; "mo"; "ms"; "mtext"; "noembed"; "noframes";
           "noscript"; "plaintext"; "script"; "style"; "svg"; "template"; "thead";
           "title"; "video"; "xmp"]%string.

(** The names the library takes for data attributes,
    [/^data-[\-\w.\u00B7-\uFFFF]+$/], and for ARIA attributes,
    [/^aria-[\-\w]+$/]. *)
Definition data_char (c : N) : bool :=
  ((c =? 45) || Regex.is_word c || (c =? 46) || ((183 <=? c) && (c <=? 65535)))%N.

Definition aria_char (c : N) : bool := ((c =? 45) || Regex.is_word c)%N.

Definition DATA_ATTR (name : jsstring) : bool :=
  startsWith (str "data-") name
  && nonempty (drop 5 name) && forallb data_char (drop 5 name).

Definition ARIA_ATTR (name : jsstring) : bool :=
  startsWith (str "aria-") name
  && nonempty (drop 5 name) && forallb aria_char (drop 5 name).

(** Whether an attribute with this name stays on an element that stays:
    a data attribute or an ARIA attribute when the switch is on, otherwise
    a name of [ALLOWED_ATTR].  The sources allow only [class], which is not
    an attribute that holds an address, so the address checks of the
    library do not come in; what the library may drop in addition, going
    by the value, only removes more. *)
Definition keeps_attribute (cfg : config) (name : jsstring) : bool :=
  ALLOW_DATA_ATTR cfg && DATA_ATTR name
  || ALLOW_ARIA_ATTR cfg && ARIA_ATTR name
  || one_of (ALLOWED_ATTR cfg) name.

(** Modelled from the spec: the allow-list sanitizer of §4.3, which is the
    third-party library DOMPurify in the sources.  An element outside
    [ALLOWED_TAGS] is removed (its children take its place, unless it is
    one of [dropped_with_content]); an attribute is removed unless
    [keeps_attribute] holds of its name, which with the defaults of the
    library lets [data-*] and [aria-*] attributes through besides
    [ALLOWED_ATTR]; comments are removed. *)
Fixpoint purify (cfg : config) (n : node) : list node :=
  match n with
  | Element i t a k =>
      let k' := flat_map (purify cfg) k in
      if one_of (ALLOWED_TAGS cfg) t
      then [Element i t (List.filter (fun x => keeps_attribute cfg (fst x)) a) k']
      else if one_of dropped_with_content t then []
      else k'
  | Text d => [Text d]
  | Comment _ => []
  end.

(** A tree that the sanitizer lets through unchanged in kind: every element
    is one of [ALLOWED_TAGS], every attribute is one that
    [keeps_attribute] holds of, and there is no comment. *)
Fixpoint allowed (cfg : config) (n : node) : bool :=
  match n with
  | Element _ t a k =>
      one_of (ALLOWED_TAGS cfg) t
      && forallb (fun x => keeps_attribute cfg (fst x)) a
      && forallb (allowed cfg) k
  | Text _ => true
  | Comment _ => false
  end.

(** The same, said of the markup of a document: its tags, its attribute
    names and its comments. *)
Definition markup_allowed (cfg : config) (k : list node) : Prop :=
  Forall (fun t => one_of (ALLOWED_TAGS cfg) t = true) (flat_map tag_names k)
  /\ Forall (fun a => keeps_attribute cfg a = true) (flat_map attribute_names k)
  /\ flat_map comment_nodes k = [].

(** The stricter reading, with [ALLOWED_ATTR] alone: every attribute of
    every element has one of these names. *)
Fixpoint attributes_among (names : list jsstring) (n : node) : bool :=
  match n with
  | Element _ _ a k =>
      forallb (fun x => one_of names (fst x)) a && forallb (attributes_among names) k
  | _ => true
  end.

Section Sanitize.
(** The HTML parser of the platform. *)
Variable parse : jsstring -> list node.

(** [DOMPurify.sanitize(dirty, cfg)] *)
Definition sanitize (dirty : jsstring) (cfg : config) : jsstring :=
  innerHTML (flat_map (purify cfg) (parse dirty)).
End Sanitize.

End DOMPurify.

(* ================================================================== *)
(** * utils/reportFormat.js *)
(* ================================================================== *)

Module ReportFormat.

Import Dom Regex.

Definition word (w : string) : regex := lit (str w).

(** [/\b(bulge|bulging|...|lesion)\b/i] *)
Definition ABNORMAL_KEYWORDS : regex :=
  cat [WordB;
       alts (map word ["bulge"; "bulging"; "herniation"; "herniated"; "stenosis";
                       "narrowing"; "compression"; "compressed"; "effacement";
                       "impingement"; "extrusion"; "sequestration"; "degenerative";
                       "tear"; "tearing"; "abnormal"; "pathology"; "lesion"]%string);
       WordB].

(** [/\b(normal|unremarkable|no (evidence of|acute|significant)|intact|preserved|mild)\b/i] *)
Definition NORMAL_KEYWORDS : regex :=
  cat [WordB;
       alts [word "normal"; word "unremarkable";
             Seq (word "no ") (alts [word "evidence of"; word "acute"; word "significant"]);
             word "intact"; word "preserved"; word "mild"];
       WordB].

(** [/\b(L[1-5]-L[2-5]|L[1-5]-S1)\b/i] *)
Definition levelPattern : regex :=
  cat [WordB;
       Alt (cat [Chr (ch "L"); range "1" "5"; Chr (ch "-"); Chr (ch "L"); range "2" "5"])
           (cat [Chr (ch "L"); range "1" "5"; Chr (ch "-"); Chr (ch "S"); Chr (ch "1")]);
       WordB].

(** The sanitizer options written out in [markdownToHtmlAsync] (and again
    in [ReportViewer.jsx]): [ALLOWED_TAGS] and [ALLOWED_ATTR]; the two
    switches are not mentioned there and keep the library's default. *)
Definition report_config : DOMPurify.config :=
  {| DOMPurify.ALLOWED_TAGS :=
       map str ["h1"; "h2"; "h3"; "h4"; "p"; "br"; "strong"; "em"; "b"; "i"; "u";
                "ul"; "ol"; "li"; "span"; "div"; "blockquote"; "hr"]%string;
     DOMPurify.ALLOWED_ATTR := [str "class"];
     DOMPurify.ALLOW_DATA_ATTR := true;
     DOMPurify.ALLOW_ARIA_ATTR := true |}.

(** ** Section cards *)

(** The class of the card for a heading with this upper-cased title. *)
Definition wrapperClass (title : jsstring) : option jsstring :=
  if includes (str "IMPRESSION") title || includes (str "CONCLUSION") title
  then Some (str "report-section-impression")
  else if includes (str "FINDINGS") title || includes (str "FINDING") title
  then Some (str "report-section-findings")
  else None.

Definition is_h2 (n : node) : bool :=
  match n with
  | Element _ t _ _ => JS.eqb t (str "h2")
  | _ => false
  end.

Definition is_element (n : node) : bool :=
  match n with
  | Element _ _ _ _ => true
  | _ => false
  end.

(** The loop over [nextElementSibling]: of the siblings after the heading,
    the elements before the next [h2] are moved; the nodes that are not
    elements, and everything from the next [h2] on, stay where they are. *)
Fixpoint toMove (after : list node) : list node * list node :=
  match after with
  | [] => ([], [])
  | n :: rest =>
      if is_element n then
        if is_h2 n then ([], after)
        else let '(moved, stay) := toMove rest in (n :: moved, stay)
      else let '(moved, stay) := toMove rest in (moved, n :: stay)
  end.

Definition has_id (i : nat) (n : node) : bool :=
  match n with
  | Element j _ _ _ => (i =? j)%nat
  | _ => false
  end.

(** [parent.insertBefore(wrapper, h2); wrapper.appendChild(h2);
    toMove.forEach((el) => wrapper.appendChild(el))] on the children of
    the parent of the heading [h2]. *)
Fixpoint wrap_siblings (h2 w : nat) (cls : jsstring) (k : list node) : list node :=
  match k with
  | [] => []
  | n :: rest =>
      if has_id h2 n then
        let '(moved, stay) := toMove rest in
        Element w (str "div") [(str "class", cls)] (n :: moved) :: stay
      else n :: wrap_siblings h2 w cls rest
  end.

(** The same, wherever the heading is in the tree. *)
Fixpoint wrap_in (h2 w : nat) (cls : jsstring) (n : node) : node :=
  match n with
  | Element i t a k => Element i t a (wrap_siblings h2 w cls (map (wrap_in h2 w cls) k))
  | _ => n
  end.

Definition wrap_at (h2 w : nat) (cls : jsstring) (body : list node) : list node :=
  wrap_siblings h2 w cls (map (wrap_in h2 w cls) body).

(** The body of [h2s.forEach]: the document is the children of [body] and
    the next unused identity. *)
Definition wrap_section (doc : list node * nat) (h2 : nat) : list node * nat :=
  match find_in h2 (fst doc) with
  | None => doc
  | Some e =>
      let title := toUpperCase (trim (textContent e)) in
      match wrapperClass title with
      | None => doc
      | Some cls => (wrap_at h2 (snd doc) cls (fst doc), S (snd doc))
      end
  end.

(** Whether the [h2] with identity [i] is the heading of a recognised
    section of the document. *)
Definition section_heading (body : list node) (i : nat) : bool :=
  match find_in i body with
  | Some e =>
      match wrapperClass (toUpperCase (trim (textContent e))) with
      | Some _ => true
      | None => false
      end
  | None => false
  end.

Definition no_section_heading (body : list node) : bool :=
  forallb (fun i => negb (section_heading body i)) (querySelectorAll (str "h2") body).

Definition wrap_sections (body : list node) : list node :=
  fst (fold_left wrap_section (querySelectorAll (str "h2") body) (body, fresh_id body)).

(** ** The cards of a flat document *)

(** Whether no level-2 heading lies below the node. *)
Definition no_h2_below (n : node) : bool :=
  match n with
  | Element _ _ _ k =>
      match querySelectorAll (str "h2") k with [] => true | _ :: _ => false end
  | _ => true
  end.

(** What the wrapping loop comes to when every level-2 heading is a child of
    [body]: going through the children, a heading with a recognised title
    opens a card, which takes the heading and the elements up to the next
    level-2 heading; [w] is the identity of the next card, [fuel] bounds the
    number of children. *)
Fixpoint cards (fuel w : nat) (body : list node) : list node :=
  match fuel, body with
  | S f, n :: rest =>
      if is_h2 n then
        match wrapperClass (toUpperCase (trim (textContent n))) with
        | Some cls =>
            let '(moved, stay) := toMove rest in
            Element w (str "div") [(str "class", cls)] (n :: moved) :: cards f (S w) stay
        | None => n :: cards f w rest
        end
      else n :: cards f w rest
  | _, _ => body
  end.

Definition section_cards (body : list node) : list node :=
  cards (length body) (fresh_id body) body.

(** ** Level tinting *)

Definition is_p_or_div (tag : jsstring) : bool :=
  JS.eqb tag (str "p") || JS.eqb tag (str "div").

(** The class that the walk adds to a [p] or [div] with this trimmed text,
    if any. *)
Definition level_class (text : jsstring) : option jsstring :=
  if test true levelPattern text && (jslength text <? 800) then
    let hasAbnormal := test true ABNORMAL_KEYWORDS text in
    let hasNormal := test true NORMAL_KEYWORDS text in
    if hasAbnormal && negb hasNormal then Some (str "report-level-abnormal")
    else if hasNormal || negb hasAbnormal then Some (str "report-level-normal")
    else None
  else None.

Definition tint (tag text : jsstring) (a : list attr) : list attr :=
  if is_p_or_div tag then
    match level_class text with
    | Some c => classList_add c a
    | None => a
    end
  else a.

Fixpoint walk (n : node) : node :=
  match n with
  | Element i tag a k => Element i tag (tint tag (trim (textContent n)) a) (map walk k)
  | _ => n
  end.

(** The two passes of [enhanceReportHtml] on the children of [body]. *)
Definition enhance_body (body : list node) : list node :=
  map walk (wrap_sections body).

Definition blank (s : jsstring) : bool := negb (nonempty (trim s)).

(** ** Plain text *)

Definition nl : N := 10%N.

(** [/<\/p>|<\/div>|<\/h[1-6]>|<br\s*\/?>/gi] *)
Definition re_block_end : regex :=
  alts [word "</p>"; word "</div>";
        cat [word "</h"; range "1" "6"; Chr (ch ">")];
        cat [word "<br"; Star (Cls is_space); Opt (Chr (ch "/")); Chr (ch ">")]].

(** [/<[^>]+>/g] *)
Definition re_tag : regex :=
  cat [Chr (ch "<"); Plus (Cls (fun c => negb (c =? ch ">")%N)); Chr (ch ">")].

(** [/&nbsp;/g] *)
Definition re_nbsp : regex := word "&nbsp;".

(** [/[ \t]+/g] *)
Definition re_blanks : regex := Plus (Cls (fun c => (c =? 32) || (c =? 9))%N).

(** [/\n /g] and [/ \n/g] *)
Definition re_nl_sp : regex := lit [nl; 32%N].
Definition re_sp_nl : regex := lit [32%N; nl].

(** [/\n{3,}/g] *)
Definition re_nl3 : regex := cat [Chr nl; Chr nl; Chr nl; Star (Chr nl)].

(** [htmlToPlainText], on a string. *)
Definition htmlToPlainText (html : jsstring) : jsstring :=
  let s := replace true re_block_end [nl] html in
  let s := replace false re_tag [] s in
  let s := replace false re_nbsp [32%N] s in
  let s := replace false re_blanks [32%N] s in
  let s := replace false re_nl_sp [nl] s in
  let s := replace false re_sp_nl [nl] s in
  let s := replace false re_nl3 [nl; nl] s in
  trim s.

(** What the expressions of [htmlToPlainText] match at the start of a
    string: the rest of the string after the match. *)
Definition c_gt : N := 62%N.
Definition c_lt : N := 60%N.
Definition c_sp : N := 32%N.

Fixpoint after_gt (t : jsstring) : option jsstring :=
  match t with
  | [] => None
  | c :: r => if (c =? c_gt)%N then Some r else after_gt r
  end.

Definition dm_tag (s : jsstring) : option jsstring :=
  match s with
  | c :: x :: t => if (c_lt =? c)%N && negb (x =? c_gt)%N then after_gt t else None
  | _ => None
  end.

Definition is_blank (c : N) : bool := ((c =? 32) || (c =? 9))%N.

Definition dm_blanks (s : jsstring) : option jsstring :=
  match s with
  | c :: t => if is_blank c then Some (skip is_blank t) else None
  | [] => None
  end.

Definition is_nl (c : N) : bool := (nl =? c)%N.

Definition dm_nl3 (s : jsstring) : option jsstring :=
  match s with
  | a :: b :: c :: t => if is_nl a && is_nl b && is_nl c then Some (skip is_nl t) else None
  | _ => None
  end.

Definition not_angle (c : N) : bool := negb (c =? c_lt)%N && negb (c =? c_gt)%N.
Definition is_gap (c : N) : bool := is_blank c || is_nl c.

(** Every match of [dm] consumes a non-empty block of characters that
    satisfy [P]. *)
Definition has_blocks (dm : jsstring -> option jsstring) (P : N -> bool) : Prop :=
  forall s s', dm s = Some s' -> exists b, s = b ++ s' /\ b <> [] /\ forallb P b = true.

Definition head_not_blank (s : jsstring) : Prop :=
  match s with x :: _ => is_blank x = false | [] => True end.

(** No tab, and no space followed by a space or a tab. *)
Fixpoint single_spaced (s : jsstring) : Prop :=
  match s with
  | [] => True
  | c :: t =>
      c <> 9%N
      /\ (c = c_sp -> match t with x :: _ => is_blank x = false | [] => True end)
      /\ single_spaced t
  end.

(** A string on which no step of [htmlToPlainText] has anything to do. *)
Definition plain (s : jsstring) : Prop :=
  clean dm_tag s
  /\ clean (dm_lit (str "&nbsp;")) s
  /\ single_spaced s
  /\ clean (dm_lit [nl; c_sp]) s
  /\ clean (dm_lit [c_sp; nl]) s
  /\ clean dm_nl3 s
  /\ trim s = s.

Section Pipeline.
(** The HTML parser of the platform ([DOMParser], also used inside the
    sanitizer) and the Markdown parser [marked.parse]. *)
Variable parse : jsstring -> list node.
Variable marked : jsstring -> jsstring.

Definition enhanceReportHtml (html : jsstring) : jsstring :=
  if blank html then []
  else innerHTML (enhance_body (parse html)).

Definition markdownToHtmlAsync (content : jsstring) : jsstring :=
  if blank content then []
  else
    let trimmed := trim content in
    let raw := if startsWith (str "<") trimmed then trimmed else marked trimmed in
    let sanitized := DOMPurify.sanitize parse raw report_config in
    enhanceReportHtml sanitized.
End Pipeline.

(** ** The synchronous converter *)

(** The options of the last resort of [markdownToHtml]. *)
Definition fallback_config : DOMPurify.config :=
  {| DOMPurify.ALLOWED_TAGS :=
       map str ["p"; "br"; "strong"; "em"; "b"; "i"; "u"; "ul"; "ol"; "li"]%string;
     DOMPurify.ALLOWED_ATTR := [];
     DOMPurify.ALLOW_DATA_ATTR := true;
     DOMPurify.ALLOW_ARIA_ATTR := true |}.

Section Sync.
Variable parse : jsstring -> list node.
(** [marked.parseSync] when there is one, [marked.parse] otherwise: [None]
    when the call throws or returns something that is not a string. *)
Variable marked_sync : jsstring -> option jsstring.

Definition markdownToHtml (content : jsstring) : jsstring :=
  if blank content then []
  else
    let trimmed := trim content in
    if startsWith (str "<") trimmed
    then DOMPurify.sanitize parse trimmed report_config
    else
      match marked_sync trimmed with
      | Some raw => DOMPurify.sanitize parse raw report_config
      | None =>
          DOMPurify.sanitize parse (replace false (Chr nl) (str "<br>") trimmed)
                             fallback_config
      end.
End Sync.

(** ** Formatted text *)

(** The bullet U+2022. *)
Definition bullet : N := 8226%N.

(** The lines that [walk] of [htmlToFormattedText] pushes for a node.  The
    tag of an element is its [tagName] in lower case. *)
Fixpoint lines_of (n : node) : list jsstring :=
  match n with
  | Text d => let t := trim d in if nonempty t then [t] else []
  | Comment _ => []
  | Element _ tag _ k =>
      if JS.eqb tag (str "h1") then [[]; toUpperCase (trim (textContent n)); []]
      else if JS.eqb tag (str "h2") || JS.eqb tag (str "h3")
      then [[]; trim (textContent n); []]
      else if JS.eqb tag (str "p") || JS.eqb tag (str "div")
      then flat_map lines_of k ++ [[]]
      else if JS.eqb tag (str "li")
      then [[32%N; 32%N; bullet; 32%N] ++ trim (textContent n)]
      else if JS.eqb tag (str "br") then [[]]
      else flat_map lines_of k
  end.

(** [lines.join(sep)] *)
Fixpoint join (sep : jsstring) (lines : list jsstring) : jsstring :=
  match lines with
  | [] => []
  | [l] => l
  | l :: rest => l ++ sep ++ join sep rest
  end.

Section Formatted.
(** The parser behind [div.innerHTML = html]. *)
Variable parse : jsstring -> list node.

Definition htmlToFormattedText (html : jsstring) : jsstring :=
  let div := Element 0 (str "div") [] (parse html) in
  trim (replace false re_nl3 [nl; nl] (join [nl] (lines_of div))).
End Formatted.

End ReportFormat.

(* ================================================================== *)
(** * components/ReportViewer.jsx *)
(* ================================================================== *)

Module ReportViewer.

Definition DISC_LEVELS : list jsstring :=
  map str ["L1-L2"; "L2-L3"; "L3-L4"; "L4-L5"; "L5-S1"]%string.

(** [(levelConfidence[l] || 'medium')] *)
Definition tier (levelConfidence : gmap jsstring jsstring) (l : jsstring) : jsstring :=
  or_default (levelConfidence !! l) (str "medium").

Definition hasLowConfidence (levelConfidence : gmap jsstring jsstring) : bool :=
  existsb (fun l => JS.eqb (tier levelConfidence l) (str "low")) DISC_LEVELS
  || existsb (fun l => JS.eqb (tier levelConfidence l) (str "medium")) DISC_LEVELS.

(** The badge of a level: its label and its tooltip. *)
Record badge : Type := { label : jsstring; title : jsstring }.

Definition level_badge (levelConfidence : gmap jsstring jsstring) (level : jsstring) : badge :=
  let conf := toLowerCase (tier levelConfidence level) in
  let isLow := JS.eqb conf (str "low") in
  let isMedium := JS.eqb conf (str "medium") in
  {| label := if isLow then str "Low" else if isMedium then str "Medium" else str "High";
     title := if isLow || isMedium then str "Verify carefully" else str "High confidence" |}.

(** The panel "AI confidence by level": rendered when there is a report and
    the mapping has at least one key; one badge for each of the five levels. *)
Definition confidence_badges (report : bool) (levelConfidence : gmap jsstring jsstring)
  : list (jsstring * badge) :=
  if report && negb (bool_decide (levelConfidence = ∅))
  then map (fun level => (level, level_badge levelConfidence level)) DISC_LEVELS
  else [].

(** The "Please verify" banner: [hasLowConfidence && report]. *)
Definition verification_warning (report : bool) (levelConfidence : gmap jsstring jsstring)
  : bool :=
  hasLowConfidence levelConfidence && report.

(** The state of the report panel that editing touches. *)
Record panel : Type := {
  displayHtml : jsstring;
  editedHtml : option jsstring;
  viewMode : bool;
  editValue : jsstring
}.

Definition currentViewHtml (p : panel) : jsstring :=
  match editedHtml p with
  | Some h => h
  | None => displayHtml p
  end.

Definition switchToEdit (p : panel) : panel :=
  {| displayHtml := displayHtml p; editedHtml := editedHtml p;
     viewMode := false; editValue := currentViewHtml p |}.

Section Commit.
Variable parse : jsstring -> list Dom.node.

(** [saveEdit]: the new panel and the value passed to [onReportChange]. *)
Definition saveEdit (p : panel) : panel * jsstring :=
  let sanitized := DOMPurify.sanitize parse (editValue p) ReportFormat.report_config in
  ({| displayHtml := displayHtml p; editedHtml := Some sanitized;
      viewMode := true; editValue := editValue p |},
   sanitized).
End Commit.

(** ** The report effect *)

(** A run of the effect on [report] that called [markdownToHtmlAsync]: the
    html its promise resolves with, its [cancelled] variable, and whether
    the promise has resolved. *)
Record conversion : Type := {
  c_html : jsstring;
  c_cancelled : bool;
  c_done : bool
}.

(** The component: the [report] prop ([None] when it is [null] or not a
    string), the state of the panel, every conversion started so far, and
    the one whose effect clean-up is pending. *)
Record report_state : Type := {
  report : option jsstring;
  view : panel;
  conversions : list conversion;
  pending : option nat
}.

(** [setDisplayHtml(html); setEditedHtml(null); setViewMode(true)] *)
Definition show (html : jsstring) (p : panel) : panel :=
  {| displayHtml := html; editedHtml := None; viewMode := true;
     editValue := editValue p |}.

Definition cancel_conversion (c : conversion) : conversion :=
  {| c_html := c_html c; c_cancelled := true; c_done := c_done c |}.

Definition finish (c : conversion) : conversion :=
  {| c_html := c_html c; c_cancelled := c_cancelled c; c_done := true |}.

Section Effect.
Variable parse : jsstring -> list Dom.node.
Variable marked : jsstring -> jsstring.

(** A run of the effect, after [report] changed (and at the mount). *)
Definition report_effect (s : report_state) : report_state :=
  let cs :=
    match pending s with
    | Some k => alter cancel_conversion k (conversions s)
    | None => conversions s
    end in
  let shown html :=
    {| report := report s; view := show html (view s);
       conversions := cs; pending := None |} in
  match report s with
  | None => shown []
  | Some r =>
      if ReportFormat.blank r then shown []
      else
        let trimmed := trim r in
        if startsWith (str "<") trimmed
        then shown (ReportFormat.enhanceReportHtml parse
                      (DOMPurify.sanitize parse trimmed ReportFormat.report_config))
        else
          {| report := report s; view := view s;
             conversions :=
               cs ++ [ {| c_html := ReportFormat.markdownToHtmlAsync parse marked trimmed;
                          c_cancelled := false; c_done := false |} ];
             pending := Some (length cs) |}
  end.

(** [useState('')], [useState(null)], [useState(true)], [useState('')], and
    the first run of the effect. *)
Definition mount (r : option jsstring) : report_state :=
  report_effect
    {| report := r;
       view := {| displayHtml := []; editedHtml := None; viewMode := true;
                  editValue := [] |};
       conversions := []; pending := None |}.

(** The promise of conversion number [k] resolves:
    [if (!cancelled) { setDisplayHtml(html); setEditedHtml(null); setViewMode(true) }]. *)
Definition converted (k : nat) (s : report_state) : report_state :=
  match conversions s !! k with
  | None => s
  | Some c =>
      if c_done c then s
      else
        {| report := report s;
           view := if c_cancelled c then view s else show (c_html c) (view s);
           conversions := alter finish k (conversions s);
           pending := pending s |}
  end.

(** What can happen to the mounted panel: a render with another [report],
    a conversion that resolves, the buttons "Edit Report" and "Save
    Changes", and typing in the editor ([handleEditChange]). *)
Inductive report_event : Type :=
| NewReport (r : option jsstring)
| Converted (k : nat)
| SwitchToEdit
| EditChange (value : jsstring)
| SaveEdit.

Definition with_view (p : panel) (s : report_state) : report_state :=
  {| report := report s; view := p; conversions := conversions s; pending := pending s |}.

Definition report_step (s : report_state) (e : report_event) : report_state :=
  match e with
  | NewReport r =>
      report_effect {| report := r; view := view s; conversions := conversions s;
                       pending := pending s |}
  | Converted k => converted k s
  | SwitchToEdit => with_view (switchToEdit (view s)) s
  | EditChange value =>
      with_view {| displayHtml := displayHtml (view s); editedHtml := editedHtml (view s);
                   viewMode := viewMode (view s); editValue := value |} s
  | SaveEdit => with_view (fst (saveEdit parse (view s))) s
  end.

Inductive report_reachable : report_state -> Prop :=
| report_reach_mount r : report_reachable (mount r)
| report_reach_step s e : report_reachable s -> report_reachable (report_step s e).

(** The html of a report: what [markdownToHtmlAsync] gives for it. *)
Definition html_of (r : option jsstring) : jsstring :=
  match r with
  | Some x => ReportFormat.markdownToHtmlAsync parse marked x
  | None => []
  end.

(** Only the conversion of the effect run that is in place has its
    [cancelled] variable unset; it is the conversion of the current report,
    and once it has resolved its html is the one on display. *)
Definition conversion_invariant (s : report_state) : Prop :=
  (forall k c, conversions s !! k = Some c -> c_cancelled c = false -> pending s = Some k)
  /\ match pending s with
     | None => displayHtml (view s) = html_of (report s)
     | Some k =>
         exists c, conversions s !! k = Some c /\ c_cancelled c = false
                   /\ c_html c = html_of (report s)
                   /\ (c_done c = true -> displayHtml (view s) = c_html c)
     end.
End Effect.

(** ** Copy and export *)

Inductive clipboard : Type := ElectronClipboard | NavigatorClipboard.

(** What [copyToPowerScribe] does: the text it writes and where, and the
    message of its [alert]. *)
Record copy_result : Type := {
  copied : option (clipboard * jsstring);
  alert : jsstring
}.

(** [copyToPowerScribe], given whether [window.electronAPI?.copyToClipboard]
    and [navigator.clipboard?.writeText] are there. *)
Definition copyToPowerScribe (electronAPI navigator_clipboard : bool) (p : panel)
  : copy_result :=
  let text := ReportFormat.htmlToPlainText (currentViewHtml p) in
  if ReportFormat.blank text
  then {| copied := None; alert := str "No report content to copy." |}
  else if electronAPI
  then {| copied := Some (ElectronClipboard, text);
          alert := str "Report copied to clipboard! Paste into PowerScribe with Ctrl+V" |}
  else if navigator_clipboard
  then {| copied := Some (NavigatorClipboard, text);
          alert := str "Report copied to clipboard!" |}
  else {| copied := None; alert := str "Clipboard not available." |}.

(** The calls of [exportPdf] on the jsPDF document. *)
Inductive pdf_call : Type :=
| AddPage
| DrawText (line : jsstring) (x y : Z).

Definition margin : Z := 20.
Definition lineHeight : Z := 6.

(** [y + lineHeight > pageHeight - margin]; the height of the page is a
    number that jsPDF gives, the other numbers are whole. *)
Definition below_margin (pageHeight : QArith_base.Q) (y : Z) : bool :=
  negb (QArith_base.Qle_bool
          (QArith_base.inject_Z (y + lineHeight))
          (QArith_base.Qminus pageHeight (QArith_base.inject_Z margin))).

(** The loop [for (const line of lines)] of [exportPdf], from the vertical
    position [y]. *)
Fixpoint draw_lines (pageHeight : QArith_base.Q) (lines : list jsstring) (y : Z)
  : list pdf_call :=
  match lines with
  | [] => []
  | line :: rest =>
      if below_margin pageHeight y
      then AddPage :: DrawText line margin margin
                   :: draw_lines pageHeight rest (margin + lineHeight)
      else DrawText line margin y :: draw_lines pageHeight rest (y + lineHeight)
  end.

(** [exportPdf], given [doc.internal.pageSize] and [doc.splitTextToSize]. *)
Definition exportPdf (pageWidth pageHeight : QArith_base.Q)
    (splitTextToSize : jsstring -> QArith_base.Q -> list jsstring) (p : panel)
  : list pdf_call :=
  let text := ReportFormat.htmlToPlainText (currentViewHtml p) in
  let lines :=
    splitTextToSize text
      (QArith_base.Qminus pageWidth
         (QArith_base.Qmult (QArith_base.inject_Z 2) (QArith_base.inject_Z margin))) in
  draw_lines pageHeight lines margin.

(** The lines drawn, in the order of the calls. *)
Definition drawn (calls : list pdf_call) : list jsstring :=
  flat_map (fun c => match c with DrawText line _ _ => [line] | AddPage => [] end) calls.

(** The number of pages added. *)
Fixpoint added_pages (calls : list pdf_call) : nat :=
  match calls with
  | [] => 0
  | AddPage :: rest => S (added_pages rest)
  | DrawText _ _ _ :: rest => added_pages rest
  end.

End ReportViewer.

(* ================================================================== *)
(** * App.jsx of the desktop shell *)
(* ================================================================== *)

Module App.





(** The [image_ids] that [handleUpload] keeps from the answer of the
    server: [ids.map((id) => (id.startsWith('http') ? id : `${API_BASE_URL}${id}`))]. *)
Definition uploaded_image_ids (API_BASE_URL : jsstring) (ids : list jsstring)
  : list jsstring :=
  map (fun id => if startsWith (str "http") id then id else API_BASE_URL ++ id) ids.

(** [API_BASE_URL]: [isElectron ? 'http://127.0.0.1:8001' : ''] *)
Definition API_BASE_URL (isElectron : bool) : jsstring :=
  if isElectron then str "http://127.0.0.1:8001" else [].

End App.

(* ================================================================== *)
(** * Properties of [initCornerstone] *)
(* ================================================================== *)

Section InitFacts.

Import CornerstoneInit.

Lemma calls_after_success envs st :
  initialized st = true -> truthy (initError st) = false ->
  Forall (fun r => r = {| ok := true; error := None |}) (fst (calls envs st))
  /\ snd (calls envs st) = st.
Proof.
  intros Hi He. induction envs as [|env rest IH]; simpl.
  - split; [constructor | reflexivity].
  - unfold initCornerstone. rewrite He, Hi.
    destruct (calls rest st) as [rs st2] eqn:E. simpl in *.
    destruct IH as [IH1 IH2]. split; [constructor; [reflexivity | exact IH1] | exact IH2].
Qed.

Lemma calls_after_failure envs st :
  truthy (initError st) = true ->
  Forall (fun r => r = {| ok := false; error := initError st |}) (fst (calls envs st))
  /\ snd (calls envs st) = st.
Proof.
  intros He. induction envs as [|env rest IH]; simpl.
  - split; [constructor | reflexivity].
  - unfold initCornerstone. rewrite He.
    destruct (calls rest st) as [rs st2] eqn:E. simpl in *.
    destruct IH as [IH1 IH2]. split; [constructor; [reflexivity | exact IH1] | exact IH2].
Qed.

End InitFacts.

(** Memoization where it holds: when the first call of [initCornerstone]
    succeeds, that call and every later one return [{ ok: true }] and the
    setup has run once, whatever it would do if run again; when the first
    call throws a value whose description [e?.message || String(e)] is a
    non-empty string, that call and every later one return the same
    [{ ok: false, error }] and the setup has run once. *)
Theorem initCornerstone_memoized :
  forall (later : list CornerstoneInit.setup),
    (let r := CornerstoneInit.calls (CornerstoneInit.Completes :: later) CornerstoneInit.fresh in
     Forall (fun x => x = {| CornerstoneInit.ok := true; CornerstoneInit.error := None |}) (fst r)
     /\ CornerstoneInit.setup_runs (snd r) = 1%nat)
    /\
    (forall e : CornerstoneInit.thrown,
        CornerstoneInit.describe e <> [] ->
        let r := CornerstoneInit.calls (CornerstoneInit.Throws e :: later) CornerstoneInit.fresh in
        Forall (fun x => x = {| CornerstoneInit.ok := false;
                                CornerstoneInit.error := Some (CornerstoneInit.describe e) |}) (fst r)
        /\ CornerstoneInit.setup_runs (snd r) = 1%nat).
Proof.
  intros later. split.
  - simpl.
    set (st := {| CornerstoneInit.initialized := true; CornerstoneInit.initError := None;
                  CornerstoneInit.setup_runs := 1 |}).
    destruct (calls_after_success later st eq_refl eq_refl) as [H1 H2].
    destruct (CornerstoneInit.calls later st) as [rs st2]. simpl in *. subst st2.
    split; [constructor; [reflexivity | exact H1] | reflexivity].
  - intros e He. simpl.
    set (st := {| CornerstoneInit.initialized := false;
                  CornerstoneInit.initError := Some (CornerstoneInit.describe e);
                  CornerstoneInit.setup_runs := 1 |}).
    assert (Ht : truthy (CornerstoneInit.initError st) = true).
    { simpl. destruct (CornerstoneInit.describe e); [congruence | reflexivity]. }
    destruct (calls_after_failure later st Ht) as [H1 H2].
    destruct (CornerstoneInit.calls later st) as [rs st2]. simpl in *. subst st2.
    split; [constructor; [reflexivity | exact H1] | reflexivity].
Qed.

Lemma initCornerstone_memoized_witness :
  let e := {| CornerstoneInit.message := Some (str "registerImageLoader is not a function");
              CornerstoneInit.to_String := str "TypeError" |} in
  let later := [CornerstoneInit.Completes; CornerstoneInit.Throws e; CornerstoneInit.Completes] in
  let r := CornerstoneInit.calls (CornerstoneInit.Throws e :: later) CornerstoneInit.fresh in
  CornerstoneInit.describe e <> [] /\
  Forall (fun x => x = {| CornerstoneInit.ok := false;
                          CornerstoneInit.error := Some (CornerstoneInit.describe e) |}) (fst r)
  /\ CornerstoneInit.setup_runs (snd r) = 1%nat.
Proof.
  intros e later.
  assert (He : CornerstoneInit.describe e <> []) by (vm_compute; discriminate).
  split; [exact He | exact (proj2 (initCornerstone_memoized later) e He)].
Defined.

(** C6. Initializer memoization fails for a failure without a description.
    The setup throws a value [e] for which [e?.message] is missing and
    [String(e)] is the empty string (as after [throw '']): the first call
    returns [{ ok: false, error: '' }], and since [if (initError)] tests
    the stored description for truth the second call enters the setup
    again.  With a setup that completes from then on, the later calls
    return [{ ok: true }] and the setup has run twice; with a setup that
    keeps throwing, it is run on every call. *)
Theorem empty_failure_is_not_memoized :
  let e := {| CornerstoneInit.message := None; CornerstoneInit.to_String := [] |} in
  let failure := {| CornerstoneInit.ok := false; CornerstoneInit.error := Some [] |} in
  let success := {| CornerstoneInit.ok := true; CornerstoneInit.error := None |} in
  let recovers :=
    CornerstoneInit.calls
      [CornerstoneInit.Throws e; CornerstoneInit.Completes; CornerstoneInit.Completes]
      CornerstoneInit.fresh in
  let broken :=
    CornerstoneInit.calls
      [CornerstoneInit.Throws e; CornerstoneInit.Throws e; CornerstoneInit.Throws e]
      CornerstoneInit.fresh in
  CornerstoneInit.describe e = []
  /\ fst recovers = [failure; success; success]
  /\ CornerstoneInit.setup_runs (snd recovers) = 2%nat
  /\ ~ Forall (fun x => x = failure) (fst recovers)
  /\ fst broken = [failure; failure; failure]
  /\ CornerstoneInit.setup_runs (snd broken) = 3%nat.
Proof.
  cbv zeta. repeat split; try reflexivity.
  intros H. inversion H as [|x l _ H1]; subst. inversion H1 as [|y l' H2 _]; subst.
  discriminate H2.
Qed.

(* ================================================================== *)
(** * Properties of the slice viewer *)
(* ================================================================== *)

Section ViewerFacts.

Import DICOMViewer.

Lemma goNext_step n i : 0 <= i < n - 1 -> goNext n i = i + 1.
Proof.
  intros H. unfold goNext. rewrite Z.geb_leb.
  destruct (Z.leb_spec (n - 1) i); lia.
Qed.

Lemma goNext_last n i : n - 1 <= i -> goNext n i = 0.
Proof.
  intros H. unfold goNext. rewrite Z.geb_leb.
  destruct (Z.leb_spec (n - 1) i); lia.
Qed.

Lemma goNext_iter n k :
  (k < Z.to_nat n)%nat -> Nat.iter k (goNext n) 0 = Z.of_nat k.
Proof.
  induction k as [|k IH]; intros Hk; [reflexivity |].
  simpl. rewrite IH by lia. rewrite goNext_step; lia.
Qed.

Lemma goNext_cycle n : 1 <= n -> Nat.iter (Z.to_nat n) (goNext n) 0 = 0.
Proof.
  intros Hn. destruct (Z.to_nat n) as [|k] eqn:E; [lia |].
  simpl. rewrite goNext_iter by lia. apply goNext_last. lia.
Qed.

Lemma goNext_range n i : 1 <= n -> 0 <= i < n -> 0 <= goNext n i < n.
Proof.
  intros Hn Hi. unfold goNext. rewrite Z.geb_leb.
  destruct (Z.leb_spec (n - 1) i); lia.
Qed.

Lemma goPrev_range n i : 1 <= n -> 0 <= i < n -> 0 <= goPrev n i < n.
Proof. intros Hn Hi. unfold goPrev. destruct (Z.leb_spec i 0); lia. Qed.

(** The load effect touches neither the props nor the index. *)
Lemma load_effect_index v : currentIndex (load_effect v) = currentIndex v.
Proof.
  unfold load_effect.
  destruct ((totalSlices v =? 0) || negb (enabled v)); [reflexivity |].
  destruct (url_at _ _); reflexivity.
Qed.

Lemma load_effect_ids v : imageIds (load_effect v) = imageIds v.
Proof.
  unfold load_effect.
  destruct ((totalSlices v =? 0) || negb (enabled v)); [reflexivity |].
  destruct (url_at _ _); reflexivity.
Qed.

Lemma setCurrentIndex_index f v : currentIndex (setCurrentIndex f v) = f (currentIndex v).
Proof.
  unfold setCurrentIndex. destruct (f (currentIndex v) =? currentIndex v) eqn:E.
  - lia.
  - rewrite load_effect_index. reflexivity.
Qed.

Lemma setCurrentIndex_ids f v : imageIds (setCurrentIndex f v) = imageIds v.
Proof.
  unfold setCurrentIndex. destruct (f (currentIndex v) =? currentIndex v);
    [reflexivity | rewrite load_effect_ids; reflexivity].
Qed.

Lemma settle_index k o v : currentIndex (settle k o v) = currentIndex v.
Proof.
  unfold settle. destruct (loads v !! k) as [l|]; [| reflexivity].
  destruct (l_settled l); [reflexivity |].
  destruct (l_cancelled l); [reflexivity |].
  destruct o as [[| |] |]; reflexivity.
Qed.

Lemma settle_ids k o v : imageIds (settle k o v) = imageIds v.
Proof.
  unfold settle. destruct (loads v !! k) as [l|]; [| reflexivity].
  destruct (l_settled l); [reflexivity |].
  destruct (l_cancelled l); [reflexivity |].
  destruct o as [[| |] |]; reflexivity.
Qed.

Lemma clickNext_ids v : imageIds (clickNext v) = imageIds v.
Proof.
  unfold clickNext. destruct (totalSlices v <=? 1);
    [reflexivity | apply setCurrentIndex_ids].
Qed.

Lemma clickNext_iter v k :
  2 <= totalSlices v ->
  currentIndex (Nat.iter k clickNext v)
  = Nat.iter k (goNext (totalSlices v)) (currentIndex v)
  /\ imageIds (Nat.iter k clickNext v) = imageIds v.
Proof.
  intros Hn. induction k as [|k [IH1 IH2]]; [split; reflexivity |].
  simpl. split; [| rewrite clickNext_ids; exact IH2].
  unfold clickNext at 1.
  assert (Ht : totalSlices (Nat.iter k clickNext v) = totalSlices v)
    by (unfold totalSlices; rewrite IH2; reflexivity).
  rewrite Ht. destruct (totalSlices v <=? 1) eqn:E; [lia |].
  rewrite setCurrentIndex_index, IH1. reflexivity.
Qed.

(** An event that keeps the sequence keeps the props, and keeps a valid
    index valid. *)
Lemma step_keeps_ids v e :
  keeps_sequence e = true -> imageIds (step v e) = imageIds v.
Proof.
  destruct e as [| |k ed|ids|b|k o]; simpl; intros H; try discriminate.
  - unfold clickPrev. destruct (totalSlices v <=? 1);
      [reflexivity | apply setCurrentIndex_ids].
  - apply clickNext_ids.
  - unfold handleKey. destruct (totalSlices v <=? 1); [reflexivity |].
    destruct ed; [reflexivity |].
    destruct k; try apply setCurrentIndex_ids; reflexivity.
  - destruct (Bool.eqb b (enabled v)); [reflexivity | rewrite load_effect_ids; reflexivity].
  - apply settle_ids.
Qed.

Lemma step_keeps_valid v e :
  keeps_sequence e = true ->
  0 <= currentIndex v < totalSlices v ->
  0 <= currentIndex (step v e) < totalSlices v.
Proof.
  destruct e as [| |k ed|ids|b|k o]; simpl; intros H Hv; try discriminate.
  - unfold clickPrev. destruct (totalSlices v <=? 1); [exact Hv |].
    rewrite setCurrentIndex_index. apply goPrev_range; lia.
  - unfold clickNext. destruct (totalSlices v <=? 1); [exact Hv |].
    rewrite setCurrentIndex_index. apply goNext_range; lia.
  - unfold handleKey. destruct (totalSlices v <=? 1); [exact Hv |].
    destruct ed; [exact Hv |].
    destruct k; try exact Hv; rewrite setCurrentIndex_index;
      first [apply goPrev_range; lia | apply goNext_range; lia].
  - destruct (Bool.eqb b (enabled v)); [exact Hv | rewrite load_effect_index; exact Hv].
  - rewrite settle_index. exact Hv.
Qed.

Lemma step_keeps_zero v e :
  keeps_sequence e = true -> totalSlices v <= 1 ->
  currentIndex (step v e) = currentIndex v.
Proof.
  destruct e as [| |k ed|ids|b|k o]; simpl; intros H Hv; try discriminate.
  - unfold clickPrev. destruct (totalSlices v <=? 1) eqn:E; [reflexivity | lia].
  - unfold clickNext. destruct (totalSlices v <=? 1) eqn:E; [reflexivity | lia].
  - unfold handleKey. destruct (totalSlices v <=? 1) eqn:E; [reflexivity | lia].
  - destruct (Bool.eqb b (enabled v)); [reflexivity | rewrite load_effect_index; reflexivity].
  - apply settle_index.
Qed.

Lemma run_snoc v es e : run v (es ++ [e]) = step (run v es) e.
Proof. unfold run. rewrite fold_left_app. reflexivity. Qed.

Lemma reachable_run v es : reachable v -> reachable (run v es).
Proof.
  revert v. induction es as [|e es IH]; intros v Hv; [exact Hv |].
  simpl. apply IH. constructor. exact Hv.
Qed.

Lemma run_fixed_sequence ids es :
  forallb keeps_sequence es = true ->
  imageIds (run (mount ids) es) = ids
  /\ (ids <> [] -> 0 <= currentIndex (run (mount ids) es) < Z.of_nat (length ids))
  /\ (ids = [] -> currentIndex (run (mount ids) es) = 0).
Proof.
  induction es as [|e es IH] using rev_ind; intros Hes.
  - simpl. split; [reflexivity |]. split; [| reflexivity].
    intros Hne. destruct ids; [congruence | simpl; lia].
  - rewrite forallb_app in Hes. apply andb_prop in Hes as [Hes He].
    simpl in He. rewrite andb_true_r in He.
    destruct (IH Hes) as (Hi & Hv & Hz). rewrite run_snoc.
    split; [rewrite step_keeps_ids by exact He; exact Hi |].
    split.
    + intros Hne. specialize (Hv Hne).
      pose proof (step_keeps_valid (run (mount ids) es) e He) as K.
      unfold totalSlices in K. rewrite Hi in K. apply K. exact Hv.
    + intros Hnil. rewrite step_keeps_zero; [apply Hz; exact Hnil | exact He |].
      unfold totalSlices. rewrite Hi, Hnil. simpl. lia.
Qed.

End ViewerFacts.

(** C5. Navigation wraparound: in a viewer with N >= 2 slices at index 0,
    pressing Next N times brings the current index back to 0 and pressing
    Previous once gives N-1 (the updaters [goNext] and [goPrev] do that on
    the index itself); with at most one slice the Next and Previous buttons
    and the navigation keys leave the current index as it is. *)
Theorem navigation_wraparound :
  forall v : DICOMViewer.viewer,
    let n := DICOMViewer.totalSlices v in
    (2 <= n -> DICOMViewer.currentIndex v = 0 ->
       Nat.iter (Z.to_nat n) (DICOMViewer.goNext n) 0 = 0
       /\ DICOMViewer.goPrev n 0 = n - 1
       /\ DICOMViewer.currentIndex (Nat.iter (Z.to_nat n) DICOMViewer.clickNext v) = 0
       /\ DICOMViewer.currentIndex (DICOMViewer.clickPrev v) = n - 1
       /\ DICOMViewer.currentIndex
            (Nat.iter (Z.to_nat n) (DICOMViewer.handleKey DICOMViewer.ArrowRight false) v) = 0
       /\ DICOMViewer.currentIndex (DICOMViewer.handleKey DICOMViewer.ArrowLeft false v) = n - 1)
    /\
    (n <= 1 ->
       DICOMViewer.clickNext v = v /\ DICOMViewer.clickPrev v = v
       /\ forall k ed, DICOMViewer.handleKey k ed v = v).
Proof.
  intros v n. split.
  - intros Hn H0.
    assert (Hcyc : Nat.iter (Z.to_nat n) (DICOMViewer.goNext n) 0 = 0)
      by (apply goNext_cycle; lia).
    assert (Hkey : forall w, DICOMViewer.totalSlices w = n ->
              DICOMViewer.handleKey DICOMViewer.ArrowRight false w = DICOMViewer.clickNext w).
    { intros w Hw. unfold DICOMViewer.handleKey, DICOMViewer.clickNext.
      rewrite Hw. destruct (n <=? 1); reflexivity. }
    assert (Hiter : forall k,
              Nat.iter k (DICOMViewer.handleKey DICOMViewer.ArrowRight false) v
              = Nat.iter k DICOMViewer.clickNext v).
    { induction k as [|k IH]; [reflexivity |]. simpl. rewrite IH. apply Hkey.
      unfold DICOMViewer.totalSlices.
      rewrite (proj2 (clickNext_iter v k Hn)). reflexivity. }
    split; [exact Hcyc |].
    split; [unfold DICOMViewer.goPrev; simpl; reflexivity |].
    split; [rewrite (proj1 (clickNext_iter v _ Hn)), H0; exact Hcyc |].
    split.
    { unfold DICOMViewer.clickPrev. fold n. destruct (n <=? 1) eqn:E; [lia |].
      rewrite setCurrentIndex_index, H0. reflexivity. }
    split; [rewrite Hiter, (proj1 (clickNext_iter v _ Hn)), H0; exact Hcyc |].
    unfold DICOMViewer.handleKey. fold n. destruct (n <=? 1) eqn:E; [lia |].
    rewrite setCurrentIndex_index, H0. reflexivity.
  - intros Hn. unfold DICOMViewer.clickNext, DICOMViewer.clickPrev, DICOMViewer.handleKey.
    fold n. destruct (n <=? 1) eqn:E; [| lia]. repeat split; reflexivity.
Qed.

Lemma navigation_wraparound_witness :
  let three := DICOMViewer.mount [str "a"; str "b"; str "c"] in
  let one := DICOMViewer.mount [str "a"] in
  (2 <= DICOMViewer.totalSlices three /\ DICOMViewer.currentIndex three = 0
   /\ DICOMViewer.currentIndex
        (DICOMViewer.clickNext (DICOMViewer.clickNext (DICOMViewer.clickNext three))) = 0
   /\ DICOMViewer.currentIndex (DICOMViewer.clickPrev three) = 2)
  /\ (DICOMViewer.totalSlices one <= 1 /\ DICOMViewer.clickNext one = one).
Proof.
  intros three one.
  assert (H2 : 2 <= DICOMViewer.totalSlices three) by (vm_compute; discriminate).
  assert (H1 : DICOMViewer.totalSlices one <= 1) by (vm_compute; discriminate).
  destruct (proj1 (navigation_wraparound three) H2 eq_refl) as (_ & _ & Hn & Hp & _).
  destruct (proj2 (navigation_wraparound one) H1) as (Hone & _).
  split; [split; [exact H2 | split; [reflexivity | split; [exact Hn | exact Hp]]] |].
  split; [exact H1 | exact Hone].
Defined.

Section LoadFacts.

Import DICOMViewer.

Lemma cleanup_all_cancelled v :
  cancelled_unless_active v ->
  forall k l, cleanup v !! k = Some l -> l_cancelled l = true.
Proof.
  intros Hc k l Hk. unfold cleanup in Hk.
  destruct (l_cancelled l) eqn:El; [reflexivity | exfalso].
  destruct (effect v) as [a|] eqn:Ea.
  - destruct (decide (a = k)) as [->|Hne].
    + rewrite list_lookup_alter_eq in Hk.
      destruct (loads v !! k) as [l0|]; simpl in Hk; [| discriminate].
      injection Hk as <-. simpl in El. discriminate.
    + rewrite list_lookup_alter_ne in Hk by exact Hne.
      specialize (Hc k l Hk El). congruence.
  - specialize (Hc k l Hk El). congruence.
Qed.

Lemma load_effect_invariant v :
  cancelled_unless_active v -> load_invariant (load_effect v).
Proof.
  intros Hc. pose proof (cleanup_all_cancelled v Hc) as Hall.
  unfold load_effect.
  destruct ((totalSlices v =? 0) || negb (enabled v)).
  { split; [intros k l Hk El; simpl in *; rewrite (Hall k l Hk) in El; discriminate
           | intros k Hk; simpl in Hk; discriminate]. }
  destruct (url_at (imageIds v) (currentIndex v)) as [url|].
  2:{ split; [intros k l Hk El; simpl in *; rewrite (Hall k l Hk) in El; discriminate
             | intros k Hk; simpl in Hk; discriminate]. }
  split.
  - intros k l Hk El. simpl in *.
    apply lookup_snoc_Some in Hk as [[_ Hk] | [-> _]]; [| reflexivity].
    rewrite (Hall k l Hk) in El. discriminate.
  - intros k Hk. simpl in *. injection Hk as <-.
    eexists. split; [apply lookup_snoc_Some; right; split; reflexivity |].
    split; [reflexivity |]. rewrite length_app. simpl. lia.
Qed.

Lemma setCurrentIndex_invariant f v :
  load_invariant v -> load_invariant (setCurrentIndex f v).
Proof.
  intros Hi. unfold setCurrentIndex.
  destruct (f (currentIndex v) =? currentIndex v); [exact Hi |].
  apply load_effect_invariant. exact (proj1 Hi).
Qed.

(** Settling a load changes, of the bookkeeping, only its [settled] mark. *)
Lemma settle_bookkeeping k o v :
  effect (settle k o v) = effect v
  /\ (loads (settle k o v) = loads v \/ loads (settle k o v) = alter settled k (loads v)).
Proof.
  unfold settle. destruct (loads v !! k) as [l|]; [| split; [reflexivity | left; reflexivity]].
  destruct (l_settled l); [split; [reflexivity | left; reflexivity] |].
  destruct (l_cancelled l); [split; [reflexivity | right; reflexivity] |].
  destruct o as [[| |] |]; (split; [reflexivity | right; reflexivity]).
Qed.

Lemma lookup_settled k j (ls : list load) l :
  alter settled k ls !! j = Some l ->
  exists l0, ls !! j = Some l0 /\ l_cancelled l0 = l_cancelled l /\ l_index l0 = l_index l.
Proof.
  intros H. destruct (decide (k = j)) as [->|Hne].
  - rewrite list_lookup_alter_eq in H.
    destruct (ls !! j) as [l0|]; simpl in H; [| discriminate].
    injection H as <-. exists l0. repeat split.
  - rewrite list_lookup_alter_ne in H by exact Hne. exists l. repeat split. exact H.
Qed.

Lemma settle_invariant k o v : load_invariant v -> load_invariant (settle k o v).
Proof.
  intros [Hc Ha]. destruct (settle_bookkeeping k o v) as [He Hl].
  pose proof (settle_index k o v) as Hi. split.
  - intros j l Hj El. rewrite He. destruct Hl as [Hl|Hl]; rewrite Hl in Hj.
    + exact (Hc j l Hj El).
    + apply lookup_settled in Hj as (l0 & Hj & Hcl & _).
      apply (Hc j l0 Hj). congruence.
  - intros j Hj. rewrite He in Hj. destruct (Ha j Hj) as (l & Hlk & Hix & Hlen).
    rewrite Hi. destruct Hl as [Hl|Hl]; rewrite Hl.
    + exists l. repeat split; assumption.
    + rewrite length_alter. destruct (decide (k = j)) as [->|Hne].
      * exists (settled l). rewrite list_lookup_alter_eq, Hlk. repeat split; assumption.
      * exists l. rewrite list_lookup_alter_ne by exact Hne. repeat split; assumption.
Qed.

Lemma step_invariant v e : load_invariant v -> load_invariant (step v e).
Proof.
  intros Hi. destruct e as [| |k ed|ids|b|k o]; simpl.
  - unfold clickPrev. destruct (totalSlices v <=? 1);
      [exact Hi | apply setCurrentIndex_invariant; exact Hi].
  - unfold clickNext. destruct (totalSlices v <=? 1);
      [exact Hi | apply setCurrentIndex_invariant; exact Hi].
  - unfold handleKey. destruct (totalSlices v <=? 1); [exact Hi |].
    destruct ed; [exact Hi |].
    destruct k; try exact Hi; apply setCurrentIndex_invariant; exact Hi.
  - apply load_effect_invariant. exact (proj1 Hi).
  - destruct (Bool.eqb b (enabled v)); [exact Hi |].
    apply load_effect_invariant. exact (proj1 Hi).
  - apply settle_invariant. exact Hi.
Qed.

Lemma reachable_invariant v : reachable v -> load_invariant v.
Proof.
  induction 1 as [ids | v e _ IH].
  - split; [intros k l Hk; simpl in Hk; discriminate | intros k Hk; discriminate].
  - apply step_invariant. exact IH.
Qed.

(** A load that is cancelled, settled or unknown changes nothing that can
    be observed. *)
Lemma settle_cancelled k o v l :
  loads v !! k = Some l -> l_cancelled l = true -> visible (settle k o v) = visible v.
Proof.
  intros Hk Hc. unfold settle. rewrite Hk.
  destruct (l_settled l); [reflexivity |]. rewrite Hc. reflexivity.
Qed.

(** What settling a load makes visible depends on what was visible and on
    that load only. *)
Lemma settle_visible k o v1 v2 :
  visible v1 = visible v2 -> loads v1 !! k = loads v2 !! k ->
  visible (settle k o v1) = visible (settle k o v2).
Proof.
  intros Hv Hl. unfold settle. rewrite Hl.
  unfold visible in Hv. injection Hv as H1 H2 H3 H4 H5 H6.
  destruct (loads v2 !! k) as [l|]; [| unfold visible; congruence].
  destruct (l_settled l); [unfold visible; congruence |].
  destruct (l_cancelled l); [unfold visible; simpl; congruence |].
  destruct o as [[| |] |]; unfold visible; simpl; congruence.
Qed.

Lemma settle_other_load k j o v :
  k <> j -> loads (settle k o v) !! j = loads v !! j.
Proof.
  intros Hne. destruct (settle_bookkeeping k o v) as [_ [Hl|Hl]]; rewrite Hl;
    [reflexivity | apply list_lookup_alter_ne; exact Hne].
Qed.

Lemma stale_is_cancelled v k l :
  load_invariant v -> loads v !! k = Some l ->
  (l_index l <> currentIndex v \/ S k <> length (loads v)) ->
  l_cancelled l = true.
Proof.
  intros [Hc Ha] Hk Hstale. destruct (l_cancelled l) eqn:El; [reflexivity | exfalso].
  pose proof (Hc k l Hk El) as He. destruct (Ha k He) as (l' & Hk' & Hix & Hlen).
  rewrite Hk in Hk'. injection Hk' as <-. destruct Hstale; congruence.
Qed.

End LoadFacts.

(** C1. Stale-load rejection: in every reachable state of the viewer, (i) a
    load whose index is not the current index, when it settles (with
    success or failure), leaves the props, the React state (index, loading
    flag, error) and the surface as they are; (ii) of two loads A and B
    with A issued before B, the settling of A is not observable whichever
    of the two settles first: the observable state is the one obtained when
    B alone settles, and when B is the load in force and succeeds the
    surface shows B's image and the loading flag is cleared. *)
Theorem stale_load_rejected :
  forall v : DICOMViewer.viewer,
    DICOMViewer.reachable v ->
    (forall k l o,
        DICOMViewer.loads v !! k = Some l ->
        DICOMViewer.l_index l <> DICOMViewer.currentIndex v ->
        DICOMViewer.visible (DICOMViewer.settle k o v) = DICOMViewer.visible v)
    /\
    (forall a b la lb oa ob,
        DICOMViewer.loads v !! a = Some la ->
        DICOMViewer.loads v !! b = Some lb ->
        (a < b)%nat ->
        DICOMViewer.visible (DICOMViewer.settle a oa (DICOMViewer.settle b ob v))
        = DICOMViewer.visible (DICOMViewer.settle b ob v)
        /\ DICOMViewer.visible (DICOMViewer.settle b ob (DICOMViewer.settle a oa v))
           = DICOMViewer.visible (DICOMViewer.settle b ob v)
        /\ (DICOMViewer.l_cancelled lb = false -> DICOMViewer.l_settled lb = false ->
            ob = DICOMViewer.Resolved DICOMViewer.DisplayOk ->
            let w := DICOMViewer.settle a oa (DICOMViewer.settle b ob v) in
            DICOMViewer.surface w = Some (DICOMViewer.l_imageId lb)
            /\ DICOMViewer.loading w = false
            /\ DICOMViewer.currentIndex w = DICOMViewer.l_index lb)).
Proof.
  intros v Hr. pose proof (reachable_invariant v Hr) as Hinv. split.
  - intros k l o Hk Hix. apply (settle_cancelled k o v l Hk).
    apply (stale_is_cancelled v k l Hinv Hk). left. exact Hix.
  - intros a b la lb oa ob Ha Hb Hab.
    assert (Hca : DICOMViewer.l_cancelled la = true).
    { apply (stale_is_cancelled v a la Hinv Ha). right.
      apply lookup_lt_Some in Hb. lia. }
    assert (Hne : b <> a) by lia.
    assert (H1 : DICOMViewer.visible (DICOMViewer.settle a oa (DICOMViewer.settle b ob v))
                 = DICOMViewer.visible (DICOMViewer.settle b ob v)).
    { apply (settle_cancelled a oa _ la); [| exact Hca].
      rewrite settle_other_load by exact Hne. exact Ha. }
    split; [exact H1 |]. split.
    + apply settle_visible.
      * apply (settle_cancelled a oa v la Ha Hca).
      * apply settle_other_load. lia.
    + intros Hcb Hsb -> w.
      assert (Hw : DICOMViewer.visible w = DICOMViewer.visible (DICOMViewer.settle b
                     (DICOMViewer.Resolved DICOMViewer.DisplayOk) v)) by exact H1.
      destruct Hinv as [Hc Hact].
      destruct (Hact b (Hc b lb Hb Hcb)) as (l' & Hb' & Hix & _).
      rewrite Hb in Hb'. injection Hb' as <-.
      unfold DICOMViewer.visible in Hw. injection Hw as _ Hi Hl _ _ Hs.
      rewrite Hs, Hl, Hi. unfold DICOMViewer.settle. rewrite Hb, Hsb, Hcb. simpl.
      repeat split. symmetry. exact Hix.
Qed.

Lemma stale_load_rejected_witness :
  let v := DICOMViewer.run (DICOMViewer.mount [str "/s/0"; str "/s/1"; str "/s/2"])
             [DICOMViewer.Enabled true; DICOMViewer.ClickNext] in
  let late := DICOMViewer.Resolved DICOMViewer.DisplayOk in
  let failed := DICOMViewer.Rejected None in
  DICOMViewer.reachable v
  /\ DICOMViewer.visible (DICOMViewer.settle 0 late v) = DICOMViewer.visible v
  /\ DICOMViewer.visible (DICOMViewer.settle 0 late (DICOMViewer.settle 1 failed v))
     = DICOMViewer.visible (DICOMViewer.settle 1 failed v)
  /\ DICOMViewer.visible (DICOMViewer.settle 1 failed (DICOMViewer.settle 0 late v))
     = DICOMViewer.visible (DICOMViewer.settle 1 failed v)
  /\ DICOMViewer.surface (DICOMViewer.settle 0 failed (DICOMViewer.settle 1 late v))
     = Some (str "wadouri:/s/1").
Proof.
  intros v late failed.
  assert (Hr : DICOMViewer.reachable v)
    by (apply reachable_run; constructor).
  destruct (stale_load_rejected v Hr) as [Hstale Hpair].
  split; [exact Hr |].
  split; [eapply (Hstale 0%nat); [reflexivity | vm_compute; discriminate] |].
  destruct (Hpair 0%nat 1%nat _ _ late failed eq_refl eq_refl ltac:(lia)) as (H1 & H2 & _).
  split; [exact H1 |]. split; [exact H2 |].
  destruct (Hpair 0%nat 1%nat _ _ failed late eq_refl eq_refl ltac:(lia)) as (_ & _ & H3).
  exact (proj1 (H3 eq_refl eq_refl eq_refl)).
Defined.

(** C8, the part of the claim that fails: a viewer showing the third of
    three slices that is given a sequence of two keeps index 2, which is not
    an index of the new sequence; nothing resets it to 0. *)
Lemma currentIndex_survives_new_sequence :
  let v := DICOMViewer.run (DICOMViewer.mount [str "a"; str "b"; str "c"])
             [DICOMViewer.ClickNext; DICOMViewer.ClickNext;
              DICOMViewer.Props [str "d"; str "e"]] in
  DICOMViewer.reachable v
  /\ DICOMViewer.imageIds v = [str "d"; str "e"]
  /\ DICOMViewer.currentIndex v = 2
  /\ ~ (0 <= DICOMViewer.currentIndex v < DICOMViewer.totalSlices v)
  /\ DICOMViewer.currentIndex (DICOMViewer.mount []) = 0.
Proof.
  intros v. split; [apply reachable_run; constructor |].
  vm_compute. repeat split; try reflexivity. intros [_ H]. discriminate H.
Qed.

(** C8 as amended: while a mounted viewer keeps the sequence it was mounted
    with, under clicks, keys, enabling and settling loads, the current index
    is an index of the sequence when there is one and is 0 (a number, never
    undefined) when the sequence is empty; a mount starts at index 0; a
    render with a new [imageIds] array leaves the current index as it is. *)
Theorem currentIndex_valid_while_sequence_kept :
  forall (ids : list jsstring) (es : list DICOMViewer.event),
    forallb DICOMViewer.keeps_sequence es = true ->
    let v := DICOMViewer.run (DICOMViewer.mount ids) es in
    DICOMViewer.imageIds v = ids
    /\ (ids <> [] -> 0 <= DICOMViewer.currentIndex v < DICOMViewer.totalSlices v)
    /\ (ids = [] -> DICOMViewer.currentIndex v = 0)
    /\ DICOMViewer.currentIndex (DICOMViewer.mount ids) = 0
    /\ (forall ids', DICOMViewer.currentIndex (DICOMViewer.step v (DICOMViewer.Props ids'))
                     = DICOMViewer.currentIndex v).
Proof.
  intros ids es Hes v. destruct (run_fixed_sequence ids es Hes) as (Hi & Hv & Hz).
  split; [exact Hi |]. split.
  { intros Hne. unfold DICOMViewer.totalSlices. fold v in Hi. rewrite Hi. apply Hv. exact Hne. }
  split; [exact Hz |]. split; [reflexivity |].
  intros ids'. simpl. rewrite load_effect_index. reflexivity.
Qed.

Lemma currentIndex_valid_while_sequence_kept_witness :
  let ids := [str "a"; str "b"; str "c"] in
  let es := [DICOMViewer.Enabled true; DICOMViewer.ClickPrev;
             DICOMViewer.Settle 1 (DICOMViewer.Resolved DICOMViewer.DisplayOk);
             DICOMViewer.KeyDown DICOMViewer.Key_k false] in
  let v := DICOMViewer.run (DICOMViewer.mount ids) es in
  forallb DICOMViewer.keeps_sequence es = true
  /\ 0 <= DICOMViewer.currentIndex v < DICOMViewer.totalSlices v.
Proof.
  intros ids es v.
  assert (Hes : forallb DICOMViewer.keeps_sequence es = true) by reflexivity.
  split; [exact Hes |].
  apply (currentIndex_valid_while_sequence_kept ids es Hes). discriminate.
Defined.

(* ================================================================== *)
(** * Properties of the confidence tiers *)
(* ================================================================== *)

(** C7, the claim that fails: with a report whose mapping records only
    L4-L5 (as high), the level L1-L2, which is absent, is presented as
    Medium ("Verify carefully"), not High, and the verification warning is
    shown; it is shown as well when the mapping is empty. *)
Lemma absent_level_is_medium :
  let lc : gmap jsstring jsstring := {[ str "L4-L5" := str "high" ]} in
  lc !! str "L1-L2" = None
  /\ head (ReportViewer.confidence_badges true lc)
     = Some (str "L1-L2", {| ReportViewer.label := str "Medium";
                             ReportViewer.title := str "Verify carefully" |})
  /\ ReportViewer.verification_warning true lc = true
  /\ ReportViewer.verification_warning true ∅ = true.
Proof. vm_compute. repeat split. Qed.

(** C7 as amended: for each of the five named levels, a level absent from
    the level-confidence mapping defaults to the [medium] tier: in the panel
    of badges (shown when there is a report and the mapping is not empty)
    its badge reads Medium with the hint "Verify carefully", and it makes
    the low/medium-confidence verification warning appear. *)
Theorem absent_level_defaults_to_medium :
  forall (levelConfidence : gmap jsstring jsstring) (level : jsstring),
    In level ReportViewer.DISC_LEVELS ->
    levelConfidence !! level = None ->
    ReportViewer.tier levelConfidence level = str "medium"
    /\ (levelConfidence <> ∅ ->
        In (level, {| ReportViewer.label := str "Medium";
                      ReportViewer.title := str "Verify carefully" |})
           (ReportViewer.confidence_badges true levelConfidence))
    /\ ReportViewer.hasLowConfidence levelConfidence = true
    /\ ReportViewer.verification_warning true levelConfidence = true.
Proof.
  intros lc level Hin Hnone.
  assert (Ht : ReportViewer.tier lc level = str "medium")
    by (unfold ReportViewer.tier; rewrite Hnone; reflexivity).
  assert (Hw : ReportViewer.hasLowConfidence lc = true).
  { unfold ReportViewer.hasLowConfidence. apply orb_true_iff. right.
    apply existsb_exists. exists level. split; [exact Hin |].
    rewrite Ht. reflexivity. }
  split; [exact Ht |]. split.
  - intros Hne. unfold ReportViewer.confidence_badges.
    rewrite bool_decide_eq_false_2 by exact Hne. simpl andb. cbv iota.
    apply in_map_iff. exists level. split; [| exact Hin].
    unfold ReportViewer.level_badge. rewrite Ht. reflexivity.
  - split; [exact Hw |]. unfold ReportViewer.verification_warning.
    rewrite Hw. reflexivity.
Qed.

Lemma absent_level_defaults_to_medium_witness :
  let lc : gmap jsstring jsstring := {[ str "L4-L5" := str "high" ]} in
  In (str "L5-S1") ReportViewer.DISC_LEVELS
  /\ lc !! str "L5-S1" = None
  /\ ReportViewer.tier lc (str "L5-S1") = str "medium"
  /\ ReportViewer.verification_warning true lc = true.
Proof.
  intros lc.
  assert (Hin : In (str "L5-S1") ReportViewer.DISC_LEVELS)
    by (simpl; repeat (first [left; reflexivity | right])).
  assert (Hnone : lc !! str "L5-S1" = None) by (vm_compute; reflexivity).
  destruct (absent_level_defaults_to_medium lc _ Hin Hnone) as (Ht & _ & _ & Hw).
  repeat split; assumption.
Defined.

(* ================================================================== *)
(** * Properties of the document tree *)
(* ================================================================== *)

Section DomFacts.

Import Dom.

(** Induction on a tree, with the property for all the children. *)
Lemma node_induction (P : node -> Prop) :
  (forall i t a k, Forall P k -> P (Element i t a k)) ->
  (forall d, P (Text d)) ->
  (forall d, P (Comment d)) ->
  forall n, P n.
Proof.
  intros HE HT HC. fix IH 1. intros [i t a k | d | d].
  - apply HE. induction k as [|c k IHk]; constructor; [apply IH | exact IHk].
  - apply HT.
  - apply HC.
Qed.

Lemma jseqb_refl (s : jsstring) : JS.eqb s s = true.
Proof. unfold JS.eqb. apply bool_decide_eq_true. reflexivity. Qed.

Lemma getAttribute_set n v a : getAttribute n (setAttribute n v a) = Some v.
Proof.
  induction a as [|[n0 v0] a IH]; simpl.
  - rewrite jseqb_refl. reflexivity.
  - destruct (JS.eqb n0 n) eqn:E; simpl; rewrite E; [reflexivity | exact IH].
Qed.

Lemma setAttribute_twice n v v' a :
  setAttribute n v (setAttribute n v' a) = setAttribute n v a.
Proof.
  induction a as [|[n0 v0] a IH]; simpl.
  - rewrite jseqb_refl. reflexivity.
  - destruct (JS.eqb n0 n) eqn:E; simpl; rewrite E; [reflexivity | rewrite IH; reflexivity].
Qed.

Lemma setAttribute_names (P : jsstring -> bool) n v a :
  P n = true -> forallb (fun x => P (fst x)) a = true ->
  forallb (fun x => P (fst x)) (setAttribute n v a) = true.
Proof.
  intros Hn. induction a as [|[n0 v0] a IH]; simpl; intros Ha.
  - rewrite Hn. reflexivity.
  - apply andb_prop in Ha as [H0 Ha].
    destruct (JS.eqb n0 n); simpl; rewrite H0; [exact Ha | apply IH; exact Ha].
Qed.

Lemma fields_ws_free t : ws_free t -> fields t = [t].
Proof.
  unfold ws_free. induction t as [|c t IH]; simpl; intros H; [reflexivity |].
  apply andb_prop in H as [Hc Ht]. apply negb_true_iff in Hc.
  rewrite Hc, (IH Ht). reflexivity.
Qed.

Lemma fields_sep t s : ws_free t -> fields (t ++ 32%N :: s) = t :: fields s.
Proof.
  unfold ws_free. induction t as [|c t IH]; simpl; intros H; [reflexivity |].
  apply andb_prop in H as [Hc Ht]. apply negb_true_iff in Hc.
  rewrite Hc, (IH Ht). reflexivity.
Qed.

Lemma fields_pieces s : Forall ws_free (fields s) /\ fields s <> [].
Proof.
  induction s as [|c s [IH1 IH2]]; simpl.
  - split; [repeat constructor | discriminate].
  - destruct (is_ascii_ws c) eqn:Ec.
    + split; [constructor; [reflexivity | exact IH1] | discriminate].
    + destruct (fields s) as [|f fs]; [congruence |].
      inversion IH1 as [|? ? Hf Hfs]; subst.
      split; [| discriminate]. constructor; [| exact Hfs].
      unfold ws_free in *. simpl. rewrite Ec. exact Hf.
Qed.

Lemma tokens_good v : Forall good_token (tokens v).
Proof.
  unfold tokens. destruct (fields_pieces v) as [H _].
  induction H as [|f fs Hf Hfs IH]; [constructor |].
  rewrite filter_cons. destruct (decide (nonempty f = true)) as [Hn|Hn];
    [constructor; [split; assumption | exact IH] | exact IH].
Qed.

Lemma tokens_serialize T : Forall good_token T -> tokens (serialize_tokens T) = T.
Proof.
  induction T as [|t T IH]; intros H; [reflexivity |].
  inversion H as [|? ? [Hn Hw] HT]; subst. destruct T as [|t' r].
  - simpl. unfold tokens. rewrite (fields_ws_free t Hw).
    rewrite filter_cons, decide_True by exact Hn. reflexivity.
  - change (serialize_tokens (t :: t' :: r)) with (t ++ 32%N :: serialize_tokens (t' :: r)).
    unfold tokens. rewrite (fields_sep t _ Hw).
    rewrite filter_cons, decide_True by exact Hn.
    f_equal. apply IH. exact HT.
Qed.

Lemma add_token_elem acc t : t ∈ add_token acc t.
Proof.
  unfold add_token. case_bool_decide as H; [exact H |].
  apply elem_of_app. right. apply list_elem_of_singleton. reflexivity.
Qed.

Lemma add_token_present acc t : t ∈ acc -> add_token acc t = acc.
Proof. intros H. unfold add_token. rewrite bool_decide_eq_true_2 by exact H. reflexivity. Qed.

Lemma add_token_NoDup acc t : NoDup acc -> NoDup (add_token acc t).
Proof.
  intros H. unfold add_token. case_bool_decide as Hin; [exact H |].
  apply NoDup_app. split; [exact H |]. split; [| apply NoDup_singleton].
  intros x Hx Hx'. apply list_elem_of_singleton in Hx'. subst. contradiction.
Qed.

Lemma add_token_good acc t :
  Forall good_token acc -> good_token t -> Forall good_token (add_token acc t).
Proof.
  intros Ha Ht. unfold add_token. case_bool_decide; [exact Ha |].
  apply Forall_app. split; [exact Ha | constructor; [exact Ht | constructor]].
Qed.

Lemma fold_add_token_inv (P : list jsstring -> Prop) (Q : jsstring -> Prop) T acc :
  (forall a t, P a -> Q t -> P (add_token a t)) ->
  P acc -> Forall Q T -> P (fold_left add_token T acc).
Proof.
  intros Hstep. revert acc. induction T as [|t T IH]; intros acc Ha HT; [exact Ha |].
  inversion HT; subst. simpl. apply IH; [apply Hstep |]; assumption.
Qed.

Lemma token_set_NoDup v : NoDup (token_set v).
Proof.
  unfold token_set.
  apply (fold_add_token_inv (fun a => NoDup a) (fun _ => True)).
  - intros a t Ha _. apply add_token_NoDup. exact Ha.
  - constructor.
  - apply Forall_forall. intros; exact I.
Qed.

Lemma token_set_good v : Forall good_token (token_set v).
Proof.
  unfold token_set. apply (fold_add_token_inv (Forall good_token) good_token).
  - intros a t. apply add_token_good.
  - constructor.
  - apply tokens_good.
Qed.

Lemma fold_add_token_fresh T acc :
  NoDup (acc ++ T) -> fold_left add_token T acc = acc ++ T.
Proof.
  revert acc. induction T as [|t T IH]; intros acc H; simpl.
  - rewrite app_nil_r. reflexivity.
  - assert (Hnot : t ∉ acc).
    { apply NoDup_app in H as (_ & Hd & _). intros Hin. apply (Hd t Hin). left. }
    unfold add_token at 2. rewrite bool_decide_eq_false_2 by exact Hnot.
    rewrite IH; rewrite <- app_assoc; [reflexivity | exact H].
Qed.

Lemma token_set_serialize T :
  NoDup T -> Forall good_token T -> token_set (serialize_tokens T) = T.
Proof.
  intros Hd Hg. unfold token_set. rewrite (tokens_serialize T Hg).
  apply (fold_add_token_fresh T []). exact Hd.
Qed.

(** After [classList.add(c)] the class set is the old one with [c] added. *)
Lemma class_tokens_add c a :
  good_token c -> class_tokens (classList_add c a) = add_token (class_tokens a) c.
Proof.
  intros Hc. unfold classList_add. unfold class_tokens at 1.
  rewrite getAttribute_set. simpl. apply token_set_serialize.
  - apply add_token_NoDup, token_set_NoDup.
  - apply add_token_good; [apply token_set_good | exact Hc].
Qed.

(** Adding a class twice is adding it once. *)
Lemma classList_add_twice c a :
  good_token c -> classList_add c (classList_add c a) = classList_add c a.
Proof.
  intros Hc. unfold classList_add at 1. rewrite (class_tokens_add c a Hc).
  rewrite (add_token_present _ c (add_token_elem _ c)).
  unfold classList_add. apply setAttribute_twice.
Qed.

Lemma classList_add_names (P : jsstring -> bool) c a :
  P (str "class") = true -> forallb (fun x => P (fst x)) a = true ->
  forallb (fun x => P (fst x)) (classList_add c a) = true.
Proof. intros Hp Ha. unfold classList_add. apply setAttribute_names; assumption. Qed.

End DomFacts.

(* ================================================================== *)
(** * Properties of [enhanceReportHtml] *)
(* ================================================================== *)

Section EnhanceFacts.

Import Dom ReportFormat.

Lemma flat_map_ext_Forall {A B} (f g : A -> list B) (l : list A) :
  Forall (fun x => f x = g x) l -> flat_map f l = flat_map g l.
Proof. induction 1 as [|x l Hx _ IH]; simpl; [reflexivity | rewrite Hx, IH; reflexivity]. Qed.

Lemma flat_map_map {A B C} (f : B -> list C) (g : A -> B) (l : list A) :
  flat_map f (map g l) = flat_map (fun x => f (g x)) l.
Proof. induction l as [|x l IH]; simpl; [reflexivity | rewrite IH; reflexivity]. Qed.

Lemma forallb_ext {A} (f g : A -> bool) (l : list A) :
  (forall x, f x = g x) -> forallb f l = forallb g l.
Proof. intros H. induction l as [|x l IH]; simpl; [reflexivity | rewrite H, IH; reflexivity]. Qed.

(** *** The level walk *)

Lemma walk_texts n : texts (walk n) = texts n.
Proof.
  induction n as [i t a k IH | d | d] using node_induction; try reflexivity.
  simpl. rewrite flat_map_map. apply flat_map_ext_Forall. exact IH.
Qed.

Lemma walk_textContent n : textContent (walk n) = textContent n.
Proof. unfold textContent. rewrite walk_texts. reflexivity. Qed.

Lemma level_class_good text c : level_class text = Some c -> good_token c.
Proof.
  unfold level_class. intros H.
  repeat match type of H with
         | (if ?b then _ else _) = _ => destruct b
         end;
    try discriminate; injection H as <-; split; reflexivity.
Qed.

Lemma tint_twice tag text a : tint tag text (tint tag text a) = tint tag text a.
Proof.
  unfold tint. destruct (is_p_or_div tag); [| reflexivity].
  destruct (level_class text) as [c|] eqn:E; [| reflexivity].
  apply classList_add_twice. exact (level_class_good text c E).
Qed.

Lemma walk_twice n : walk (walk n) = walk n.
Proof.
  induction n as [i t a k IH | d | d] using node_induction; try reflexivity.
  change (walk (Element i t a k))
    with (Element i t (tint t (trim (textContent (Element i t a k))) a) (map walk k)).
  set (e := Element i t a k).
  change (walk (Element i t (tint t (trim (textContent e)) a) (map walk k)))
    with (Element i t
            (tint t (trim (textContent (Element i t (tint t (trim (textContent e)) a)
                                                 (map walk k))))
                  (tint t (trim (textContent e)) a))
            (map walk (map walk k))).
  assert (Ht : textContent (Element i t (tint t (trim (textContent e)) a) (map walk k))
               = textContent e) by (apply (walk_textContent e)).
  rewrite Ht, tint_twice. f_equal.
  rewrite map_map. apply map_ext_Forall. exact IH.
Qed.

Lemma walk_ids n : ids (walk n) = ids n.
Proof.
  induction n as [i t a k IH | d | d] using node_induction; try reflexivity.
  simpl. f_equal. rewrite flat_map_map. apply flat_map_ext_Forall. exact IH.
Qed.

Lemma walk_select tag n : select tag (walk n) = select tag n.
Proof.
  induction n as [i t a k IH | d | d] using node_induction; try reflexivity.
  simpl. f_equal. rewrite flat_map_map. apply flat_map_ext_Forall. exact IH.
Qed.

Lemma walk_find i n : find i (walk n) = walk <$> find i n.
Proof.
  induction n as [j t a k IH | d | d] using node_induction; try reflexivity.
  change (walk (Element j t a k))
    with (Element j t (tint t (trim (textContent (Element j t a k))) a) (map walk k)).
  simpl. destruct (i =? j)%nat; [reflexivity |].
  induction IH as [|c k Hc _ IHk]; simpl; [reflexivity |].
  rewrite Hc. destruct (find i c); simpl; [reflexivity | exact IHk].
Qed.

Lemma walk_find_in i k : find_in i (map walk k) = walk <$> find_in i k.
Proof.
  unfold find_in. induction k as [|c k IH]; simpl; [reflexivity |].
  rewrite walk_find. destruct (find i c); simpl; [reflexivity | exact IH].
Qed.

Lemma walk_section_heading k i :
  section_heading (map walk k) i = section_heading k i.
Proof.
  unfold section_heading. rewrite walk_find_in.
  destruct (find_in i k) as [e|]; simpl; [| reflexivity].
  rewrite walk_textContent. reflexivity.
Qed.

Lemma walk_no_section_heading k :
  no_section_heading (map walk k) = no_section_heading k.
Proof.
  unfold no_section_heading, querySelectorAll.
  rewrite flat_map_map.
  rewrite (flat_map_ext_Forall (fun x => select (str "h2") (walk x)) (select (str "h2")) k)
    by (apply Forall_forall; intros; apply walk_select).
  apply forallb_ext. intros i. rewrite walk_section_heading. reflexivity.
Qed.

(** *** Section wrapping *)

Lemma wrap_section_skip doc i :
  section_heading (fst doc) i = false -> wrap_section doc i = doc.
Proof.
  unfold section_heading, wrap_section. intros H.
  destruct (find_in i (fst doc)) as [e|]; [| reflexivity].
  destruct (wrapperClass _); [discriminate | reflexivity].
Qed.

Lemma wrap_sections_none body :
  no_section_heading body = true -> wrap_sections body = body.
Proof.
  unfold no_section_heading, wrap_sections. intros H.
  assert (G : forall l n, forallb (fun i => negb (section_heading body i)) l = true ->
                          fold_left wrap_section l (body, n) = (body, n)).
  { induction l as [|i l IH]; intros n Hl; [reflexivity |].
    simpl in Hl. apply andb_prop in Hl as [Hi Hl]. apply negb_true_iff in Hi.
    simpl. rewrite wrap_section_skip by exact Hi. apply IH. exact Hl. }
  rewrite G by exact H. reflexivity.
Qed.

Lemma toMove_perm after :
  Permutation (fst (toMove after) ++ snd (toMove after)) after.
Proof.
  induction after as [|n rest IH]; simpl; [constructor |].
  destruct (is_element n).
  - destruct (is_h2 n); [simpl; reflexivity |].
    destruct (toMove rest) as [moved stay]. simpl in *. constructor. exact IH.
  - destruct (toMove rest) as [moved stay]. simpl in *.
    rewrite <- Permutation_middle. constructor. exact IH.
Qed.

Lemma flat_map_perm {A B} (f : A -> list B) l l' :
  Permutation l l' -> Permutation (flat_map f l) (flat_map f l').
Proof.
  induction 1; simpl.
  - constructor.
  - apply Permutation_app_head. assumption.
  - rewrite !app_assoc. apply Permutation_app_tail. apply Permutation_app_comm.
  - etransitivity; eassumption.
Qed.








End EnhanceFacts.

Section AllowListFacts.

Import Dom ReportFormat DOMPurify.

#[local] Arguments one_of : simpl never.
#[local] Arguments keeps_attribute : simpl never.
#[local] Arguments str : simpl never.

Lemma forallb_flat_map {A B} (p : B -> bool) (f : A -> list B) (l : list A) :
  Forall (fun x => forallb p (f x) = true) l -> forallb p (flat_map f l) = true.
Proof.
  induction 1 as [|x l Hx _ IH]; simpl; [reflexivity |].
  rewrite forallb_app, Hx, IH. reflexivity.
Qed.

Lemma forallb_map_Forall {A} (p : A -> bool) (f : A -> A) (l : list A) :
  Forall (fun x => p x = true -> p (f x) = true) l ->
  forallb p l = true -> forallb p (map f l) = true.
Proof.
  induction 1 as [|x l Hx _ IH]; simpl; [reflexivity |].
  intros H. apply andb_prop in H as [H1 H2]. rewrite (Hx H1), (IH H2). reflexivity.
Qed.

Lemma forallb_filter_self {A} (p : A -> bool) (l : list A) :
  forallb p (List.filter p l) = true.
Proof.
  induction l as [|x l IH]; [reflexivity |].
  simpl. destruct (p x) eqn:E; [simpl; rewrite E; exact IH | exact IH].
Qed.

Lemma class_is_kept : keeps_attribute report_config (str "class") = true.
Proof. vm_compute. reflexivity. Qed.

(** The names that stay under the options of the sources. *)
Lemma keeps_attribute_report name :
  keeps_attribute report_config name = true
  <-> name = str "class" \/ DATA_ATTR name = true \/ ARIA_ATTR name = true.
Proof.
  unfold keeps_attribute, report_config, one_of. cbn [ALLOW_DATA_ATTR ALLOW_ARIA_ATTR ALLOWED_ATTR].
  rewrite !andb_true_l, !orb_true_iff, bool_decide_eq_true, list_elem_of_singleton.
  tauto.
Qed.

Lemma forallb_fst_Forall (p : jsstring -> bool) (a : list attr) :
  forallb (fun x => p (fst x)) a = true <-> Forall (fun n => p n = true) (map fst a).
Proof.
  induction a as [|x a IH]; cbn [forallb map].
  - split; [constructor | reflexivity].
  - rewrite andb_true_iff, Forall_cons, IH. reflexivity.
Qed.

Lemma markup_allowed_cons cfg n k :
  markup_allowed cfg (n :: k) <-> markup_allowed cfg [n] /\ markup_allowed cfg k.
Proof.
  unfold markup_allowed. cbn [flat_map]. rewrite !app_nil_r, !Forall_app.
  split.
  - intros (Ht & Ha & Hc). apply app_eq_nil in Hc. tauto.
  - intros ((Ht1 & Ha1 & Hc1) & Ht2 & Ha2 & Hc2). rewrite Hc1, Hc2. tauto.
Qed.

Lemma allowed_markup_list cfg k :
  Forall (fun n => allowed cfg n = true <-> markup_allowed cfg [n]) k ->
  forallb (allowed cfg) k = true <-> markup_allowed cfg k.
Proof.
  induction 1 as [|n k Hn _ IH].
  - split; [intros _; repeat split; constructor | reflexivity].
  - cbn [forallb]. rewrite andb_true_iff, markup_allowed_cons, Hn, IH. reflexivity.
Qed.

Lemma allowed_markup cfg n : allowed cfg n = true <-> markup_allowed cfg [n].
Proof.
  induction n as [i t a k IH | d | d] using node_induction.
  - cbn [allowed]. rewrite !andb_true_iff, (allowed_markup_list cfg k IH), forallb_fst_Forall.
    unfold markup_allowed. cbn [flat_map tag_names attribute_names comment_nodes].
    rewrite !app_nil_r, Forall_cons, Forall_app. tauto.
  - split; [intros _; repeat split; constructor | reflexivity].
  - split; [discriminate | intros (_ & _ & H); discriminate H].
Qed.

Lemma allowed_markup_all cfg k : forallb (allowed cfg) k = true <-> markup_allowed cfg k.
Proof.
  apply allowed_markup_list. apply Forall_forall. intros n _. apply allowed_markup.
Qed.

(** A document with nothing new over an allow-listed one is allow-listed. *)
Lemma nothing_new_allowed cfg parsed original :
  nothing_new parsed original ->
  forallb (allowed cfg) original = true ->
  forallb (allowed cfg) parsed = true.
Proof.
  intros (Ht & Ha & Hc) Ho. apply allowed_markup_all in Ho as (Ot & Oa & Oc).
  apply allowed_markup_all. repeat split.
  - rewrite Forall_forall in Ot |- *. intros t Hin. apply Ot, Ht, Hin.
  - rewrite Forall_forall in Oa |- *. intros a Hin. apply Oa, Ha, Hin.
  - rewrite Oc in Hc. destruct (flat_map comment_nodes parsed) as [|c r]; [reflexivity |].
    specialize (Hc c ltac:(left)). inversion Hc.
Qed.

(** What the sanitizer returns is allow-listed, whatever it is given. *)
Lemma purify_allowed cfg n : forallb (allowed cfg) (purify cfg n) = true.
Proof.
  induction n as [i t a k IH | d | d] using node_induction; try reflexivity.
  simpl. destruct (one_of (ALLOWED_TAGS cfg) t) eqn:Et.
  - simpl. rewrite Et, andb_true_r. simpl. apply andb_true_intro. split.
    + apply forallb_filter_self.
    + apply forallb_flat_map. exact IH.
  - destruct (one_of dropped_with_content t); [reflexivity |].
    apply forallb_flat_map. exact IH.
Qed.

Lemma toMove_allowed cfg rest :
  forallb (allowed cfg) rest = true ->
  forallb (allowed cfg) (fst (toMove rest)) = true
  /\ forallb (allowed cfg) (snd (toMove rest)) = true.
Proof.
  induction rest as [|n rest IH]; simpl; intros H; [split; reflexivity |].
  apply andb_prop in H as [Hn Hr]. specialize (IH Hr).
  destruct (is_element n).
  - destruct (is_h2 n); [simpl; rewrite Hn, Hr; split; reflexivity |].
    destruct (toMove rest) as [moved stay]. simpl in *. rewrite Hn. exact IH.
  - destruct (toMove rest) as [moved stay]. simpl in *. rewrite Hn. exact IH.
Qed.

Lemma wrap_siblings_allowed h w cls k :
  forallb (allowed report_config) k = true ->
  forallb (allowed report_config) (wrap_siblings h w cls k) = true.
Proof.
  induction k as [|n rest IH]; simpl; intros H; [reflexivity |].
  apply andb_prop in H as [Hn Hr]. destruct (has_id h n).
  - destruct (toMove_allowed report_config rest Hr) as [Hm Hs].
    destruct (toMove rest) as [moved stay]. simpl in *.
    rewrite ?class_is_kept, Hn, Hm, Hs. reflexivity.
  - simpl. rewrite Hn. apply IH. exact Hr.
Qed.

Lemma wrap_in_allowed h w cls n :
  allowed report_config n = true -> allowed report_config (wrap_in h w cls n) = true.
Proof.
  induction n as [i t a k IH | d | d] using node_induction; try (intros H; exact H).
  simpl. intros H. apply andb_prop in H as [H1 Hk]. rewrite H1. simpl.
  apply wrap_siblings_allowed. apply forallb_map_Forall; assumption.
Qed.

Lemma wrap_section_allowed doc i :
  forallb (allowed report_config) (fst doc) = true ->
  forallb (allowed report_config) (fst (wrap_section doc i)) = true.
Proof.
  intros H. unfold wrap_section. destruct (find_in i (fst doc)); [| exact H].
  destruct (wrapperClass _); [| exact H]. simpl. unfold wrap_at.
  apply wrap_siblings_allowed. apply forallb_map_Forall; [| exact H].
  apply Forall_forall. intros c _. apply wrap_in_allowed.
Qed.

Lemma wrap_sections_allowed body :
  forallb (allowed report_config) body = true ->
  forallb (allowed report_config) (wrap_sections body) = true.
Proof.
  intros H. unfold wrap_sections.
  assert (G : forall l doc, forallb (allowed report_config) (fst doc) = true ->
              forallb (allowed report_config) (fst (fold_left wrap_section l doc)) = true).
  { induction l as [|i l IH]; intros doc Hd; [exact Hd |].
    simpl. apply IH. apply wrap_section_allowed. exact Hd. }
  apply G. exact H.
Qed.

Lemma tint_allowed tag text a :
  forallb (fun x => keeps_attribute report_config (fst x)) a = true ->
  forallb (fun x => keeps_attribute report_config (fst x)) (tint tag text a) = true.
Proof.
  intros H. unfold tint. destruct (is_p_or_div tag); [| exact H].
  destruct (level_class text); [| exact H].
  apply (classList_add_names (keeps_attribute report_config)); [exact class_is_kept | exact H].
Qed.

Lemma walk_allowed n :
  allowed report_config n = true -> allowed report_config (walk n) = true.
Proof.
  induction n as [i t a k IH | d | d] using node_induction; try (intros H; exact H).
  change (walk (Element i t a k))
    with (Element i t (tint t (trim (textContent (Element i t a k))) a) (map walk k)).
  simpl. intros H. apply andb_prop in H as [H1 Hk]. apply andb_prop in H1 as [Ht Ha].
  rewrite Ht, (tint_allowed _ _ _ Ha). simpl.
  apply forallb_map_Forall; assumption.
Qed.

(** The two passes keep an allow-listed document allow-listed: the only
    element they create is a [div], the only attribute they write is
    [class]. *)
Lemma enhance_body_allowed body :
  forallb (allowed report_config) body = true ->
  forallb (allowed report_config) (enhance_body body) = true.
Proof.
  intros H. unfold enhance_body.
  apply forallb_map_Forall; [| apply wrap_sections_allowed; exact H].
  apply Forall_forall. intros c _. apply walk_allowed.
Qed.

End AllowListFacts.

Section WalkFacts.

Import Dom Regex ReportFormat.

Lemma walk_at_path p : forall k, at_path p (map walk k) = walk <$> at_path p k.
Proof.
  induction p as [|i p IH]; intros k; [reflexivity |].
  destruct p as [|j p].
  - simpl. apply list_lookup_fmap.
  - change (at_path (i :: j :: p) (map walk k))
      with (match map walk k !! i with
            | Some (Element _ _ _ k') => at_path (j :: p) k'
            | _ => None
            end).
    change (at_path (i :: j :: p) k)
      with (match k !! i with
            | Some (Element _ _ _ k') => at_path (j :: p) k'
            | _ => None
            end).
    rewrite list_lookup_fmap. destruct (k !! i) as [[i0 t a k' | d | d]|]; try reflexivity.
    simpl. apply IH.
Qed.

Lemma level_class_rule text :
  level_class text =
  if test true levelPattern text && (jslength text <? 800)
  then Some (if test true ABNORMAL_KEYWORDS text && negb (test true NORMAL_KEYWORDS text)
             then str "report-level-abnormal" else str "report-level-normal")
  else None.
Proof.
  unfold level_class.
  destruct (test true levelPattern text && (jslength text <? 800)); [| reflexivity].
  destruct (test true ABNORMAL_KEYWORDS text), (test true NORMAL_KEYWORDS text); reflexivity.
Qed.

End WalkFacts.

(** C2, the claim that fails: the sanitizer is called with [ALLOWED_TAGS]
    and [ALLOWED_ATTR] only, and with its other options at their defaults
    it lets [data-*] and [aria-*] attributes through.  The paragraph
    [<p data-x='1' aria-label='y' onclick='z()'>ok</p>] loses its [onclick]
    and keeps the two others, in the output of [markdownToHtmlAsync] and in
    the value committed by [saveEdit]: the output has attributes other than
    [class]. *)
Lemma data_attributes_pass_the_sanitizer :
  let input := str "<p data-x='1' aria-label='y' onclick='z()'>ok</p>" in
  let kept := [Dom.Element 0 (str "p") [(str "data-x", str "1"); (str "aria-label", str "y")]
                           [Dom.Text (str "ok")]] in
  let out := ReportFormat.markdownToHtmlAsync Browser.parse (fun s => s) input in
  out = Dom.innerHTML kept
  /\ Browser.parse out = kept
  /\ includes (str " data-x=") out = true
  /\ includes (str " aria-label=") out = true
  /\ includes (str "onclick") out = false
  /\ forallb (DOMPurify.attributes_among [str "class"]) (Browser.parse out) = false
  /\ snd (ReportViewer.saveEdit Browser.parse
            {| ReportViewer.displayHtml := []; ReportViewer.editedHtml := None;
               ReportViewer.viewMode := false; ReportViewer.editValue := input |}) = out.
Proof. vm_compute. repeat split. Qed.

(** C2 as amended.  For every input string, every HTML parser and every
    Markdown parser: (i) what the sanitizer returns inside
    [markdownToHtmlAsync] is the serialisation of a document in which every
    element is one of [h1 h2 h3 h4 p br strong em b i u ul ol li span div
    blockquote hr], every attribute is [class], a [data-*] or an [aria-*]
    attribute, and there is no comment; (ii) [enhanceReportHtml] turns a
    string that the parser reads as such a document into the serialisation
    of such a document (it creates only [div] elements and writes only
    [class]); (iii) so the output of [markdownToHtmlAsync] is the
    serialisation of such a document whenever the parser, reading the
    sanitizer's serialisation, makes up no tag, attribute name or comment
    that the document serialised does not have.  The value committed by
    [saveEdit] (kept as [editedHtml] and passed to [onReportChange]) is the
    sanitizer's serialisation of such a document; the attribute names that
    stay are [class], the names [data-] + one or more of
    [- \w . U+00B7..U+FFFF], and the names [aria-] + one or more of
    [- \w]; and [<script>alert(1)</script><p>ok</p>] becomes [<p>ok</p>]. *)
Theorem sanitized_output_allow_listed :
  forall (parse : jsstring -> list Dom.node) (marked : jsstring -> jsstring),
    (forall content : jsstring,
        let trimmed := trim content in
        let raw := if startsWith (str "<") trimmed then trimmed else marked trimmed in
        let clean := flat_map (DOMPurify.purify ReportFormat.report_config) (parse raw) in
        DOMPurify.sanitize parse raw ReportFormat.report_config = Dom.innerHTML clean
        /\ forallb (DOMPurify.allowed ReportFormat.report_config) clean = true
        /\ (Dom.nothing_new (parse (Dom.innerHTML clean)) clean ->
            exists doc,
              ReportFormat.markdownToHtmlAsync parse marked content = Dom.innerHTML doc
              /\ forallb (DOMPurify.allowed ReportFormat.report_config) doc = true))
    /\
    (forall html : jsstring,
        forallb (DOMPurify.allowed ReportFormat.report_config) (parse html) = true ->
        exists doc,
          ReportFormat.enhanceReportHtml parse html = Dom.innerHTML doc
          /\ forallb (DOMPurify.allowed ReportFormat.report_config) doc = true)
    /\
    (forall p : ReportViewer.panel,
        exists doc,
          snd (ReportViewer.saveEdit parse p) = Dom.innerHTML doc
          /\ ReportViewer.editedHtml (fst (ReportViewer.saveEdit parse p)) = Some (Dom.innerHTML doc)
          /\ ReportViewer.viewMode (fst (ReportViewer.saveEdit parse p)) = true
          /\ forallb (DOMPurify.allowed ReportFormat.report_config) doc = true)
    /\
    (forall name : jsstring,
        DOMPurify.keeps_attribute ReportFormat.report_config name = true
        <-> name = str "class" \/ DOMPurify.DATA_ATTR name = true
            \/ DOMPurify.ARIA_ATTR name = true)
    /\
    ReportFormat.markdownToHtmlAsync Browser.parse marked (str "<script>alert(1)</script><p>ok</p>")
    = str "<p>ok</p>".
Proof.
  intros parse marked.
  assert (Hclean : forall k,
             forallb (DOMPurify.allowed ReportFormat.report_config)
                     (flat_map (DOMPurify.purify ReportFormat.report_config) k) = true).
  { intros k. apply forallb_flat_map. apply Forall_forall. intros n _. apply purify_allowed. }
  assert (Henh : forall html,
             forallb (DOMPurify.allowed ReportFormat.report_config) (parse html) = true ->
             exists doc,
               ReportFormat.enhanceReportHtml parse html = Dom.innerHTML doc
               /\ forallb (DOMPurify.allowed ReportFormat.report_config) doc = true).
  { intros html Hs. unfold ReportFormat.enhanceReportHtml.
    destruct (ReportFormat.blank html); [exists []; split; reflexivity |].
    eexists. split; [reflexivity |]. apply enhance_body_allowed. exact Hs. }
  split; [| split; [exact Henh | split; [| split]]].
  - intros content trimmed raw clean.
    split; [reflexivity |]. split; [apply Hclean |].
    intros Hback. unfold ReportFormat.markdownToHtmlAsync.
    destruct (ReportFormat.blank content); [exists []; split; reflexivity |].
    fold trimmed. fold raw. apply Henh.
    unfold DOMPurify.sanitize. fold clean.
    apply (nothing_new_allowed _ _ clean Hback). apply Hclean.
  - intros p. eexists. split; [reflexivity |]. split; [reflexivity |].
    split; [reflexivity |]. apply Hclean.
  - apply keeps_attribute_report.
  - vm_compute. reflexivity.
Qed.

Lemma sanitized_output_allow_listed_witness :
  let content :=
    str "  <h2 id='f' onclick='x()'>Findings</h2><img src=x><p data-level='L4'>L4-L5: <a href='x'>disc</a> bulge</p>" in
  let cfg := ReportFormat.report_config in
  let clean := flat_map (DOMPurify.purify cfg) (Browser.parse (trim content)) in
  let html := str "<div class='note'><p>L4-L5: normal</p></div>" in
  Dom.nothing_new (Browser.parse (Dom.innerHTML clean)) clean
  /\ forallb (DOMPurify.allowed cfg) (Browser.parse html) = true
  /\ (exists doc,
        ReportFormat.markdownToHtmlAsync Browser.parse (fun s => s) content = Dom.innerHTML doc
        /\ forallb (DOMPurify.allowed cfg) doc = true)
  /\ (exists doc,
        ReportFormat.enhanceReportHtml Browser.parse html = Dom.innerHTML doc
        /\ forallb (DOMPurify.allowed cfg) doc = true).
Proof.
  intros content cfg clean html.
  assert (Hback : Dom.nothing_new (Browser.parse (Dom.innerHTML clean)) clean).
  { repeat split;
      apply (bool_decide_unpack _ (dec := list_subseteq_dec (A := list N) _ _));
      vm_compute; exact I. }
  assert (Hdoc : forallb (DOMPurify.allowed cfg) (Browser.parse html) = true)
    by (vm_compute; reflexivity).
  split; [exact Hback |]. split; [exact Hdoc |]. split.
  - exact (proj2 (proj2 (proj1 (sanitized_output_allow_listed Browser.parse (fun s => s))
                               content)) Hback).
  - exact (proj1 (proj2 (sanitized_output_allow_listed Browser.parse (fun s => s))) html Hdoc).
Defined.

(** C3, the claim that fails: annotating the annotation of
    [<h2>FINDINGS</h2>] puts a second section container inside the first. *)
Lemma second_pass_wraps_again :
  let card := fun k => Dom.Element 0 (str "div") [(str "class", str "report-section-findings")] k in
  let h2 := Dom.Element 0 (str "h2") [] [Dom.Text (str "FINDINGS")] in
  let once := ReportFormat.enhanceReportHtml Browser.parse (str "<h2>FINDINGS</h2>") in
  let twice := ReportFormat.enhanceReportHtml Browser.parse once in
  once = Dom.innerHTML [card [h2]]
  /\ twice = Dom.innerHTML [card [card [h2]]]
  /\ JS.eqb twice once = false.
Proof. vm_compute. repeat split. Qed.

(** C3 as amended: on every document, running the level-tinting pass again
    changes nothing (no class is added twice); for a document none of whose
    level-2 headings is a FINDINGS, IMPRESSION or CONCLUSION heading,
    annotating the annotated document gives the annotated document; and for
    a string [x] that parses to such a document, [annotate(annotate(x))] is
    [annotate(x)] when the parser reads [annotate(x)], which is not blank,
    back as the document it serialises.  (With such a heading the second
    invocation wraps it again, inside the container made by the first.) *)
Theorem annotate_twice :
  forall body : list Dom.node,
    map ReportFormat.walk (map ReportFormat.walk body) = map ReportFormat.walk body
    /\ (ReportFormat.no_section_heading body = true ->
        ReportFormat.enhance_body (ReportFormat.enhance_body body)
        = ReportFormat.enhance_body body)
    /\ (forall (parse : jsstring -> list Dom.node) (x : jsstring),
          let once := ReportFormat.enhanceReportHtml parse x in
          parse x = body ->
          ReportFormat.no_section_heading body = true ->
          parse once = ReportFormat.enhance_body body ->
          ReportFormat.blank once = false ->
          ReportFormat.enhanceReportHtml parse once = once).
Proof.
  intros body.
  assert (Hw : forall k, map ReportFormat.walk (map ReportFormat.walk k) = map ReportFormat.walk k).
  { intros k. rewrite map_map. apply map_ext. intros n. apply walk_twice. }
  assert (He : ReportFormat.no_section_heading body = true ->
               ReportFormat.enhance_body (ReportFormat.enhance_body body)
               = ReportFormat.enhance_body body).
  { intros Hn. unfold ReportFormat.enhance_body.
    rewrite (wrap_sections_none body Hn).
    rewrite wrap_sections_none by (rewrite walk_no_section_heading; exact Hn).
    apply Hw. }
  split; [apply Hw |]. split; [exact He |].
  intros parse x once Hx Hn Hback Hnb.
  unfold ReportFormat.enhanceReportHtml at 1. rewrite Hnb, Hback, (He Hn).
  unfold once, ReportFormat.enhanceReportHtml.
  destruct (ReportFormat.blank x) eqn:Eb; [| rewrite Hx; reflexivity].
  unfold once, ReportFormat.enhanceReportHtml in Hnb. rewrite Eb in Hnb.
  discriminate Hnb.
Qed.

Lemma annotate_twice_witness :
  let x := str "<h2>Technique</h2><p>L5-S1: disc space is normal</p>" in
  let body := Browser.parse x in
  let once := ReportFormat.enhanceReportHtml Browser.parse x in
  ReportFormat.no_section_heading body = true
  /\ Browser.parse once = ReportFormat.enhance_body body
  /\ ReportFormat.blank once = false
  /\ ReportFormat.enhance_body (ReportFormat.enhance_body body) = ReportFormat.enhance_body body
  /\ ReportFormat.enhanceReportHtml Browser.parse once = once.
Proof.
  intros x body once.
  assert (H : ReportFormat.no_section_heading body = true) by (vm_compute; reflexivity).
  assert (Hback : Browser.parse once = ReportFormat.enhance_body body)
    by (vm_compute; reflexivity).
  assert (Hnb : ReportFormat.blank once = false) by (vm_compute; reflexivity).
  destruct (annotate_twice body) as (_ & He & Hs).
  split; [exact H |]. split; [exact Hback |]. split; [exact Hnb |].
  split; [exact (He H) | exact (Hs Browser.parse x eq_refl H Hback Hnb)].
Defined.

(** C4, the claim that fails: the paragraph "L4-L5: moderate disc bulge
    causing mild central canal stenosis" matches the abnormal vocabulary
    (bulge, stenosis) and the normal one (mild), so it is tagged normal. *)
Lemma mild_bulge_is_tagged_normal :
  let text := str "L4-L5: moderate disc bulge causing mild central canal stenosis" in
  Regex.test true ReportFormat.ABNORMAL_KEYWORDS text = true
  /\ Regex.test true ReportFormat.NORMAL_KEYWORDS text = true
  /\ ReportFormat.walk (Dom.Element 0 (str "p") [] [Dom.Text text])
     = Dom.Element 0 (str "p") [(str "class", str "report-level-normal")] [Dom.Text text]
  /\ ReportFormat.enhanceReportHtml Browser.parse (str "<p>" ++ text ++ str "</p>")
     = Dom.innerHTML [Dom.Element 0 (str "p") [(str "class", str "report-level-normal")]
                                  [Dom.Text text]].
Proof. vm_compute. repeat split. Qed.

(** C4 as amended: for every element of a document, at any depth, the walk
    keeps its identity and tag and walks its children; when the element is a
    [p] or [div] whose trimmed text contains a level token and is shorter
    than 800 characters, its class set gains [report-level-abnormal] exactly
    when the abnormal vocabulary matches and the normal one does not, and
    gains [report-level-normal] otherwise; any other element, in particular
    one whose text has no level token, keeps its attributes.  The text
    "L4-L5: moderate disc bulge causing mild central canal stenosis" is
    tagged normal (it contains "mild"), "L5-S1: disc space is normal and
    unremarkable" is tagged normal. *)
Theorem level_tinting_classification :
  forall (body : list Dom.node) (path : list nat) i tag a kids,
    Dom.at_path path body = Some (Dom.Element i tag a kids) ->
    let text := trim (Dom.textContent (Dom.Element i tag a kids)) in
    let abnormal := Regex.test true ReportFormat.ABNORMAL_KEYWORDS text in
    let normal := Regex.test true ReportFormat.NORMAL_KEYWORDS text in
    let level := if abnormal && negb normal then str "report-level-abnormal"
                 else str "report-level-normal" in
    (exists a',
        Dom.at_path path (map ReportFormat.walk body)
        = Some (Dom.Element i tag a' (map ReportFormat.walk kids))
        /\ if ReportFormat.is_p_or_div tag
              && Regex.test true ReportFormat.levelPattern text
              && (jslength text <? 800)
           then a' = Dom.classList_add level a
                /\ Dom.class_tokens a' = Dom.add_token (Dom.class_tokens a) level
           else a' = a)
    /\ Dom.class_tokens
         (ReportFormat.tint (str "p")
            (str "L4-L5: moderate disc bulge causing mild central canal stenosis") [])
       = [str "report-level-normal"]
    /\ Dom.class_tokens
         (ReportFormat.tint (str "p") (str "L5-S1: disc space is normal and unremarkable") [])
       = [str "report-level-normal"].
Proof.
  intros body path i tag a kids Hp text abnormal normal level.
  split; [| split; vm_compute; reflexivity].
  exists (ReportFormat.tint tag text a). split.
  - rewrite walk_at_path, Hp. reflexivity.
  - unfold ReportFormat.tint. rewrite level_class_rule.
    fold abnormal. fold normal. fold level.
    destruct (ReportFormat.is_p_or_div tag); [| reflexivity]. simpl.
    destruct (Regex.test true ReportFormat.levelPattern text && (jslength text <? 800));
      [| reflexivity].
    split; [reflexivity |]. apply class_tokens_add.
    unfold level. destruct (abnormal && negb normal); split; reflexivity.
Qed.

Lemma level_tinting_classification_witness :
  let body := Browser.parse
                (str "<div><p>L3-L4: broad-based disc herniation</p><p>No level here: stenosis</p></div>") in
  let herniation := Dom.Element 1 (str "p") [] [Dom.Text (str "L3-L4: broad-based disc herniation")] in
  Dom.at_path [0; 0]%nat body = Some herniation
  /\ exists a',
       Dom.at_path [0; 0]%nat (map ReportFormat.walk body)
       = Some (Dom.Element 1 (str "p") a' [Dom.Text (str "L3-L4: broad-based disc herniation")])
       /\ Dom.class_tokens a' = [str "report-level-abnormal"].
Proof.
  intros body herniation.
  assert (H : Dom.at_path [0; 0]%nat body = Some herniation) by (vm_compute; reflexivity).
  split; [exact H |].
  destruct (proj1 (level_tinting_classification body [0; 0]%nat _ _ _ _ H)) as (a' & Ha & Hc).
  exists a'. split; [exact Ha |].
  change (a' = Dom.classList_add (str "report-level-abnormal") []
          /\ Dom.class_tokens a' = [str "report-level-abnormal"]) in Hc.
  exact (proj2 Hc).
Defined.




(* ================================================================== *)
(** * Properties of the matcher *)
(* ================================================================== *)

Section RegexFacts.

Import Regex.

Lemma star_loop_ext step1 step2 :
  (forall p s, step1 p s = step2 p s) ->
  forall n p s, star_loop step1 n p s = star_loop step2 n p s.
Proof.
  intros H. induction n as [|n IH]; intros p s; [reflexivity |].
  simpl. rewrite H. f_equal. apply flat_map_ext. intros q.
  destruct (length (snd q) <? length s)%nat; [apply IH | reflexivity].
Qed.

Lemma star_loop_char q :
  forall n prev s, (length s <= n)%nat -> star_loop (char_step q) n prev s = star_list q prev s.
Proof.
  induction n as [|n IH]; intros prev s Hn.
  - destruct s; [reflexivity | simpl in Hn; lia].
  - destruct s as [|x s']; [reflexivity |].
    simpl. destruct (q x); [| reflexivity].
    simpl. rewrite app_nil_r.
    replace (length s' <? S (length s'))%nat with true
      by (symmetry; apply Nat.ltb_lt; lia).
    rewrite IH by (simpl in Hn; lia). reflexivity.
Qed.

Lemma m_star_chr ci c prev s :
  m ci (Star (Chr c)) prev s = star_list (same ci c) prev s.
Proof.
  simpl. rewrite (star_loop_ext _ (char_step (same ci c))) by reflexivity.
  apply star_loop_char. lia.
Qed.

Lemma m_star_cls ci q prev s : m ci (Star (Cls q)) prev s = star_list q prev s.
Proof.
  simpl. rewrite (star_loop_ext _ (char_step q)) by reflexivity.
  apply star_loop_char. lia.
Qed.

Lemma star_list_head q : forall s prev, exists p, head (star_list q prev s) = Some (p, skip q s).
Proof.
  induction s as [|x s IH]; intros prev; simpl; [eexists; reflexivity |].
  destruct (q x); [| eexists; reflexivity].
  destruct (IH (Some x)) as [p Hp]. exists p.
  destruct (star_list q (Some x) s); [discriminate | exact Hp].
Qed.

Lemma m_lit p :
  forall prev s,
    m false (lit p) prev s =
    if startsWith p s
    then [(fold_left (fun _ c => Some c) p prev, drop (length p) s)]
    else [].
Proof.
  induction p as [|c p IH]; intros prev s; [reflexivity |].
  change (lit (c :: p)) with (Seq (Chr c) (lit p)).
  destruct s as [|x s']; [reflexivity |].
  simpl. destruct (c =? x)%N eqn:E; [| reflexivity].
  apply N.eqb_eq in E. subst x. simpl. rewrite app_nil_r. apply IH.
Qed.

(** Every match of the engine consumes a string of the expression. *)
Lemma star_loop_sound ci r :
  (forall prev s q, In q (m ci r prev s) -> exists w, s = w ++ snd q /\ matches ci r w) ->
  forall n prev s q,
    In q (star_loop (m ci r) n prev s) -> exists w, s = w ++ snd q /\ matches ci (Star r) w.
Proof.
  intros Hr. induction n as [|n IH]; intros prev s q Hq.
  - destruct Hq as [<-|[]]. exists []. split; [reflexivity | constructor].
  - simpl in Hq. apply in_app_or in Hq as [Hq | [<-|[]]];
      [| exists []; split; [reflexivity | constructor]].
    apply in_flat_map in Hq as (q1 & H1 & H2).
    destruct (length (snd q1) <? length s)%nat; [| destruct H2].
    destruct (Hr _ _ _ H1) as (w1 & -> & Hw1).
    destruct (IH _ _ _ H2) as (w2 & E2 & Hw2).
    exists (w1 ++ w2). rewrite <- app_assoc, <- E2.
    split; [reflexivity | constructor; assumption].
Qed.

Lemma m_sound ci r :
  forall prev s q, In q (m ci r prev s) -> exists w, s = w ++ snd q /\ matches ci r w.
Proof.
  induction r as [| c | p | r1 IH1 r2 IH2 | r1 IH1 r2 IH2 | r1 IH1 |]; intros prev s q Hq.
  - destruct Hq as [<-|[]]. exists []. split; [reflexivity | constructor].
  - simpl in Hq. destruct s as [|x s']; [destruct Hq |].
    destruct (same ci c x) eqn:E; [| destruct Hq]. destruct Hq as [<-|[]].
    exists [x]. split; [reflexivity | constructor; exact E].
  - simpl in Hq. destruct s as [|x s']; [destruct Hq |].
    destruct (p x) eqn:E; [| destruct Hq]. destruct Hq as [<-|[]].
    exists [x]. split; [reflexivity | constructor; exact E].
  - simpl in Hq. apply in_flat_map in Hq as (q1 & H1 & H2).
    destruct (IH1 _ _ _ H1) as (w1 & -> & Hw1).
    destruct (IH2 _ _ _ H2) as (w2 & E2 & Hw2).
    exists (w1 ++ w2). rewrite <- app_assoc, <- E2.
    split; [reflexivity | constructor; assumption].
  - simpl in Hq. apply in_app_or in Hq as [Hq|Hq].
    + destruct (IH1 _ _ _ Hq) as (w & -> & Hw). exists w.
      split; [reflexivity | apply matches_alt_l; exact Hw].
    + destruct (IH2 _ _ _ Hq) as (w & -> & Hw). exists w.
      split; [reflexivity | apply matches_alt_r; exact Hw].
  - simpl in Hq. apply (star_loop_sound ci r1 IH1 _ _ _ _ Hq).
  - simpl in Hq. destruct (xorb _ _); [| destruct Hq]. destruct Hq as [<-|[]].
    exists []. split; [reflexivity | constructor].
Qed.

Lemma first_match_sound ci r prev s q :
  first_match ci r prev s = Some q -> exists w, s = w ++ snd q /\ matches ci r w.
Proof.
  unfold first_match. intros H. apply (m_sound ci r prev s q).
  destruct (m ci r prev s); [discriminate |]. injection H as ->. left. reflexivity.
Qed.

(** *** Replacement *)

Lemma replace_loop_scan mt dm repl :
  (forall prev s, snd <$> mt prev s = dm s) ->
  forall fuel prev s, replace_loop fuel mt repl prev s = scan fuel dm repl s.
Proof.
  intros H. induction fuel as [|f IH]; intros prev s; [reflexivity |].
  simpl. rewrite <- (H prev s). destruct (mt prev s) as [[p' s']|]; simpl.
  - destruct (length s' <? length s)%nat; [rewrite IH; reflexivity |].
    destruct s; [reflexivity | rewrite IH; reflexivity].
  - destruct s; [reflexivity | rewrite IH; reflexivity].
Qed.

Lemma replace_loop_quiet mt repl :
  forall fuel prev s, quiet mt s -> replace_loop fuel mt repl prev s = s.
Proof.
  induction fuel as [|f IH]; intros prev s Hq; [reflexivity |].
  simpl. destruct s as [|c t]; destruct Hq as [H0 Ht]; rewrite H0; [reflexivity |].
  rewrite IH by exact Ht. reflexivity.
Qed.

Lemma scan_clean dm repl : forall fuel s, clean dm s -> scan fuel dm repl s = s.
Proof.
  induction fuel as [|f IH]; intros s Hc; [reflexivity |].
  simpl. destruct s as [|c t]; destruct Hc as [H0 Ht]; rewrite H0; [reflexivity |].
  rewrite IH by exact Ht. reflexivity.
Qed.

Lemma scan_rewrites dm repl :
  (forall s s', dm s = Some s' -> (length s' < length s)%nat) ->
  forall fuel s, (length s < fuel)%nat -> rewrites dm repl s (scan fuel dm repl s).
Proof.
  intros Hd. induction fuel as [|f IH]; intros s Hf; [lia |].
  simpl. destruct (dm s) as [s'|] eqn:E.
  - pose proof (Hd s s' E) as Hl.
    replace (length s' <? length s)%nat with true by (symmetry; apply Nat.ltb_lt; exact Hl).
    apply (rewrites_sub dm repl s s'); [exact E | apply IH; lia].
  - destruct s as [|c t]; [constructor |].
    apply rewrites_keep; [exact E | apply IH; simpl in Hf; lia].
Qed.

Lemma clean_suffix dm : forall b s, clean dm (b ++ s) -> clean dm s.
Proof.
  induction b as [|c b IH]; intros s H; [exact H |].
  apply IH. destruct H as [_ H]. exact H.
Qed.

(** The start of the output of a replacement. *)
Lemma rewrites_head_keep dm repl t o :
  rewrites dm repl t o -> dm t = None -> head o = head t.
Proof.
  intros H Hn. destruct H as [| c t o _ _ | s s' o Hs _]; [reflexivity | reflexivity |].
  congruence.
Qed.

Lemma rewrites_head_sub dm repl t o s' :
  rewrites dm repl t o -> dm t = Some s' -> dm [] = None ->
  exists o', o = repl ++ o' /\ rewrites dm repl s' o'.
Proof.
  intros H Hs H0. destruct H as [| c t o Hk _ | s s1 o Hs1 Ho].
  - congruence.
  - congruence.
  - rewrite Hs in Hs1. injection Hs1 as <-. exists o. split; [reflexivity | exact Ho].
Qed.

End RegexFacts.

(* ================================================================== *)
(** * What the expressions of [htmlToPlainText] match *)
(* ================================================================== *)

Section MatcherFacts.

Import Regex ReportFormat.

#[local] Arguments N.eqb : simpl never.

Lemma m_seq ci r1 r2 prev s :
  m ci (Seq r1 r2) prev s = flat_map (fun q => m ci r2 (fst q) (snd q)) (m ci r1 prev s).
Proof. reflexivity. Qed.

Lemma m_chr ci c prev s : m ci (Chr c) prev s = char_step (same ci c) prev s.
Proof. reflexivity. Qed.

Lemma m_cls ci q prev s : m ci (Cls q) prev s = char_step q prev s.
Proof. reflexivity. Qed.

Lemma m_star ci r prev s : m ci (Star r) prev s = star_loop (m ci r) (length s) prev s.
Proof. reflexivity. Qed.

Lemma char_step_cons q prev x s :
  char_step q prev (x :: s) = if q x then [(Some x, s)] else [].
Proof. reflexivity. Qed.

Lemma flat_map_one {B} (f : option N -> jsstring -> list B) a b :
  flat_map (fun q => f (fst q) (snd q)) [(a, b)] = f a b.
Proof. simpl. apply app_nil_r. Qed.

Lemma flat_map_eps (l : list pos) :
  flat_map (fun q => m false Eps (fst q) (snd q)) l = l.
Proof. induction l as [|[p s] l IH]; simpl; [reflexivity | f_equal; exact IH]. Qed.

Lemma gt_then_end prev s :
  m false (Seq (Chr c_gt) Eps) prev s
  = match s with
    | x :: s' => if (x =? c_gt)%N then [(Some c_gt, s')] else []
    | [] => []
    end.
Proof.
  rewrite m_seq, m_chr, flat_map_eps. destruct s as [|x s']; [reflexivity |].
  rewrite char_step_cons. unfold same. rewrite N.eqb_sym.
  destruct (x =? c_gt)%N eqn:E; [| reflexivity].
  apply N.eqb_eq in E. subst x. reflexivity.
Qed.

Lemma tag_tail :
  forall s prev,
    flat_map (fun q => m false (Seq (Chr c_gt) Eps) (fst q) (snd q))
             (star_list (fun c => negb (c =? c_gt)%N) prev s)
    = match after_gt s with
      | Some r => [(Some c_gt, r)]
      | None => []
      end.
Proof.
  induction s as [|x s IH]; intros prev; [reflexivity |].
  cbn [star_list after_gt]. destruct (x =? c_gt)%N eqn:E; cbn [negb].
  - rewrite flat_map_one, gt_then_end, E. reflexivity.
  - rewrite flat_map_app, IH, flat_map_one, gt_then_end, E. apply app_nil_r.
Qed.

Lemma agree_tag prev s : snd <$> first_match false re_tag prev s = dm_tag s.
Proof.
  unfold first_match, re_tag.
  change (cat [Chr (ch "<"); Plus (Cls (fun c => negb (c =? ch ">")%N)); Chr (ch ">")])
    with (Seq (Chr c_lt)
              (Seq (Seq (Cls (fun c => negb (c =? c_gt)%N))
                        (Star (Cls (fun c => negb (c =? c_gt)%N))))
                   (Seq (Chr c_gt) Eps))).
  rewrite m_seq, m_chr. destruct s as [|c s]; [reflexivity |].
  rewrite char_step_cons. unfold same, dm_tag.
  destruct (c_lt =? c)%N; [| destruct s; reflexivity].
  rewrite flat_map_one, m_seq, m_seq, m_cls.
  destruct s as [|x t]; [reflexivity |].
  rewrite char_step_cons. destruct (x =? c_gt)%N; [reflexivity |].
  cbn [negb andb]. rewrite flat_map_one, m_star_cls, tag_tail.
  destruct (after_gt t); reflexivity.
Qed.

Lemma agree_lit p prev s : snd <$> first_match false (lit p) prev s = dm_lit p s.
Proof.
  unfold first_match, dm_lit. rewrite m_lit. destruct (startsWith p s); reflexivity.
Qed.

Lemma agree_blanks prev s : snd <$> first_match false re_blanks prev s = dm_blanks s.
Proof.
  unfold first_match, re_blanks, Plus.
  change (fun c : N => (c =? 32)%N || (c =? 9)%N) with is_blank.
  rewrite m_seq, m_cls. destruct s as [|c t]; [reflexivity |].
  rewrite char_step_cons. unfold dm_blanks.
  destruct (is_blank c); [| reflexivity].
  rewrite flat_map_one, m_star_cls.
  destruct (star_list_head is_blank t (Some c)) as [p Hp]. rewrite Hp. reflexivity.
Qed.

Lemma agree_nl3 prev s : snd <$> first_match false re_nl3 prev s = dm_nl3 s.
Proof.
  unfold first_match, re_nl3.
  change (cat [Chr nl; Chr nl; Chr nl; Star (Chr nl)])
    with (Seq (Chr nl) (Seq (Chr nl) (Seq (Chr nl) (Seq (Star (Chr nl)) Eps)))).
  unfold dm_nl3.
  rewrite m_seq, m_chr. destruct s as [|a s]; [reflexivity |].
  rewrite char_step_cons. change (same false nl a) with (is_nl a).
  destruct (is_nl a); [| destruct s as [|? [|? ?]]; reflexivity].
  rewrite flat_map_one, m_seq, m_chr. destruct s as [|b s]; [reflexivity |].
  rewrite char_step_cons. change (same false nl b) with (is_nl b).
  destruct (is_nl b); [| destruct s; reflexivity].
  rewrite flat_map_one, m_seq, m_chr. destruct s as [|c t]; [reflexivity |].
  rewrite char_step_cons. change (same false nl c) with (is_nl c).
  destruct (is_nl c); [| reflexivity].
  rewrite flat_map_one, m_seq, flat_map_eps, m_star_chr.
  change (same false nl) with is_nl.
  destruct (star_list_head is_nl t (Some c)) as [p Hp]. rewrite Hp. reflexivity.
Qed.

End MatcherFacts.

(* ================================================================== *)
(** * Properties of [htmlToPlainText] *)
(* ================================================================== *)

Section ScanFacts.

Import Regex ReportFormat.

#[local] Arguments N.eqb : simpl never.

Lemma has_blocks_shrink dm P s s' :
  has_blocks dm P -> dm s = Some s' -> (length s' < length s)%nat.
Proof.
  intros Hb Hs. destruct (Hb s s' Hs) as (b & -> & Hne & _).
  rewrite length_app. destruct b; [congruence | simpl; lia].
Qed.

Lemma has_blocks_nil dm P : has_blocks dm P -> dm [] = None.
Proof.
  intros Hb. destruct (dm []) as [s'|] eqn:E; [| reflexivity].
  pose proof (has_blocks_shrink dm P [] s' Hb E) as H. simpl in H. lia.
Qed.

Lemma has_blocks_weaken dm (P Q : N -> bool) :
  (forall c, P c = true -> Q c = true) -> has_blocks dm P -> has_blocks dm Q.
Proof.
  intros HPQ Hb s s' Hs. destruct (Hb s s' Hs) as (b & E & Hne & Hp).
  exists b. split; [exact E |]. split; [exact Hne |].
  apply forallb_forall. intros c Hc. apply HPQ.
  apply (proj1 (forallb_forall P b) Hp c Hc).
Qed.

(** *** Blocks of the matchers *)

Lemma skip_split q s :
  exists b, s = b ++ skip q s /\ forallb q b = true
            /\ match skip q s with x :: _ => q x = false | [] => True end.
Proof.
  induction s as [|x s (b & E & Hb & Hh)]; simpl.
  - exists []. repeat split.
  - destruct (q x) eqn:Ex.
    + exists (x :: b). simpl. rewrite Ex, Hb. split; [f_equal; exact E | split; [reflexivity | exact Hh]].
    + exists []. split; [reflexivity | split; [reflexivity | exact Ex]].
Qed.

Lemma startsWith_split p : forall s, startsWith p s = true -> s = p ++ drop (length p) s.
Proof.
  induction p as [|a p IH]; intros s H; [reflexivity |].
  destruct s as [|b s]; [discriminate |]. simpl in H.
  apply andb_prop in H as [Hab Hs]. apply N.eqb_eq in Hab. subst b.
  simpl. f_equal. apply IH. exact Hs.
Qed.

Lemma startsWith_app p s : startsWith p (p ++ s) = true.
Proof. induction p as [|a p IH]; simpl; [reflexivity | rewrite N.eqb_refl; exact IH]. Qed.

Lemma dm_lit_blocks p (P : N -> bool) :
  p <> [] -> forallb P p = true -> has_blocks (dm_lit p) P.
Proof.
  intros Hne Hp s s' Hs. unfold dm_lit in Hs.
  destruct (startsWith p s) eqn:E; [| discriminate]. injection Hs as <-.
  exists p. split; [apply startsWith_split; exact E | split; assumption].
Qed.

Lemma dm_blanks_blocks : has_blocks dm_blanks is_blank.
Proof.
  intros s s' Hs. destruct s as [|c t]; [discriminate |]. simpl in Hs.
  destruct (is_blank c) eqn:Ec; [| discriminate]. injection Hs as <-.
  destruct (skip_split is_blank t) as (b & E & Hb & _).
  exists (c :: b). simpl. rewrite Ec, Hb.
  split; [f_equal; exact E | split; [discriminate | reflexivity]].
Qed.

Lemma dm_nl3_blocks : has_blocks dm_nl3 is_nl.
Proof.
  intros s s' Hs. destruct s as [|a [|b [|c t]]]; try discriminate. simpl in Hs.
  destruct (is_nl a) eqn:Ea; [| discriminate].
  destruct (is_nl b) eqn:Eb; [| discriminate].
  destruct (is_nl c) eqn:Ec; [| discriminate]. injection Hs as <-.
  destruct (skip_split is_nl t) as (r & E & Hr & _).
  exists (a :: b :: c :: r). simpl. rewrite Ea, Eb, Ec, Hr.
  split; [do 3 f_equal; exact E | split; [discriminate | reflexivity]].
Qed.

Lemma after_gt_split t r : after_gt t = Some r -> exists b, t = b ++ r /\ b <> [].
Proof.
  revert r. induction t as [|c t IH]; intros r H; [discriminate |].
  simpl in H. destruct (c =? c_gt)%N.
  - injection H as <-. exists [c]. split; [reflexivity | discriminate].
  - destruct (IH r H) as (b & -> & _). exists (c :: b). split; [reflexivity | discriminate].
Qed.

Lemma dm_tag_blocks : has_blocks dm_tag (fun _ => true).
Proof.
  intros s s' Hs. destruct s as [|c [|x t]]; try discriminate. simpl in Hs.
  destruct ((c_lt =? c)%N && negb (x =? c_gt)%N); [| discriminate].
  destruct (after_gt_split t s' Hs) as (b & -> & _).
  exists (c :: x :: b). split; [reflexivity | split; [discriminate |]].
  apply forallb_forall. reflexivity.
Qed.

(** *** Tags stay away *)

Lemma after_gt_none_iff t : after_gt t = None <-> forallb (fun c => negb (c =? c_gt)%N) t = true.
Proof.
  induction t as [|c t IH]; simpl; [split; reflexivity |].
  destruct (c =? c_gt)%N; simpl; [split; discriminate | exact IH].
Qed.

Lemma not_angle_gt c : not_angle c = true -> (c =? c_gt)%N = false.
Proof. unfold not_angle. intros H. apply andb_prop in H as [_ H]. apply negb_true_iff. exact H. Qed.

Lemma not_angle_lt c : not_angle c = true -> (c_lt =? c)%N = false.
Proof.
  unfold not_angle. intros H. apply andb_prop in H as [H _].
  rewrite N.eqb_sym. apply negb_true_iff. exact H.
Qed.

Lemma after_gt_app_none b s :
  forallb not_angle b = true -> after_gt s = None -> after_gt (b ++ s) = None.
Proof.
  induction b as [|c b IH]; simpl; intros Hb Hs; [exact Hs |].
  apply andb_prop in Hb as [Hc Hb]. rewrite (not_angle_gt c Hc). apply IH; assumption.
Qed.

Lemma after_gt_suffix b s : after_gt (b ++ s) = None -> after_gt s = None.
Proof.
  induction b as [|c b IH]; simpl; intros H; [exact H |].
  destruct (c =? c_gt)%N; [discriminate | apply IH; exact H].
Qed.

Lemma rewrites_after_gt dm repl s o :
  has_blocks dm not_angle -> forallb not_angle repl = true ->
  rewrites dm repl s o -> after_gt s = None -> after_gt o = None.
Proof.
  intros Hb Hr. induction 1 as [| c t o Hk _ IH | s s' o Hs _ IH]; intros Hn.
  - reflexivity.
  - simpl in *. destruct (c =? c_gt)%N; [discriminate | apply IH; exact Hn].
  - destruct (Hb s s' Hs) as (b & -> & _ & _).
    apply after_gt_app_none; [exact Hr |]. apply IH. apply (after_gt_suffix b). exact Hn.
Qed.

Lemma clean_tag_app b o :
  forallb not_angle b = true -> clean dm_tag o -> clean dm_tag (b ++ o).
Proof.
  induction b as [|c b IH]; simpl; intros Hb Ho; [exact Ho |].
  apply andb_prop in Hb as [Hc Hb]. split; [| apply IH; assumption].
  destruct (b ++ o); [reflexivity |]. rewrite (not_angle_lt c Hc). reflexivity.
Qed.

(** A replacement of blocks without angle brackets by a string without
    angle brackets cannot make a tag. *)
Lemma rewrites_clean_tag dm repl s o :
  has_blocks dm not_angle -> forallb not_angle repl = true ->
  rewrites dm repl s o -> clean dm_tag s -> clean dm_tag o.
Proof.
  intros Hb Hr. induction 1 as [| c t o Hk Ht IH | s s' o Hs _ IH]; intros Hc.
  - exact Hc.
  - destruct Hc as [Hc0 Hct]. specialize (IH Hct). split; [| exact IH].
    destruct o as [|x o']; [reflexivity |]. simpl.
    destruct (c_lt =? c)%N eqn:Ec; [| reflexivity]. simpl.
    destruct (x =? c_gt)%N eqn:Ex; [reflexivity |]. simpl.
    (* the input had no tag here: the next character was [>] or no [>] follows *)
    destruct t as [|y t']; [inversion Ht as [| |s0 s1 o0 Hs0 _]; subst;
                            rewrite (has_blocks_nil dm not_angle Hb) in Hs0; discriminate |].
    simpl in Hc0. rewrite Ec in Hc0. simpl in Hc0.
    destruct (y =? c_gt)%N eqn:Ey.
    + (* [y] is [>], it is kept, so [x] is [>] *)
      exfalso. destruct (dm (y :: t')) as [s1|] eqn:Ed.
      * destruct (Hb _ _ Ed) as (b & E & Hne & Hnb). destruct b as [|b0 b]; [congruence |].
        simpl in E, Hnb. injection E as <- _. apply andb_prop in Hnb as [Hy _].
        rewrite (not_angle_gt y Hy) in Ey. discriminate.
      * pose proof (rewrites_head_keep dm repl _ _ Ht Ed) as Hh. simpl in Hh.
        injection Hh as ->. congruence.
    + simpl in Hc0.
      assert (Hn : after_gt (y :: t') = None) by (simpl; rewrite Ey; exact Hc0).
      pose proof (rewrites_after_gt dm repl _ _ Hb Hr Ht Hn) as Ho.
      simpl in Ho. rewrite Ex in Ho. exact Ho.
  - destruct (Hb s s' Hs) as (b & -> & _ & _).
    apply clean_tag_app; [exact Hr |]. apply IH. apply (clean_suffix dm_tag b). exact Hc.
Qed.

(** *** Literals without white space stay away *)

Lemma dm_lit_none p s : dm_lit p s = None <-> startsWith p s = false.
Proof. unfold dm_lit. destruct (startsWith p s); split; congruence. Qed.

Lemma rewrites_prefix dm repl (G : N -> bool) :
  repl <> [] -> forallb G repl = true ->
  forall q s o,
    forallb (fun c => negb (G c)) q = true ->
    rewrites dm repl s o -> startsWith q o = true -> startsWith q s = true.
Proof.
  intros Hne Hr. induction q as [|a q IH]; intros s o Hq Hrw Ho; [reflexivity |].
  simpl in Hq. apply andb_prop in Hq as [Ha Hq]. apply negb_true_iff in Ha.
  destruct Hrw as [| c t o Hk Ht | s s' o Hs Ho'].
  - discriminate.
  - simpl in *. apply andb_prop in Ho as [Hac Ho]. rewrite Hac. simpl.
    apply (IH t o Hq Ht Ho).
  - destruct repl as [|r0 repl]; [congruence |]. simpl in Hr, Ho.
    apply andb_prop in Hr as [Hr0 _]. apply andb_prop in Ho as [Hac _].
    apply N.eqb_eq in Hac. subst r0. congruence.
Qed.

Lemma clean_lit_app (G : N -> bool) p b o :
  (match p with a :: _ => G a = false | [] => False end) ->
  forallb G b = true -> clean (dm_lit p) o -> clean (dm_lit p) (b ++ o).
Proof.
  intros Hp. induction b as [|c b IH]; simpl; intros Hb Ho; [exact Ho |].
  apply andb_prop in Hb as [Hc Hb]. split; [| apply IH; assumption].
  apply dm_lit_none. destruct p as [|a p]; [destruct Hp |]. simpl.
  destruct (a =? c)%N eqn:E; [| reflexivity]. apply N.eqb_eq in E. subst c. congruence.
Qed.

Lemma lit_head_outside (G : N -> bool) p :
  p <> [] -> forallb (fun c => negb (G c)) p = true ->
  match p with a :: _ => G a = false | [] => False end.
Proof.
  intros Hp Hq. destruct p as [|a p]; [congruence |]. simpl in Hq.
  apply andb_prop in Hq as [Ha _]. apply negb_true_iff. exact Ha.
Qed.

Lemma lit_kept dm repl (G : N -> bool) p c t o :
  repl <> [] -> forallb G repl = true ->
  forallb (fun c => negb (G c)) p = true ->
  rewrites dm repl t o -> dm_lit p (c :: t) = None -> dm_lit p (c :: o) = None.
Proof.
  intros Hne Hr Hq Ht Hc0. apply dm_lit_none. apply dm_lit_none in Hc0.
  destruct (startsWith p (c :: o)) eqn:E; [| reflexivity].
  destruct p as [|a p]; [discriminate |]. simpl in E, Hc0, Hq.
  apply andb_prop in E as [Hac Ho]. apply andb_prop in Hq as [_ Hq].
  rewrite Hac in Hc0. simpl in Hc0.
  rewrite (rewrites_prefix dm repl G Hne Hr p t o Hq Ht Ho) in Hc0. discriminate.
Qed.

(** A replacement of blocks of characters of a kind [G] by such characters
    cannot make a literal that has none of them. *)
Lemma rewrites_clean_lit dm repl (G : N -> bool) p s o :
  has_blocks dm G -> repl <> [] -> forallb G repl = true ->
  p <> [] -> forallb (fun c => negb (G c)) p = true ->
  rewrites dm repl s o -> clean (dm_lit p) s -> clean (dm_lit p) o.
Proof.
  intros Hb Hne Hr Hp Hq. pose proof (lit_head_outside G p Hp Hq) as Hhead.
  induction 1 as [| c t o Hk Ht IH | s s' o Hs _ IH]; intros Hc.
  - exact Hc.
  - destruct Hc as [Hc0 Hct]. split; [| apply IH; exact Hct].
    apply (lit_kept dm repl G p c t o Hne Hr Hq Ht Hc0).
  - destruct (Hb s s' Hs) as (b & -> & _ & _).
    apply (clean_lit_app G); [exact Hhead | exact Hr |].
    apply IH. apply (clean_suffix _ b). exact Hc.
Qed.

(** After a literal without the replacement's characters is replaced, it
    does not occur. *)
Lemma lit_clean (G : N -> bool) p repl s o :
  repl <> [] -> forallb G repl = true ->
  p <> [] -> forallb (fun c => negb (G c)) p = true ->
  rewrites (dm_lit p) repl s o -> clean (dm_lit p) o.
Proof.
  intros Hne Hr Hp Hq. pose proof (lit_head_outside G p Hp Hq) as Hhead.
  induction 1 as [| c t o Hk Ht IH | s s' o Hs _ IH].
  - split; [| exact I]. apply dm_lit_none. destruct p; [congruence | reflexivity].
  - split; [| exact IH]. apply (lit_kept (dm_lit p) repl G p c t o Hne Hr Hq Ht Hk).
  - rewrite <- (app_nil_r repl), <- app_assoc. simpl.
    apply (clean_lit_app G); [exact Hhead | exact Hr | exact IH].
Qed.

(** *** Single spacing *)

Lemma single_spaced_suffix b s : single_spaced (b ++ s) -> single_spaced s.
Proof.
  induction b as [|c b IH]; intros H; [exact H |].
  apply IH. destruct H as (_ & _ & H). exact H.
Qed.

Lemma single_spaced_nl_app b o :
  forallb is_nl b = true -> single_spaced o -> single_spaced (b ++ o).
Proof.
  induction b as [|c b IH]; simpl; intros Hb Ho; [exact Ho |].
  apply andb_prop in Hb as [Hc Hb]. unfold is_nl in Hc. apply N.eqb_eq in Hc. subst c.
  split; [discriminate |]. split; [discriminate | apply IH; assumption].
Qed.

Lemma head_not_blank_eq s o : head o = head s -> head_not_blank s -> head_not_blank o.
Proof. destruct s, o; simpl; intros H; try discriminate; [auto | injection H as ->; auto]. Qed.

Lemma rewrites_head_not_blank dm repl P s o :
  has_blocks dm P ->
  (match repl with r :: _ => is_blank r = false | [] => False end) ->
  rewrites dm repl s o -> head_not_blank s -> head_not_blank o.
Proof.
  intros Hb Hr Hrw Hs. destruct (dm s) as [s'|] eqn:E.
  - destruct (rewrites_head_sub dm repl s o s' Hrw E (has_blocks_nil dm P Hb)) as (o' & -> & _).
    destruct repl; [destruct Hr | exact Hr].
  - apply (head_not_blank_eq s o); [apply (rewrites_head_keep dm repl); assumption | exact Hs].
Qed.

(** Replacing blocks by newlines keeps a string single-spaced. *)
Lemma rewrites_single_spaced dm repl P s o :
  has_blocks dm P -> repl <> [] -> forallb is_nl repl = true ->
  rewrites dm repl s o -> single_spaced s -> single_spaced o.
Proof.
  intros Hb Hne Hr.
  assert (Hhead : match repl with r :: _ => is_blank r = false | [] => False end).
  { destruct repl as [|r repl]; [congruence |]. simpl in Hr. apply andb_prop in Hr as [Hr _].
    unfold is_nl in Hr. apply N.eqb_eq in Hr. subst r. reflexivity. }
  induction 1 as [| c t o Hk Ht IH | s s' o Hs _ IH]; intros Hc.
  - exact I.
  - destruct Hc as (H1 & H2 & H3). split; [exact H1 |]. split; [| apply IH; exact H3].
    intros Hsp. apply (rewrites_head_not_blank dm repl P t o Hb Hhead Ht). apply H2. exact Hsp.
  - destruct (Hb s s' Hs) as (b & -> & _ & _).
    apply single_spaced_nl_app; [exact Hr |]. apply IH.
    apply (single_spaced_suffix b). exact Hc.
Qed.

(** After [/[ \t]+/g -> ' '] a string is single-spaced. *)
Lemma blanks_single_spaced s o : rewrites dm_blanks [c_sp] s o -> single_spaced o.
Proof.
  induction 1 as [| c t o Hk Ht IH | s s' o Hs Ho IH].
  - exact I.
  - simpl in Hk. destruct (is_blank c) eqn:Ec; [discriminate |].
    split; [intros ->; discriminate |]. split; [intros ->; discriminate | exact IH].
  - simpl. split; [discriminate |]. split; [| exact IH]. intros _.
    destruct s as [|c t]; [discriminate |]. simpl in Hs.
    destruct (is_blank c); [| discriminate]. injection Hs as <-.
    destruct (skip_split is_blank t) as (_ & _ & _ & Hh).
    assert (Hd : dm_blanks (skip is_blank t) = None).
    { destruct (skip is_blank t) as [|x r]; [reflexivity | simpl; rewrite Hh; reflexivity]. }
    pose proof (rewrites_head_keep _ _ _ _ Ho Hd) as Hhd.
    apply (head_not_blank_eq (skip is_blank t) o Hhd). exact Hh.
Qed.

(** *** Newlines and the spaces around them *)

Lemma starts2 a b c o : startsWith [a; b] (c :: o) = true <-> a = c /\ head o = Some b.
Proof.
  simpl. destruct o as [|x o]; simpl.
  - rewrite andb_false_r. split; [discriminate | intros [_ H]; discriminate].
  - rewrite andb_true_r. split.
    + intros H. apply andb_prop in H as [H1 H2].
      apply N.eqb_eq in H1. apply N.eqb_eq in H2. subst. split; reflexivity.
    + intros [-> H]. injection H as ->. rewrite !N.eqb_refl. reflexivity.
Qed.

Lemma lit2_none a b c o : dm_lit [a; b] (c :: o) = None <-> ~ (a = c /\ head o = Some b).
Proof.
  rewrite dm_lit_none. rewrite <- starts2.
  destruct (startsWith [a; b] (c :: o)); split; congruence.
Qed.

Lemma dm_lit_some p s s' : dm_lit p s = Some s' -> s = p ++ s'.
Proof.
  unfold dm_lit. destruct (startsWith p s) eqn:E; [| discriminate].
  intros H. injection H as <-. apply startsWith_split. exact E.
Qed.

(** The first character of the output is the first character of the input,
    or the first character of the replacement. *)
Lemma rewrites_head dm repl P s o :
  has_blocks dm P -> rewrites dm repl s o ->
  head o = head s \/ (exists s', dm s = Some s' /\ exists o', o = repl ++ o').
Proof.
  intros Hb Hrw. destruct (dm s) as [s'|] eqn:E.
  - right. exists s'. split; [reflexivity |].
    destruct (rewrites_head_sub dm repl s o s' Hrw E (has_blocks_nil dm P Hb)) as (o' & -> & _).
    exists o'. reflexivity.
  - left. apply (rewrites_head_keep dm repl); assumption.
Qed.

(** After [/\n /g -> '\n'] on a single-spaced string no newline is
    followed by a space. *)
Lemma nl_sp_clean s o :
  rewrites (dm_lit [nl; c_sp]) [nl] s o -> single_spaced s -> clean (dm_lit [nl; c_sp]) o.
Proof.
  assert (Hb : has_blocks (dm_lit [nl; c_sp]) (fun _ => true))
    by (apply dm_lit_blocks; [discriminate | reflexivity]).
  induction 1 as [| c t o Hk Ht IH | s s' o Hs Ho IH]; intros Hss.
  - split; [reflexivity | exact I].
  - destruct Hss as (_ & _ & Hss). split; [| apply IH; exact Hss].
    apply lit2_none. intros [<- Hh]. apply lit2_none in Hk. apply Hk. split; [reflexivity |].
    destruct (rewrites_head _ _ _ _ _ Hb Ht) as [<- | (_ & _ & o' & ->)];
      [exact Hh | discriminate].
  - apply dm_lit_some in Hs. subst s. simpl in Hss |- *.
    destruct Hss as (_ & _ & _ & Hsp & Hss'). specialize (IH Hss').
    split; [| exact IH]. apply lit2_none. intros [_ Hh].
    destruct (rewrites_head _ _ _ _ _ Hb Ho) as [Hd | (_ & _ & o' & ->)];
      [| discriminate].
    rewrite Hh in Hd. specialize (Hsp eq_refl).
    destruct s' as [|x r]; [discriminate |]. injection Hd as <-. discriminate.
Qed.

Lemma clean_nl_sp_app r o :
  forallb is_nl r = true -> head o <> Some c_sp ->
  clean (dm_lit [nl; c_sp]) o -> clean (dm_lit [nl; c_sp]) (r ++ o).
Proof.
  induction r as [|c r IH]; simpl; intros Hr Hh Ho; [exact Ho |].
  apply andb_prop in Hr as [Hc Hr]. specialize (IH Hr Hh Ho).
  split; [| exact IH]. apply lit2_none. intros [_ H].
  destruct r as [|c' r]; simpl in H; [contradiction |].
  simpl in Hr. apply andb_prop in Hr as [Hc' _]. unfold is_nl in Hc'.
  apply N.eqb_eq in Hc'. subst c'. discriminate.
Qed.

(** Replacing blocks that end in a newline by newlines keeps newlines from
    being followed by a space. *)
Lemma rewrites_clean_nl_sp dm repl P s o :
  has_blocks dm P -> repl <> [] -> forallb is_nl repl = true ->
  (forall s s', dm s = Some s' -> exists b, s = b ++ nl :: s') ->
  rewrites dm repl s o -> clean (dm_lit [nl; c_sp]) s -> clean (dm_lit [nl; c_sp]) o.
Proof.
  intros Hb Hne Hr Hend.
  assert (Hrepl : forall o', head (repl ++ o') <> Some c_sp).
  { intros o'. destruct repl as [|r0 repl]; [congruence |]. simpl in *.
    apply andb_prop in Hr as [Hr _]. unfold is_nl in Hr. apply N.eqb_eq in Hr. subst r0.
    discriminate. }
  induction 1 as [| c t o Hk Ht IH | s s' o Hs Ho IH]; intros Hc.
  - exact Hc.
  - destruct Hc as [Hc0 Hct]. split; [| apply IH; exact Hct].
    apply lit2_none. intros [<- Hh]. apply lit2_none in Hc0. apply Hc0.
    split; [reflexivity |].
    destruct (rewrites_head _ _ _ _ _ Hb Ht) as [<- | (_ & _ & o' & ->)];
      [exact Hh | exfalso; exact (Hrepl o' Hh)].
  - destruct (Hend s s' Hs) as (b & ->).
    pose proof (clean_suffix _ b _ Hc) as [Hc0 Hc'].
    apply clean_nl_sp_app; [exact Hr | | apply IH; exact Hc'].
    intros Hh. apply lit2_none in Hc0. apply Hc0. split; [reflexivity |].
    destruct (rewrites_head _ _ _ _ _ Hb Ho) as [<- | (_ & _ & o' & ->)];
      [exact Hh | exfalso; exact (Hrepl o' Hh)].
Qed.

(** After [/ \n/g -> '\n'] on a single-spaced string no space is followed
    by a newline. *)
Lemma sp_nl_clean s o :
  rewrites (dm_lit [c_sp; nl]) [nl] s o -> single_spaced s -> clean (dm_lit [c_sp; nl]) o.
Proof.
  assert (Hb : has_blocks (dm_lit [c_sp; nl]) (fun _ => true))
    by (apply dm_lit_blocks; [discriminate | reflexivity]).
  induction 1 as [| c t o Hk Ht IH | s s' o Hs Ho IH]; intros Hss.
  - split; [reflexivity | exact I].
  - destruct Hss as (_ & Hsp & Hss). split; [| apply IH; exact Hss].
    apply lit2_none. intros [<- Hh]. specialize (Hsp eq_refl).
    destruct (rewrites_head _ _ _ _ _ Hb Ht) as [Hd | (s1 & Hs1 & _)].
    + apply lit2_none in Hk. apply Hk. split; [reflexivity |]. rewrite <- Hd. exact Hh.
    + unfold dm_lit in Hs1. destruct (startsWith [c_sp; nl] t) eqn:E; [| discriminate].
      destruct t as [|x t']; [discriminate |]. apply starts2 in E as [<- _].
      simpl in Hsp. discriminate.
  - apply dm_lit_some in Hs. subst s. simpl in Hss |- *.
    destruct Hss as (_ & _ & _ & _ & Hss'). specialize (IH Hss').
    split; [| exact IH]. apply lit2_none. intros [H _]. discriminate H.
Qed.

Lemma clean_sp_nl_app r o :
  forallb is_nl r = true ->
  clean (dm_lit [c_sp; nl]) o -> clean (dm_lit [c_sp; nl]) (r ++ o).
Proof.
  induction r as [|c r IH]; simpl; intros Hr Ho; [exact Ho |].
  apply andb_prop in Hr as [Hc Hr]. split; [| apply IH; assumption].
  unfold is_nl in Hc. apply N.eqb_eq in Hc. subst c.
  apply lit2_none. intros [H _]. discriminate H.
Qed.

(** Replacing blocks that start with a newline by newlines keeps spaces
    from being followed by a newline. *)
Lemma rewrites_clean_sp_nl dm repl P s o :
  has_blocks dm P -> repl <> [] -> forallb is_nl repl = true ->
  (forall s s', dm s = Some s' -> head s = Some nl) ->
  rewrites dm repl s o -> clean (dm_lit [c_sp; nl]) s -> clean (dm_lit [c_sp; nl]) o.
Proof.
  intros Hb Hne Hr Hstart.
  induction 1 as [| c t o Hk Ht IH | s s' o Hs Ho IH]; intros Hc.
  - exact Hc.
  - destruct Hc as [Hc0 Hct]. split; [| apply IH; exact Hct].
    apply lit2_none. intros [<- Hh]. apply lit2_none in Hc0. apply Hc0.
    split; [reflexivity |].
    destruct (rewrites_head _ _ _ _ _ Hb Ht) as [<- | (s1 & Hs1 & _)];
      [exact Hh | exact (Hstart _ _ Hs1)].
  - destruct (Hb s s' Hs) as (b & -> & _ & _).
    apply clean_sp_nl_app; [exact Hr |]. apply IH. apply (clean_suffix _ b). exact Hc.
Qed.

(** *** Runs of newlines *)

Lemma dm_nl3_some s s' :
  dm_nl3 s = Some s' ->
  exists t, s = nl :: nl :: nl :: t /\ s' = skip is_nl t /\ dm_nl3 s' = None
            /\ head s' <> Some nl.
Proof.
  intros Hs. destruct s as [|a [|b [|c t]]]; try discriminate. simpl in Hs.
  destruct (is_nl a) eqn:Ea; [| discriminate].
  destruct (is_nl b) eqn:Eb; [| discriminate].
  destruct (is_nl c) eqn:Ec; [| discriminate]. injection Hs as <-.
  unfold is_nl in Ea, Eb, Ec. apply N.eqb_eq in Ea, Eb, Ec. subst a b c.
  exists t. split; [reflexivity |]. split; [reflexivity |].
  destruct (skip_split is_nl t) as (_ & _ & _ & Hh).
  destruct (skip is_nl t) as [|x r]; [split; [reflexivity | discriminate] |].
  split; [destruct r as [|? [|? ?]]; simpl; try reflexivity; rewrite Hh; reflexivity |].
  simpl. intros H. injection H as ->. discriminate.
Qed.

Lemma dm_nl3_short a b o :
  head o <> Some nl -> dm_nl3 (a :: o) = None /\ dm_nl3 (a :: b :: o) = None.
Proof.
  intros Hh. destruct o as [|x o]; [split; reflexivity |].
  assert (Hx : is_nl x = false).
  { unfold is_nl. apply N.eqb_neq. intros <-. apply Hh. reflexivity. }
  split; simpl; [destruct o as [|y o] |]; try reflexivity;
    rewrite Hx, ?andb_false_r; reflexivity.
Qed.

Lemma nl3_ahead t o :
  rewrites dm_nl3 [nl; nl] t o ->
  forall c, dm_nl3 (c :: t) = None -> dm_nl3 (c :: o) = None.
Proof.
  intros Hrw c Hc. destruct (dm_nl3 t) as [s1|] eqn:Et.
  - destruct (dm_nl3_some t s1 Et) as (t' & -> & _ & _ & _).
    simpl in Hc. destruct (is_nl c) eqn:Ec; [discriminate |].
    destruct o as [|x [|y o]]; simpl; rewrite ?Ec; reflexivity.
  - destruct Hrw as [| x t' o1 _ Ht' | s s' o Hs _]; [reflexivity | | congruence].
    destruct (dm_nl3 t') as [s2|] eqn:Et'.
    + destruct (dm_nl3_some t' s2 Et') as (t'' & -> & _ & _ & _).
      simpl in Et. change (is_nl nl) with true in Et. rewrite !andb_true_r in Et.
      destruct (is_nl x) eqn:Ex; [discriminate |].
      destruct o1 as [|y o1]; simpl; [reflexivity |].
      rewrite Ex, ?andb_false_r. reflexivity.
    + pose proof (rewrites_head_keep _ _ _ _ Ht' Et') as Hh.
      destruct t' as [|y t'']; destruct o1 as [|y' o1]; try discriminate; [reflexivity |].
      injection Hh as ->. simpl in Hc |- *.
      destruct (is_nl c && is_nl x && is_nl y); [discriminate | reflexivity].
Qed.

(** After [/\n{3,}/g -> '\n\n'] no three newlines follow each other. *)
Lemma nl3_clean s o : rewrites dm_nl3 [nl; nl] s o -> clean dm_nl3 o.
Proof.
  induction 1 as [| c t o Hk Ht IH | s s' o Hs Ho IH].
  - split; [reflexivity | exact I].
  - split; [apply (nl3_ahead t o Ht c Hk) | exact IH].
  - destruct (dm_nl3_some s s' Hs) as (t & -> & _ & Hn & Hh).
    assert (Ho' : head o <> Some nl)
      by (rewrite (rewrites_head_keep _ _ _ _ Ho Hn); exact Hh).
    destruct (dm_nl3_short nl nl o Ho') as [H1 H2].
    split; [exact H2 |]. split; [exact H1 | exact IH].
Qed.

(** *** Trimming *)

Lemma trimStart_split s : exists w, s = w ++ trimStart s /\ forallb is_space w = true.
Proof.
  induction s as [|c s (w & E & Hw)]; simpl; [exists []; split; reflexivity |].
  destruct (is_space c) eqn:Ec.
  - exists (c :: w). simpl. rewrite Ec, Hw. split; [f_equal; exact E | reflexivity].
  - exists []. split; reflexivity.
Qed.

Lemma trimStart_head s : head_not_space (trimStart s).
Proof.
  induction s as [|c s IH]; simpl; [exact I |].
  destruct (is_space c) eqn:Ec; [exact IH | exact Ec].
Qed.

Lemma trimStart_fixed s : head_not_space s -> trimStart s = s.
Proof. destruct s as [|c s]; simpl; [reflexivity | intros ->; reflexivity]. Qed.

Lemma trimEnd_split s : exists w, s = trimEnd s ++ w.
Proof.
  unfold trimEnd. destruct (trimStart_split (rev s)) as (w & E & _).
  exists (rev w). rewrite <- rev_app_distr, <- E, rev_involutive. reflexivity.
Qed.

Lemma trimEnd_twice s : trimEnd (trimEnd s) = trimEnd s.
Proof.
  unfold trimEnd. rewrite rev_involutive.
  rewrite (trimStart_fixed _ (trimStart_head (rev s))). reflexivity.
Qed.

Lemma trim_twice s : trim (trim s) = trim s.
Proof.
  unfold trim. set (y := trimStart s).
  assert (Hy : head_not_space (trimEnd y)).
  { destruct (trimEnd_split y) as (w & E). pose proof (trimStart_head s) as Hh. fold y in Hh.
    destruct (trimEnd y) as [|x r]; [exact I |]. rewrite E in Hh. exact Hh. }
  rewrite (trimStart_fixed _ Hy). apply trimEnd_twice.
Qed.

Lemma trim_split s : exists w1 w2, s = w1 ++ trim s ++ w2.
Proof.
  unfold trim. destruct (trimStart_split s) as (w1 & E1 & _).
  destruct (trimEnd_split (trimStart s)) as (w2 & E2).
  exists w1, w2. rewrite <- E2. exact E1.
Qed.

(** [clean] and [single_spaced] hold of the parts of a string. *)
Lemma clean_prefix dm :
  (forall s1 s2, dm (s1 ++ s2) = None -> dm s1 = None) ->
  forall s1 s2, clean dm (s1 ++ s2) -> clean dm s1.
Proof.
  intros Hm. induction s1 as [|c s1 IH]; intros s2 H.
  - split; [apply (Hm [] s2); destruct s2; apply H | exact I].
  - destruct H as [H0 H]. split; [apply (Hm (c :: s1) s2); exact H0 | apply (IH s2); exact H].
Qed.

Lemma clean_middle dm w1 s w2 :
  (forall s1 s2, dm (s1 ++ s2) = None -> dm s1 = None) ->
  clean dm (w1 ++ s ++ w2) -> clean dm s.
Proof. intros Hm H. apply (clean_prefix dm Hm s w2). apply (clean_suffix dm w1). exact H. Qed.

Lemma after_gt_prefix t s2 : after_gt (t ++ s2) = None -> after_gt t = None.
Proof.
  induction t as [|c t IH]; simpl; intros H; [reflexivity |].
  destruct (c =? c_gt)%N; [discriminate | apply IH; exact H].
Qed.

Lemma dm_tag_mono s1 s2 : dm_tag (s1 ++ s2) = None -> dm_tag s1 = None.
Proof.
  destruct s1 as [|c [|x t]]; try reflexivity. simpl.
  destruct ((c_lt =? c)%N && negb (x =? c_gt)%N); [apply after_gt_prefix | reflexivity].
Qed.

Lemma startsWith_mono p : forall s1 s2, startsWith p s1 = true -> startsWith p (s1 ++ s2) = true.
Proof.
  induction p as [|a p IH]; intros s1 s2 H; [reflexivity |].
  destruct s1 as [|b s1]; [discriminate |]. simpl in *.
  apply andb_prop in H as [H1 H2]. rewrite H1. simpl. apply IH. exact H2.
Qed.

Lemma dm_lit_mono p s1 s2 : dm_lit p (s1 ++ s2) = None -> dm_lit p s1 = None.
Proof.
  rewrite !dm_lit_none. intros H. destruct (startsWith p s1) eqn:E; [| reflexivity].
  rewrite (startsWith_mono p s1 s2 E) in H. discriminate.
Qed.

Lemma dm_nl3_mono s1 s2 : dm_nl3 (s1 ++ s2) = None -> dm_nl3 s1 = None.
Proof.
  destruct s1 as [|a [|b [|c t]]]; try reflexivity. simpl.
  destruct (is_nl a && is_nl b && is_nl c); [discriminate | reflexivity].
Qed.

Lemma single_spaced_prefix s1 : forall s2, single_spaced (s1 ++ s2) -> single_spaced s1.
Proof.
  induction s1 as [|c s1 IH]; intros s2 H; [exact I |].
  destruct H as (H1 & H2 & H3). split; [exact H1 |]. split; [| apply (IH s2); exact H3].
  intros Hc. specialize (H2 Hc). destruct s1; [exact I | exact H2].
Qed.

(** *** Block ends are tags *)

Lemma same_lt x : same true c_lt x = true -> x = c_lt.
Proof.
  unfold same, upper1. intros H. apply N.eqb_eq in H.
  destruct (is_lower x) eqn:E; [| symmetry; exact H].
  unfold is_lower in E. apply andb_prop in E as [E1 E2].
  apply N.leb_le in E1, E2. change (is_lower c_lt) with false in H. cbv iota in H.
  unfold c_lt in *. lia.
Qed.

Lemma same_gt x : same true c_gt x = true -> x = c_gt.
Proof.
  unfold same, upper1. intros H. apply N.eqb_eq in H.
  destruct (is_lower x) eqn:E; [| symmetry; exact H].
  unfold is_lower in E. apply andb_prop in E as [E1 E2].
  apply N.leb_le in E1, E2. change (is_lower c_gt) with false in H. cbv iota in H.
  unfold c_gt in *. lia.
Qed.

Lemma same_not_gt c x :
  same true c x = true -> (upper1 c =? c_gt)%N = false -> (x =? c_gt)%N = false.
Proof.
  unfold same. intros H Hc. apply N.eqb_eq in H.
  destruct (x =? c_gt)%N eqn:E; [| reflexivity].
  apply N.eqb_eq in E. subst x. change (upper1 c_gt) with c_gt in H.
  rewrite H, N.eqb_refl in Hc. discriminate.
Qed.

Lemma after_gt_in w : In c_gt w -> after_gt w <> None.
Proof.
  induction w as [|c w IH]; simpl; [intros [] |].
  intros [->|H]; [rewrite N.eqb_refl; discriminate |].
  destruct (c =? c_gt)%N; [discriminate | apply IH; exact H].
Qed.

Ltac invert_matches :=
  repeat match goal with
         | H : matches _ (Seq _ _) _ |- _ => inversion H; subst; clear H
         | H : matches _ (Alt _ _) _ |- _ => inversion H; subst; clear H
         | H : matches _ (Chr _) _ |- _ => inversion H; subst; clear H
         | H : matches _ Eps _ |- _ => inversion H; subst; clear H
         end.

Ltac find_gt :=
  repeat first [ left; reflexivity | right | apply in_or_app; right ].

(** Whatever [re_block_end] matches is a tag for [re_tag]: it starts with
    [<], goes on with a character that is not [>], and has a [>] later. *)
Lemma block_end_shape w :
  matches true re_block_end w ->
  exists x w', w = c_lt :: x :: w' /\ (x =? c_gt)%N = false /\ In c_gt w'.
Proof.
  intros H. cbv in H. invert_matches;
    repeat match goal with
           | H : same true _ ?x = true |- _ => apply same_gt in H; subst x
           end;
    simpl;
    match goal with
    | |- exists x w', ?a :: ?b :: ?r = _ /\ _ =>
        exists b, r;
        assert (Ha : a = c_lt) by (apply same_lt; assumption);
        split; [rewrite Ha; reflexivity |];
        split; [eapply same_not_gt; [eassumption | reflexivity] | find_gt]
    end.
Qed.

Lemma block_end_quiet s : clean dm_tag s -> quiet (first_match true re_block_end) s.
Proof.
  assert (Hno : forall t, dm_tag t = None -> forall prev, first_match true re_block_end prev t = None).
  { intros t Ht prev. destruct (first_match true re_block_end prev t) as [q|] eqn:E;
      [exfalso | reflexivity].
    destruct (first_match_sound _ _ _ _ _ E) as (w & -> & Hw).
    destruct (block_end_shape w Hw) as (x & w' & -> & Hx & Hin).
    apply dm_tag_mono in Ht. simpl in Ht.
    change (c_lt =? c_lt)%N with true in Ht. rewrite Hx in Ht. simpl in Ht.
    exact (after_gt_in w' Hin Ht). }
  induction s as [|c s IH]; intros Hc.
  - split; [apply Hno; apply Hc | exact I].
  - destruct Hc as [H0 Hc]. split; [apply Hno; exact H0 | apply IH; exact Hc].
Qed.

(** *** The steps of [htmlToPlainText] *)

Lemma rewrites_no_gt dm P s o :
  has_blocks dm P -> rewrites dm [] s o -> after_gt s = None -> after_gt o = None.
Proof.
  intros Hb. induction 1 as [| c t o Hk _ IH | s s' o Hs _ IH]; intros Hn.
  - reflexivity.
  - simpl in *. destruct (c =? c_gt)%N; [discriminate | apply IH; exact Hn].
  - destruct (Hb s s' Hs) as (b & -> & _ & _). simpl.
    apply IH. apply (after_gt_suffix b). exact Hn.
Qed.

(** After [/<[^>]+>/g -> ''] there is no tag. *)
Lemma tag_clean s o : rewrites dm_tag [] s o -> clean dm_tag o.
Proof.
  induction 1 as [| c t o Hk Ht IH | s s' o Hs _ IH].
  - split; [reflexivity | exact I].
  - split; [| exact IH].
    destruct o as [|x o']; [reflexivity |]. simpl.
    destruct (c_lt =? c)%N eqn:Ec; [| reflexivity]. simpl.
    destruct (x =? c_gt)%N eqn:Ex; [reflexivity |]. simpl.
    destruct t as [|y t'];
      [inversion Ht as [| |s0 s1 o0 Hs0 _]; subst; discriminate |].
    simpl in Hk. rewrite Ec in Hk. simpl in Hk.
    destruct (y =? c_gt)%N eqn:Ey.
    + exfalso.
      assert (Hd : dm_tag (y :: t') = None).
      { apply N.eqb_eq in Ey. subst y. destruct t'; reflexivity. }
      pose proof (rewrites_head_keep _ _ _ _ Ht Hd) as Hh. simpl in Hh.
      injection Hh as ->. congruence.
    + simpl in Hk.
      assert (Hn : after_gt (y :: t') = None) by (simpl; rewrite Ey; exact Hk).
      pose proof (rewrites_no_gt _ _ _ _ dm_tag_blocks Ht Hn) as Ho.
      simpl in Ho. rewrite Ex in Ho. exact Ho.
  - exact IH.
Qed.

Lemma blanks_fixed : forall fuel s, single_spaced s -> scan fuel dm_blanks [c_sp] s = s.
Proof.
  induction fuel as [|f IH]; intros s Hs; [reflexivity |].
  destruct s as [|c t]; [reflexivity |]. destruct Hs as (Htab & Hsp & Ht).
  simpl. destruct (is_blank c) eqn:Ec; [| rewrite (IH t Ht); reflexivity].
  assert (Hc : c = c_sp).
  { unfold is_blank in Ec. apply orb_prop in Ec as [E|E]; apply N.eqb_eq in E;
      [exact E | contradiction]. }
  specialize (Hsp Hc).
  assert (Hk : skip is_blank t = t) by (destruct t; simpl; [| rewrite Hsp]; reflexivity).
  rewrite Hk. replace (length t <? S (length t))%nat with true
    by (symmetry; apply Nat.ltb_lt; lia).
  rewrite (IH t Ht), Hc. reflexivity.
Qed.

Lemma all_nl_last r : forallb is_nl r = true -> r <> [] -> exists b, r = b ++ [nl].
Proof.
  intros Hr Hne. destruct (exists_last Hne) as (b & x & ->). exists b.
  rewrite forallb_app in Hr. apply andb_prop in Hr as [_ Hx]. simpl in Hx.
  rewrite andb_true_r in Hx. unfold is_nl in Hx. apply N.eqb_eq in Hx. subst x. reflexivity.
Qed.

Lemma blocks_end_nl dm :
  has_blocks dm is_nl \/ (forall s s', dm s = Some s' -> s = [c_sp; nl] ++ s') ->
  forall s s', dm s = Some s' -> exists b, s = b ++ nl :: s'.
Proof.
  intros [Hb|Hl] s s' Hs.
  - destruct (Hb s s' Hs) as (r & -> & Hne & Hr).
    destruct (all_nl_last r Hr Hne) as (b & ->). exists b. rewrite <- app_assoc. reflexivity.
  - rewrite (Hl s s' Hs). exists [c_sp]. reflexivity.
Qed.

Lemma replace_scan r dm repl s :
  (forall prev s, snd <$> first_match false r prev s = dm s) ->
  replace false r repl s = scan_all dm repl s.
Proof. intros H. unfold replace, replace_with, scan_all. apply replace_loop_scan. exact H. Qed.

Lemma scan_all_rewrites dm P repl s :
  has_blocks dm P -> rewrites dm repl s (scan_all dm repl s).
Proof.
  intros Hb. apply scan_rewrites; [| lia].
  intros s0 s' H. apply (has_blocks_shrink dm P s0 s' Hb H).
Qed.

Lemma htmlToPlainText_steps html :
  htmlToPlainText html =
  trim (scan_all dm_nl3 [nl; nl]
         (scan_all (dm_lit [c_sp; nl]) [nl]
           (scan_all (dm_lit [nl; c_sp]) [nl]
             (scan_all dm_blanks [c_sp]
               (scan_all (dm_lit (str "&nbsp;")) [c_sp]
                 (scan_all dm_tag []
                   (replace true re_block_end [nl] html))))))).
Proof.
  unfold htmlToPlainText.
  rewrite (replace_scan re_tag dm_tag) by apply agree_tag.
  rewrite (replace_scan re_nbsp (dm_lit (str "&nbsp;"))) by apply agree_lit.
  rewrite (replace_scan re_blanks dm_blanks) by apply agree_blanks.
  rewrite (replace_scan re_nl_sp (dm_lit [nl; c_sp])) by apply agree_lit.
  rewrite (replace_scan re_sp_nl (dm_lit [c_sp; nl])) by apply agree_lit.
  rewrite (replace_scan re_nl3 dm_nl3) by apply agree_nl3.
  reflexivity.
Qed.

(** The result of [htmlToPlainText] is plain ... *)
Lemma htmlToPlainText_plain html : plain (htmlToPlainText html).
Proof.
  rewrite htmlToPlainText_steps.
  set (s1 := replace true re_block_end [nl] html).
  set (s2 := scan_all dm_tag [] s1).
  set (s3 := scan_all (dm_lit (str "&nbsp;")) [c_sp] s2).
  set (s4 := scan_all dm_blanks [c_sp] s3).
  set (s5 := scan_all (dm_lit [nl; c_sp]) [nl] s4).
  set (s6 := scan_all (dm_lit [c_sp; nl]) [nl] s5).
  set (s7 := scan_all dm_nl3 [nl; nl] s6).
  (* the matches of each step *)
  assert (B3 : forall P, forallb P (str "&nbsp;") = true -> has_blocks (dm_lit (str "&nbsp;")) P)
    by (intros P; apply dm_lit_blocks; discriminate).
  assert (B5 : forall P, forallb P [nl; c_sp] = true -> has_blocks (dm_lit [nl; c_sp]) P)
    by (intros P; apply dm_lit_blocks; discriminate).
  assert (B6 : forall P, forallb P [c_sp; nl] = true -> has_blocks (dm_lit [c_sp; nl]) P)
    by (intros P; apply dm_lit_blocks; discriminate).
  assert (B4 : forall P, (forall c, is_blank c = true -> P c = true) -> has_blocks dm_blanks P)
    by (intros P HP; apply (has_blocks_weaken _ is_blank P HP dm_blanks_blocks)).
  assert (B7 : forall P, (forall c, is_nl c = true -> P c = true) -> has_blocks dm_nl3 P)
    by (intros P HP; apply (has_blocks_weaken _ is_nl P HP dm_nl3_blocks)).
  assert (Gb : forall c, is_blank c = true -> is_gap c = true)
    by (intros c H; unfold is_gap; rewrite H; reflexivity).
  assert (Gn : forall c, is_nl c = true -> is_gap c = true)
    by (intros c H; unfold is_gap; rewrite H; apply orb_true_r).
  assert (Ab : forall c, is_blank c = true -> not_angle c = true).
  { intros c H. unfold is_blank in H.
    apply orb_prop in H as [H|H]; apply N.eqb_eq in H; subst c; reflexivity. }
  assert (An : forall c, is_nl c = true -> not_angle c = true).
  { intros c H. unfold is_nl in H. apply N.eqb_eq in H. subst c. reflexivity. }
  (* the steps as rewritings *)
  pose proof (scan_all_rewrites dm_tag _ [] s1 dm_tag_blocks) as R2. fold s2 in R2.
  pose proof (scan_all_rewrites _ _ [c_sp] s2 (B3 (fun _ => true) eq_refl)) as R3. fold s3 in R3.
  pose proof (scan_all_rewrites _ _ [c_sp] s3 dm_blanks_blocks) as R4. fold s4 in R4.
  pose proof (scan_all_rewrites _ _ [nl] s4 (B5 (fun _ => true) eq_refl)) as R5. fold s5 in R5.
  pose proof (scan_all_rewrites _ _ [nl] s5 (B6 (fun _ => true) eq_refl)) as R6. fold s6 in R6.
  pose proof (scan_all_rewrites _ _ [nl; nl] s6 dm_nl3_blocks) as R7. fold s7 in R7.
  (* tags *)
  assert (T2 : clean dm_tag s2) by (apply (tag_clean s1 s2 R2)).
  assert (T3 : clean dm_tag s3)
    by (apply (rewrites_clean_tag _ [c_sp] _ _ (B3 not_angle eq_refl) eq_refl R3 T2)).
  assert (T4 : clean dm_tag s4)
    by (apply (rewrites_clean_tag _ [c_sp] _ _ (B4 not_angle Ab) eq_refl R4 T3)).
  assert (T5 : clean dm_tag s5)
    by (apply (rewrites_clean_tag _ [nl] _ _ (B5 not_angle eq_refl) eq_refl R5 T4)).
  assert (T6 : clean dm_tag s6)
    by (apply (rewrites_clean_tag _ [nl] _ _ (B6 not_angle eq_refl) eq_refl R6 T5)).
  assert (T7 : clean dm_tag s7)
    by (apply (rewrites_clean_tag _ [nl; nl] _ _ (B7 not_angle An) eq_refl R7 T6)).
  (* the entity *)
  assert (N3 : clean (dm_lit (str "&nbsp;")) s3).
  { apply (lit_clean (fun c => c =? c_sp)%N _ [c_sp] s2 s3);
      [discriminate | reflexivity | discriminate | reflexivity | exact R3]. }
  assert (N4 : clean (dm_lit (str "&nbsp;")) s4).
  { apply (rewrites_clean_lit dm_blanks [c_sp] is_gap _ s3 s4 (B4 is_gap Gb));
      [discriminate | reflexivity | discriminate | reflexivity | exact R4 | exact N3]. }
  assert (N5 : clean (dm_lit (str "&nbsp;")) s5).
  { apply (rewrites_clean_lit _ [nl] is_gap _ s4 s5 (B5 is_gap eq_refl));
      [discriminate | reflexivity | discriminate | reflexivity | exact R5 | exact N4]. }
  assert (N6 : clean (dm_lit (str "&nbsp;")) s6).
  { apply (rewrites_clean_lit _ [nl] is_gap _ s5 s6 (B6 is_gap eq_refl));
      [discriminate | reflexivity | discriminate | reflexivity | exact R6 | exact N5]. }
  assert (N7 : clean (dm_lit (str "&nbsp;")) s7).
  { apply (rewrites_clean_lit _ [nl; nl] is_gap _ s6 s7 (B7 is_gap Gn));
      [discriminate | reflexivity | discriminate | reflexivity | exact R7 | exact N6]. }
  (* spacing *)
  assert (S4 : single_spaced s4) by (apply (blanks_single_spaced s3 s4 R4)).
  assert (S5 : single_spaced s5).
  { apply (rewrites_single_spaced _ [nl] _ s4 s5 (B5 (fun _ => true) eq_refl));
      [discriminate | reflexivity | exact R5 | exact S4]. }
  assert (S6 : single_spaced s6).
  { apply (rewrites_single_spaced _ [nl] _ s5 s6 (B6 (fun _ => true) eq_refl));
      [discriminate | reflexivity | exact R6 | exact S5]. }
  assert (S7 : single_spaced s7).
  { apply (rewrites_single_spaced _ [nl; nl] _ s6 s7 dm_nl3_blocks);
      [discriminate | reflexivity | exact R7 | exact S6]. }
  (* newline then space *)
  assert (L5 : clean (dm_lit [nl; c_sp]) s5) by (apply (nl_sp_clean s4 s5 R5 S4)).
  assert (L6 : clean (dm_lit [nl; c_sp]) s6).
  { apply (rewrites_clean_nl_sp _ [nl] _ s5 s6 (B6 (fun _ => true) eq_refl));
      [discriminate | reflexivity | | exact R6 | exact L5].
    apply blocks_end_nl. right. intros s s' H. apply (dm_lit_some _ _ _ H). }
  assert (L7 : clean (dm_lit [nl; c_sp]) s7).
  { apply (rewrites_clean_nl_sp _ [nl; nl] _ s6 s7 dm_nl3_blocks);
      [discriminate | reflexivity | | exact R7 | exact L6].
    apply blocks_end_nl. left. exact dm_nl3_blocks. }
  (* space then newline *)
  assert (M6 : clean (dm_lit [c_sp; nl]) s6) by (apply (sp_nl_clean s5 s6 R6 S5)).
  assert (M7 : clean (dm_lit [c_sp; nl]) s7).
  { apply (rewrites_clean_sp_nl _ [nl; nl] _ s6 s7 dm_nl3_blocks);
      [discriminate | reflexivity | | exact R7 | exact M6].
    intros s s' H. destruct (dm_nl3_some s s' H) as (t & -> & _). reflexivity. }
  (* three newlines *)
  assert (K7 : clean dm_nl3 s7) by (apply (nl3_clean s6 s7 R7)).
  (* trimming keeps all of it *)
  destruct (trim_split s7) as (w1 & w2 & E).
  rewrite E in T7, N7, S7, L7, M7, K7.
  repeat split.
  - apply (clean_middle dm_tag w1 _ w2 dm_tag_mono T7).
  - apply (clean_middle _ w1 _ w2 (dm_lit_mono _) N7).
  - apply (single_spaced_prefix _ w2). apply (single_spaced_suffix w1). exact S7.
  - apply (clean_middle _ w1 _ w2 (dm_lit_mono _) L7).
  - apply (clean_middle _ w1 _ w2 (dm_lit_mono _) M7).
  - apply (clean_middle _ w1 _ w2 dm_nl3_mono K7).
  - apply trim_twice.
Qed.

(** ... and [htmlToPlainText] leaves a plain string as it is. *)
Lemma plain_fixed s : plain s -> htmlToPlainText s = s.
Proof.
  intros (T & Nb & S & L & M & K & Tr).
  rewrite htmlToPlainText_steps.
  assert (E1 : replace true re_block_end [nl] s = s).
  { unfold replace, replace_with. apply replace_loop_quiet. apply block_end_quiet. exact T. }
  rewrite E1. unfold scan_all.
  rewrite (scan_clean dm_tag [] _ s T).
  rewrite (scan_clean _ [c_sp] _ s Nb).
  rewrite (blanks_fixed _ s S).
  rewrite (scan_clean _ [nl] _ s L).
  rewrite (scan_clean _ [nl] _ s M).
  rewrite (scan_clean _ [nl; nl] _ s K).
  exact Tr.
Qed.

End ScanFacts.

(** C9. Plain-text extraction stability: for every string [s],
    [htmlToPlainText (htmlToPlainText s) = htmlToPlainText s]. *)
Theorem htmlToPlainText_idempotent :
  forall s : jsstring,
    ReportFormat.htmlToPlainText (ReportFormat.htmlToPlainText s)
    = ReportFormat.htmlToPlainText s.
Proof. intros s. apply plain_fixed. apply htmlToPlainText_plain. Qed.

(* ================================================================== *)
(** * Further properties of the slice viewer *)
(* ================================================================== *)

Section NavigationFacts.

Import DICOMViewer.

Lemma goNext_mod n k : 1 <= n -> Nat.iter k (goNext n) 0 = Z.of_nat k mod n.
Proof.
  intros Hn. induction k as [|k IH].
  - simpl. rewrite Z.mod_0_l by lia. reflexivity.
  - rewrite Nat.iter_succ, IH. unfold goNext.
    pose proof (Z.mod_pos_bound (Z.of_nat k) n ltac:(lia)) as Hb.
    replace (Z.of_nat (S k)) with (Z.of_nat k + 1) by lia.
    rewrite Z.geb_leb. destruct (Z.leb_spec (n - 1) (Z.of_nat k mod n)) as [Hge|Hlt].
    + assert (He : Z.of_nat k mod n = n - 1) by lia.
      rewrite <- (Zplus_mod_idemp_l (Z.of_nat k) 1 n), He.
      replace (n - 1 + 1) with n by lia. rewrite Z_mod_same_full. reflexivity.
    + rewrite <- (Zplus_mod_idemp_l (Z.of_nat k) 1 n).
      rewrite (Z.mod_small (Z.of_nat k mod n + 1)) by lia. reflexivity.
Qed.

Lemma goPrev_goNext n i : 1 <= n -> 0 <= i < n -> goPrev n (goNext n i) = i.
Proof.
  intros Hn Hi. unfold goPrev, goNext. rewrite Z.geb_leb.
  destruct (Z.leb_spec (n - 1) i); [| destruct (Z.leb_spec (i + 1) 0); lia].
  simpl. lia.
Qed.

Lemma goNext_goPrev n i : 1 <= n -> 0 <= i < n -> goNext n (goPrev n i) = i.
Proof.
  intros Hn Hi. unfold goPrev, goNext.
  destruct (Z.leb_spec i 0); rewrite Z.geb_leb.
  - destruct (Z.leb_spec (n - 1) (n - 1)); lia.
  - destruct (Z.leb_spec (n - 1) (i - 1)); lia.
Qed.

Lemma clickPrev_index v :
  2 <= totalSlices v ->
  currentIndex (clickPrev v) = goPrev (totalSlices v) (currentIndex v)
  /\ imageIds (clickPrev v) = imageIds v.
Proof.
  intros Hn. unfold clickPrev. destruct (Z.leb_spec (totalSlices v) 1); [lia |].
  rewrite setCurrentIndex_index, setCurrentIndex_ids. split; reflexivity.
Qed.

Lemma clickNext_index v :
  2 <= totalSlices v ->
  currentIndex (clickNext v) = goNext (totalSlices v) (currentIndex v)
  /\ imageIds (clickNext v) = imageIds v.
Proof.
  intros Hn. unfold clickNext. destruct (Z.leb_spec (totalSlices v) 1); [lia |].
  rewrite setCurrentIndex_index, setCurrentIndex_ids. split; reflexivity.
Qed.

Lemma step_index_nonneg v e : 0 <= currentIndex v -> 0 <= currentIndex (step v e).
Proof.
  intros H0.
  assert (Hp : 2 <= totalSlices v -> 0 <= goPrev (totalSlices v) (currentIndex v)).
  { intros Hn. unfold goPrev. destruct (Z.leb_spec (currentIndex v) 0); lia. }
  assert (Hx : 0 <= goNext (totalSlices v) (currentIndex v)).
  { unfold goNext. rewrite Z.geb_leb.
    destruct (Z.leb_spec (totalSlices v - 1) (currentIndex v)); lia. }
  destruct e as [| |k ed|ids|b|k o]; simpl.
  - unfold clickPrev. destruct (Z.leb_spec (totalSlices v) 1); [exact H0 |].
    rewrite setCurrentIndex_index. apply Hp. lia.
  - unfold clickNext. destruct (Z.leb_spec (totalSlices v) 1); [exact H0 |].
    rewrite setCurrentIndex_index. exact Hx.
  - unfold handleKey. destruct (Z.leb_spec (totalSlices v) 1); [exact H0 |].
    destruct ed; [exact H0 |].
    destruct k; try exact H0; rewrite setCurrentIndex_index;
      first [exact Hx | apply Hp; lia].
  - rewrite load_effect_index. exact H0.
  - destruct (Bool.eqb b (enabled v)); [exact H0 |].
    rewrite load_effect_index. exact H0.
  - rewrite settle_index. exact H0.
Qed.

Lemma reachable_index_nonneg v : reachable v -> 0 <= currentIndex v.
Proof.
  induction 1 as [ids|v e _ IH]; [simpl; lia | apply step_index_nonneg; exact IH].
Qed.

End NavigationFacts.

Section StatusFacts.

Import DICOMViewer.







Lemma requests_within_alter ids f k (ls : list load) :
  (forall l, l_index (f l) = l_index l /\ l_imageId (f l) = l_imageId l) ->
  Forall (fun l => exists url, url_at ids (l_index l) = Some url
                               /\ l_imageId l = str "wadouri:" ++ url) ls ->
  Forall (fun l => exists url, url_at ids (l_index l) = Some url
                               /\ l_imageId l = str "wadouri:" ++ url) (alter f k ls).
Proof.
  intros Hf H. apply Forall_alter; [exact H |].
  intros l _ Hl. destruct (Hf l) as [-> ->]. exact Hl.
Qed.

Lemma load_effect_requests v :
  requests_within (imageIds v) v -> requests_within (imageIds v) (load_effect v).
Proof.
  intros H. unfold requests_within in *.
  assert (Hc : Forall (fun l => exists url, url_at (imageIds v) (l_index l) = Some url
                               /\ l_imageId l = str "wadouri:" ++ url) (cleanup v)).
  { unfold cleanup. destruct (effect v); [| exact H].
    apply requests_within_alter; [intros l; split; reflexivity | exact H]. }
  unfold load_effect.
  destruct ((totalSlices v =? 0) || negb (enabled v)); [exact Hc |].
  destruct (url_at (imageIds v) (currentIndex v)) as [url|] eqn:U; [| exact Hc].
  simpl. apply Forall_app. split; [exact Hc |].
  constructor; [| constructor]. exists url. split; [exact U | reflexivity].
Qed.

Lemma step_requests v e :
  keeps_sequence e = true ->
  requests_within (imageIds v) v -> requests_within (imageIds v) (step v e).
Proof.
  intros Hk H.
  assert (Hset : forall f, requests_within (imageIds v) (setCurrentIndex f v)).
  { intros f. unfold setCurrentIndex.
    destruct (f (currentIndex v) =? currentIndex v); [exact H |].
    apply (load_effect_requests
             {| imageIds := imageIds v; currentIndex := f (currentIndex v);
                loading := loading v; error := error v; enabled := enabled v;
                surface := surface v; loads := loads v; effect := effect v |}).
    exact H. }
  destruct e as [| |k ed|ids|b|k o]; simpl; try discriminate Hk.
  - unfold clickPrev. destruct (totalSlices v <=? 1); [exact H | apply Hset].
  - unfold clickNext. destruct (totalSlices v <=? 1); [exact H | apply Hset].
  - unfold handleKey. destruct (totalSlices v <=? 1); [exact H |].
    destruct ed; [exact H |]. destruct k; try exact H; apply Hset.
  - destruct (Bool.eqb b (enabled v)); [exact H |].
    apply (load_effect_requests
             {| imageIds := imageIds v; currentIndex := currentIndex v;
                loading := loading v; error := error v; enabled := b;
                surface := surface v; loads := loads v; effect := effect v |}).
    exact H.
  - unfold settle. destruct (loads v !! k) as [l|]; [| exact H].
    destruct (l_settled l); [exact H |].
    assert (Ha : requests_within (imageIds v)
                   {| imageIds := imageIds v; currentIndex := currentIndex v;
                      loading := loading v; error := error v; enabled := enabled v;
                      surface := surface v; loads := alter settled k (loads v);
                      effect := effect v |}).
    { unfold requests_within. simpl.
      apply requests_within_alter; [intros l0; split; reflexivity | exact H]. }
    destruct (l_cancelled l); [exact Ha |].
    destruct o as [[|m|m]|m]; exact Ha.
Qed.

Lemma run_requests ids es :
  forallb keeps_sequence es = true ->
  requests_within ids (run (mount ids) es).
Proof.
  induction es as [|e es IH] using rev_ind; intros Hes.
  - constructor.
  - rewrite forallb_app in Hes. apply andb_true_iff in Hes as [Hes He].
    simpl in He. rewrite andb_true_r in He.
    rewrite run_snoc.
    pose proof (proj1 (run_fixed_sequence ids es Hes)) as Hids.
    specialize (IH Hes).
    pose proof (step_requests (run (mount ids) es) e He) as Hs.
    rewrite Hids in Hs. apply Hs. exact IH.
Qed.

End StatusFacts.

Section CounterFacts.
Import DICOMViewer.

Lemma goPrev_mod n k : 1 <= n -> Nat.iter k (goPrev n) 0 = (- Z.of_nat k) mod n.
Proof.
  intros Hn. induction k as [|k IH].
  - simpl. rewrite Z.mod_0_l by lia. reflexivity.
  - rewrite Nat.iter_succ, IH. unfold goPrev.
    pose proof (Z.mod_pos_bound (- Z.of_nat k) n ltac:(lia)) as Hb.
    replace (- Z.of_nat (S k)) with (- Z.of_nat k - 1) by lia.
    rewrite <- (Zminus_mod_idemp_l (- Z.of_nat k) 1 n).
    destruct (Z.leb_spec ((- Z.of_nat k) mod n) 0) as [Hle|Hgt].
    + assert (He : (- Z.of_nat k) mod n = 0) by lia. rewrite He.
      replace (0 - 1) with (n - 1 + (-1) * n) by lia.
      rewrite Z.mod_add by lia. rewrite Z.mod_small by lia. reflexivity.
    + rewrite (Z.mod_small ((- Z.of_nat k) mod n - 1)) by lia. reflexivity.
Qed.

Lemma clickPrev_iter v k :
  2 <= totalSlices v ->
  currentIndex (Nat.iter k clickPrev v)
  = Nat.iter k (goPrev (totalSlices v)) (currentIndex v)
  /\ imageIds (Nat.iter k clickPrev v) = imageIds v.
Proof.
  intros Hn. induction k as [|k [IH1 IH2]]; [split; reflexivity |].
  rewrite !Nat.iter_succ.
  assert (Ht : totalSlices (Nat.iter k clickPrev v) = totalSlices v)
    by (unfold totalSlices; rewrite IH2; reflexivity).
  destruct (clickPrev_index (Nat.iter k clickPrev v)) as [H1 H2]; [lia |].
  rewrite H1, H2, Ht, IH1, IH2. split; reflexivity.
Qed.

End CounterFacts.

(** X1. Next and Previous undo each other: in a viewer with at least two
    slices whose current index is an index of the sequence, pressing Next
    and then Previous, or Previous and then Next, shows the slice that was
    shown before; the updaters [goNext] and [goPrev] are inverse to each
    other on the indices of a sequence of any positive length. *)
Theorem next_and_previous_are_inverse :
  forall v : DICOMViewer.viewer,
    2 <= DICOMViewer.totalSlices v ->
    0 <= DICOMViewer.currentIndex v < DICOMViewer.totalSlices v ->
    DICOMViewer.currentIndex (DICOMViewer.clickPrev (DICOMViewer.clickNext v))
    = DICOMViewer.currentIndex v
    /\ DICOMViewer.currentIndex (DICOMViewer.clickNext (DICOMViewer.clickPrev v))
       = DICOMViewer.currentIndex v
    /\ (forall n i, 1 <= n -> 0 <= i < n ->
          DICOMViewer.goPrev n (DICOMViewer.goNext n i) = i
          /\ DICOMViewer.goNext n (DICOMViewer.goPrev n i) = i).
Proof.
  intros v Hn Hi.
  destruct (clickNext_index v Hn) as [Hx Hxi].
  destruct (clickPrev_index v Hn) as [Hp Hpi].
  assert (Htx : DICOMViewer.totalSlices (DICOMViewer.clickNext v) = DICOMViewer.totalSlices v)
    by (unfold DICOMViewer.totalSlices; rewrite Hxi; reflexivity).
  assert (Htp : DICOMViewer.totalSlices (DICOMViewer.clickPrev v) = DICOMViewer.totalSlices v)
    by (unfold DICOMViewer.totalSlices; rewrite Hpi; reflexivity).
  split; [| split].
  - rewrite (proj1 (clickPrev_index (DICOMViewer.clickNext v) ltac:(rewrite Htx; exact Hn))), Htx, Hx.
    apply goPrev_goNext; lia.
  - rewrite (proj1 (clickNext_index (DICOMViewer.clickPrev v) ltac:(rewrite Htp; exact Hn))), Htp, Hp.
    apply goNext_goPrev; lia.
  - intros n i H1 H2. split; [apply goPrev_goNext | apply goNext_goPrev]; assumption.
Qed.

Lemma next_and_previous_are_inverse_witness :
  let v := DICOMViewer.clickNext (DICOMViewer.mount [str "a"; str "b"; str "c"]) in
  2 <= DICOMViewer.totalSlices v
  /\ 0 <= DICOMViewer.currentIndex v < DICOMViewer.totalSlices v
  /\ DICOMViewer.currentIndex (DICOMViewer.clickPrev (DICOMViewer.clickNext v))
     = DICOMViewer.currentIndex v.
Proof.
  intros v.
  assert (Hn : 2 <= DICOMViewer.totalSlices v) by (vm_compute; discriminate).
  assert (Hi : 0 <= DICOMViewer.currentIndex v < DICOMViewer.totalSlices v)
    by (vm_compute; split; [discriminate | reflexivity]).
  split; [exact Hn |]. split; [exact Hi |].
  exact (proj1 (next_and_previous_are_inverse v Hn Hi)).
Defined.

(** X2. The slice counter counts modulo the number of slices: in a newly
    mounted viewer with N >= 2 slices, after k presses of Next the current
    index is k mod N, and after k presses of Previous it is (-k) mod N. *)
Theorem presses_count_modulo :
  forall (ids : list jsstring) (k : nat),
    let n := Z.of_nat (length ids) in
    2 <= n ->
    DICOMViewer.currentIndex (Nat.iter k DICOMViewer.clickNext (DICOMViewer.mount ids))
    = Z.of_nat k mod n
    /\ DICOMViewer.currentIndex (Nat.iter k DICOMViewer.clickPrev (DICOMViewer.mount ids))
       = (- Z.of_nat k) mod n.
Proof.
  intros ids k n Hn.
  assert (Ht : DICOMViewer.totalSlices (DICOMViewer.mount ids) = n) by reflexivity.
  split.
  - rewrite (proj1 (clickNext_iter (DICOMViewer.mount ids) k ltac:(lia))), Ht.
    apply goNext_mod. lia.
  - rewrite (proj1 (clickPrev_iter (DICOMViewer.mount ids) k ltac:(lia))), Ht.
    apply goPrev_mod. lia.
Qed.

Lemma presses_count_modulo_witness :
  let ids := [str "a"; str "b"; str "c"] in
  2 <= Z.of_nat (length ids)
  /\ DICOMViewer.currentIndex (Nat.iter 7 DICOMViewer.clickNext (DICOMViewer.mount ids)) = 1
  /\ DICOMViewer.currentIndex (Nat.iter 7 DICOMViewer.clickPrev (DICOMViewer.mount ids)) = 2.
Proof.
  intros ids.
  assert (Hn : 2 <= Z.of_nat (length ids)) by (vm_compute; discriminate).
  split; [exact Hn |]. exact (presses_count_modulo ids 7 Hn).
Defined.

(** X3. The current index is never negative, whatever sequences the viewer
    is given; and when the sequence has at least two slices one press of
    Next gives an index of the sequence, also from an index that a shorter
    new sequence has left out of range (Previous only steps down by one from
    there). *)
Theorem index_never_negative :
  forall v : DICOMViewer.viewer,
    DICOMViewer.reachable v ->
    0 <= DICOMViewer.currentIndex v
    /\ (2 <= DICOMViewer.totalSlices v ->
        0 <= DICOMViewer.currentIndex (DICOMViewer.clickNext v) < DICOMViewer.totalSlices v
        /\ (DICOMViewer.totalSlices v <= DICOMViewer.currentIndex v ->
            DICOMViewer.currentIndex (DICOMViewer.clickNext v) = 0
            /\ DICOMViewer.currentIndex (DICOMViewer.clickPrev v)
               = DICOMViewer.currentIndex v - 1)).
Proof.
  intros v Hr. pose proof (reachable_index_nonneg v Hr) as H0.
  split; [exact H0 |]. intros Hn.
  rewrite (proj1 (clickNext_index v Hn)), (proj1 (clickPrev_index v Hn)).
  unfold DICOMViewer.goNext, DICOMViewer.goPrev. rewrite Z.geb_leb.
  destruct (Z.leb_spec (DICOMViewer.totalSlices v - 1) (DICOMViewer.currentIndex v));
    destruct (Z.leb_spec (DICOMViewer.currentIndex v) 0); lia.
Qed.

Lemma index_never_negative_witness :
  let v := DICOMViewer.run (DICOMViewer.mount [str "a"; str "b"; str "c"; str "d"])
             [DICOMViewer.ClickPrev; DICOMViewer.Props [str "e"; str "f"]] in
  DICOMViewer.reachable v
  /\ DICOMViewer.currentIndex v = 3
  /\ 2 <= DICOMViewer.totalSlices v <= DICOMViewer.currentIndex v
  /\ DICOMViewer.currentIndex (DICOMViewer.clickNext v) = 0
  /\ DICOMViewer.currentIndex (DICOMViewer.clickPrev v) = 2.
Proof.
  intros v.
  assert (Hr : DICOMViewer.reachable v) by (apply reachable_run; constructor).
  assert (Hn : 2 <= DICOMViewer.totalSlices v) by (vm_compute; discriminate).
  assert (Ho : DICOMViewer.totalSlices v <= DICOMViewer.currentIndex v)
    by (vm_compute; discriminate).
  destruct (proj2 (index_never_negative v Hr) Hn) as [_ Hout].
  destruct (Hout Ho) as [Hx Hp].
  split; [exact Hr |]. split; [reflexivity |]. split; [split; assumption |].
  split; [exact Hx | exact Hp].
Defined.



(** X5. The viewer asks for nothing but the images it was given: while a
    mounted viewer keeps its sequence, every load it has issued is for
    [wadouri:] + [imageIds[i]] where [i], the index the load was started
    for, is an index of the sequence. *)
Theorem requests_stay_within_sequence :
  forall (ids : list jsstring) (es : list DICOMViewer.event) (k : nat) (l : DICOMViewer.load),
    forallb DICOMViewer.keeps_sequence es = true ->
    DICOMViewer.loads (DICOMViewer.run (DICOMViewer.mount ids) es) !! k = Some l ->
    0 <= DICOMViewer.l_index l < Z.of_nat (length ids)
    /\ exists url, ids !! Z.to_nat (DICOMViewer.l_index l) = Some url
                   /\ DICOMViewer.l_imageId l = str "wadouri:" ++ url.
Proof.
  intros ids es k l Hes Hk.
  pose proof (run_requests ids es Hes) as H. unfold DICOMViewer.requests_within in H.
  rewrite Forall_lookup in H. destruct (H k l Hk) as (url & Hu & Hid).
  unfold DICOMViewer.url_at in Hu.
  destruct (Z.ltb_spec (DICOMViewer.l_index l) 0) as [|Hge]; [discriminate Hu |].
  split.
  - apply lookup_lt_Some in Hu. lia.
  - exists url. split; assumption.
Qed.

Lemma requests_stay_within_sequence_witness :
  let ids := [str "/s/0"; str "/s/1"; str "/s/2"] in
  let es := [DICOMViewer.Enabled true; DICOMViewer.ClickPrev] in
  forallb DICOMViewer.keeps_sequence es = true
  /\ exists l, DICOMViewer.loads (DICOMViewer.run (DICOMViewer.mount ids) es) !! 1%nat = Some l
     /\ DICOMViewer.l_index l = 2
     /\ exists url, ids !! Z.to_nat (DICOMViewer.l_index l) = Some url
                    /\ DICOMViewer.l_imageId l = str "wadouri:" ++ url.
Proof.
  intros ids es.
  assert (Hes : forallb DICOMViewer.keeps_sequence es = true) by reflexivity.
  split; [exact Hes |]. eexists. split; [reflexivity |]. split; [reflexivity |].
  exact (proj2 (requests_stay_within_sequence ids es 1%nat _ Hes eq_refl)).
Defined.

Section BadgeFacts.

Lemma upper1_lower1 c : upper1 (lower1 c) = upper1 c.
Proof.
  unfold upper1, lower1, is_lower, is_upper.
  destruct (N.leb_spec 65 c), (N.leb_spec c 90); simpl;
    repeat match goal with
           | |- context [(?a <=? ?b)%N] => destruct (N.leb_spec a b)
           end; simpl; lia.
Qed.

Lemma toUpperCase_ascii s :
  Forall (fun c => (c < 128)%N) s -> toUpperCase s = map upper1 s.
Proof.
  induction 1 as [|c r Hc Hr IH]; [reflexivity |].
  assert (Hh : is_high c = false).
  { unfold is_high. destruct (N.leb_spec 55296 c); [lia | reflexivity]. }
  assert (Hu : flat_map units (upper_cp c) = [upper1 c]).
  { unfold upper_cp. destruct (N.ltb_spec c 128); [| lia].
    cbn [flat_map]. unfold units.
    assert (Hlt : (upper1 c < 65536)%N).
    { unfold upper1. destruct (is_lower c); lia. }
    destruct (N.ltb_spec (upper1 c) 65536); [reflexivity | lia]. }
  cbn [toUpperCase]. fold toUpperCase. rewrite Hh, Hu. cbn [andb].
  destruct r as [|d r']; [reflexivity |].
  rewrite IH. reflexivity.
Qed.

Lemma upper1_ascii s :
  Forall (fun c => (c < 128)%N) s -> Forall (fun c => (c < 128)%N) (map upper1 s).
Proof.
  induction 1 as [|c r Hc Hr IH]; cbn [map]; constructor; [| exact IH].
  unfold upper1. destruct (is_lower c); lia.
Qed.

Lemma lower1_ascii s :
  Forall (fun c => (c < 128)%N) s -> Forall (fun c => (c < 128)%N) (map lower1 s).
Proof.
  induction 1 as [|c r Hc Hr IH]; cbn [map]; constructor; [| exact IH].
  unfold lower1, is_upper.
  destruct (N.leb_spec 65 c), (N.leb_spec c 90); cbn [andb]; lia.
Qed.

Lemma toUpperCase_toLowerCase s :
  Forall (fun c => (c < 128)%N) s -> toUpperCase (toLowerCase s) = toUpperCase s.
Proof.
  intros H. unfold toLowerCase.
  rewrite (toUpperCase_ascii _ (lower1_ascii s H)), (toUpperCase_ascii s H).
  rewrite map_map. apply map_ext. apply upper1_lower1.
Qed.

Lemma upper1_upper1 c : upper1 (upper1 c) = upper1 c.
Proof.
  unfold upper1, is_lower.
  destruct (N.leb_spec 97 c), (N.leb_spec c 122); simpl;
    repeat match goal with
           | |- context [(?a <=? ?b)%N] => destruct (N.leb_spec a b)
           end; simpl; lia.
Qed.

Lemma toUpperCase_twice s :
  Forall (fun c => (c < 128)%N) s -> toUpperCase (toUpperCase s) = toUpperCase s.
Proof.
  intros H. rewrite (toUpperCase_ascii s H).
  rewrite (toUpperCase_ascii _ (upper1_ascii s H)).
  rewrite map_map. apply map_ext. apply upper1_upper1.
Qed.

Lemma or_default_self (s : jsstring) : or_default (Some s) [] = s.
Proof. destruct s; reflexivity. Qed.

(** Upper-casing beyond ASCII: a dotless i, a ligature and a sharp s give
    ASCII letters; two surrogates that make a pair are one code point; a
    surrogate on its own stays. *)
Lemma toUpperCase_beyond_ascii :
  toUpperCase [102; 305; 110; 100; 305; 110; 103; 115]%N = str "FINDINGS"
  /\ toUpperCase [64257; 110; 100; 105; 110; 103; 115]%N = str "FINDINGS"
  /\ toUpperCase [115; 116; 114; 97; 223; 101]%N = str "STRASSE"
  /\ toUpperCase [55297; 56360]%N = [55297; 56320]%N
  /\ toUpperCase [56360; 55297]%N = [56360; 55297]%N.
Proof. vm_compute. repeat split. Qed.

(** So a heading written with a dotless i is a section heading, and it is
    put into a card. *)
Lemma dotless_heading_is_wrapped :
  let h2 := Dom.Element 0 (str "h2") [] [Dom.Text [102; 305; 110; 100; 305; 110; 103; 115]%N] in
  ReportFormat.section_heading [h2] 0 = true
  /\ ReportFormat.no_section_heading [h2] = false
  /\ ReportFormat.wrap_sections [h2]
     = [Dom.Element 1 (str "div") [(str "class", str "report-section-findings")] [h2]].
Proof. vm_compute. repeat split. Qed.

Lemma or_default_nonempty a b : b <> [] -> or_default a b <> [].
Proof. intros Hb. destruct a as [[|c r]|]; simpl; congruence. Qed.

End BadgeFacts.

(** X6. The colour of the series badge does not depend on letter case: for
    a description written in ASCII, [getSeriesBadgeClass] gives the same
    class for the description, its lower-case form and its upper-case form;
    a missing or empty description gets the grey class. *)
Theorem series_badge_ignores_case :
  forall d : jsstring,
    Forall (fun c => (c < 128)%N) d ->
    DICOMViewer.getSeriesBadgeClass (Some (toLowerCase d)) = DICOMViewer.getSeriesBadgeClass (Some d)
    /\ DICOMViewer.getSeriesBadgeClass (Some (toUpperCase d)) = DICOMViewer.getSeriesBadgeClass (Some d)
    /\ DICOMViewer.getSeriesBadgeClass None = str "bg-gray-500/90 text-white"
    /\ DICOMViewer.getSeriesBadgeClass (Some []) = str "bg-gray-500/90 text-white".
Proof.
  intros d Hd. unfold DICOMViewer.getSeriesBadgeClass.
  rewrite !or_default_self.
  rewrite (toUpperCase_toLowerCase d Hd), (toUpperCase_twice d Hd).
  repeat split; reflexivity.
Qed.

Lemma series_badge_ignores_case_witness :
  let d := str "Sag t2 Stir" in
  Forall (fun c => (c < 128)%N) d
  /\ DICOMViewer.getSeriesBadgeClass (Some d) = str "bg-emerald-600 text-white"
  /\ DICOMViewer.getSeriesBadgeClass (Some (toLowerCase d)) = DICOMViewer.getSeriesBadgeClass (Some d).
Proof.
  intros d.
  assert (Ha : Forall (fun c => (c < 128)%N) d)
    by (repeat constructor).
  split; [exact Ha |]. split; [reflexivity |].
  exact (proj1 (series_badge_ignores_case d Ha)).
Defined.

(** X7. The text of the series badge is never empty and never longer than
    25 code units: a description of at most 24 code units is shown as it
    is, a longer one is cut to its first 24 code units followed by an
    ellipsis, and an empty one is shown as "Series". *)
Theorem series_label_bounded :
  forall d : jsstring,
    let label := DICOMViewer.series_label d in
    1 <= jslength label <= 25
    /\ (jslength d <= 24 -> d <> [] -> label = d)
    /\ (24 < jslength d ->
        jslength label = 25 /\ take 24 label = take 24 d
        /\ label !! 24%nat = Some DICOMViewer.ellipsis)
    /\ (d = [] -> label = str "Series").
Proof.
  intros d label. unfold label, DICOMViewer.series_label, jslength.
  destruct (Z.gtb_spec (Z.of_nat (length d)) 24) as [Hlong|Hshort].
  - assert (Hl : length (take 24 d) = 24%nat) by (rewrite length_take; lia).
    rewrite length_app, Hl. simpl length.
    split; [lia |]. split; [intros; lia |]. split.
    + intros _. split; [reflexivity |]. split.
      * rewrite take_app_le by lia. rewrite take_take. reflexivity.
      * apply list_lookup_middle. symmetry. exact Hl.
    + intros ->. simpl in Hlong. lia.
  - split; [| split; [| split; [intros; lia |]]].
    + destruct d as [|c r]; simpl in *; lia.
    + intros _ Hne. destruct d; [congruence | reflexivity].
    + intros ->. reflexivity.
Qed.

Lemma series_label_bounded_witness :
  let d := str "Sagittal T2 weighted lumbar spine" in
  let label := DICOMViewer.series_label d in
  24 < jslength d
  /\ label = str "Sagittal T2 weighted lum" ++ [DICOMViewer.ellipsis]
  /\ jslength label = 25 /\ take 24 label = take 24 d
  /\ label !! 24%nat = Some DICOMViewer.ellipsis.
Proof.
  intros d label.
  assert (Hl : 24 < jslength d) by reflexivity.
  split; [exact Hl |]. split; [reflexivity |].
  exact (proj1 (proj2 (proj2 (series_label_bounded d))) Hl).
Defined.

(** X8. A failed initialisation always shows: whatever [initCornerstone]
    returns, when the result is not ok the mount effect stores a non-empty
    message (the error of the result, or "Viewer failed to initialize" when
    that is missing or empty) and the component renders the panel "Viewer
    unavailable" with it, whatever images it was given; when the result is
    ok nothing is stored and the panel is not rendered. *)
Theorem failed_init_is_shown :
  forall (env : CornerstoneInit.setup) (st : CornerstoneInit.module_state)
         (v : DICOMViewer.viewer),
    let r := fst (CornerstoneInit.initCornerstone env st) in
    match DICOMViewer.init_effect r with
    | Some m =>
        CornerstoneInit.ok r = false /\ m <> []
        /\ m = or_default (CornerstoneInit.error r) (str "Viewer failed to initialize")
        /\ DICOMViewer.render (Some m) v = DICOMViewer.Unavailable m
    | None =>
        CornerstoneInit.ok r = true
        /\ DICOMViewer.render None v
           = if DICOMViewer.totalSlices v =? 0 then DICOMViewer.NoImages
             else DICOMViewer.Slices (DICOMViewer.currentIndex v + 1) (DICOMViewer.totalSlices v)
    end.
Proof.
  intros env st v r. unfold DICOMViewer.init_effect.
  destruct (CornerstoneInit.ok r) eqn:Hok.
  - split; reflexivity.
  - set (m := or_default (CornerstoneInit.error r) (str "Viewer failed to initialize")).
    assert (Hm : m <> []) by (apply or_default_nonempty; discriminate).
    split; [reflexivity |]. split; [exact Hm |]. split; [reflexivity |].
    unfold DICOMViewer.render. destruct m as [|c m']; [congruence | reflexivity].
Qed.

(* ================================================================== *)
(** * Further properties of the report formats *)
(* ================================================================== *)

Section ShapeFacts.

Import Dom Regex ReportFormat.

#[local] Arguments N.eqb : simpl never.

Lemma clean_search ci r dm :
  (forall prev s, snd <$> first_match ci r prev s = dm s) ->
  forall s, clean dm s -> forall prev, search ci r prev s = false.
Proof.
  intros H. induction s as [|c t IH]; intros Hc prev; simpl.
  - destruct Hc as [H0 _]. rewrite <- (H prev) in H0.
    destruct (first_match ci r prev []); [discriminate | reflexivity].
  - destruct Hc as [H0 Ht]. rewrite <- (H prev) in H0.
    destruct (first_match ci r prev (c :: t)); [discriminate |]. apply IH. exact Ht.
Qed.

Lemma quiet_search ci r :
  forall s, quiet (first_match ci r) s -> forall prev, search ci r prev s = false.
Proof.
  induction s as [|c t IH]; intros [H0 Ht] prev; simpl; rewrite H0; [reflexivity |].
  apply IH. exact Ht.
Qed.

Lemma single_spaced_no_tab s : single_spaced s -> includes [9%N] s = false.
Proof.
  induction s as [|c t IH]; intros H; [reflexivity |].
  destruct H as (Hc & _ & Ht). simpl.
  destruct (N.eqb_spec 9 c) as [E|_]; [congruence |]. simpl. apply IH. exact Ht.
Qed.

Lemma single_spaced_no_pair s : single_spaced s -> includes [32%N; 32%N] s = false.
Proof.
  induction s as [|c t IH]; intros H; [reflexivity |].
  destruct H as (_ & Hs & Ht). simpl. rewrite (IH Ht), orb_false_r.
  destruct (N.eqb_spec 32 c) as [E|_]; [| reflexivity]. simpl.
  specialize (Hs (eq_sym E)). destruct t as [|x t']; [reflexivity |].
  destruct (N.eqb_spec 32 x) as [Ex|_]; [| reflexivity].
  subst x. discriminate Hs.
Qed.

Lemma plain_shape s :
  plain s ->
  test true re_block_end s = false
  /\ (test false re_tag s = false
      /\ test false re_nbsp s = false
      /\ includes [9%N] s = false
      /\ includes [32%N; 32%N] s = false
      /\ test false re_nl_sp s = false
      /\ test false re_sp_nl s = false
      /\ test false re_nl3 s = false
      /\ trim s = s).
Proof.
  intros (T & Nb & S & L & M & K & Tr). unfold test.
  split; [apply quiet_search; apply block_end_quiet; exact T |].
  split; [apply (clean_search false _ _ agree_tag); exact T |].
  split; [apply (clean_search false _ _ (agree_lit (str "&nbsp;"))); exact Nb |].
  split; [apply single_spaced_no_tab; exact S |].
  split; [apply single_spaced_no_pair; exact S |].
  split; [apply (clean_search false _ _ (agree_lit [nl; c_sp])); exact L |].
  split; [apply (clean_search false _ _ (agree_lit [c_sp; nl])); exact M |].
  split; [apply (clean_search false _ _ agree_nl3); exact K | exact Tr].
Qed.

Lemma search_clean ci r dm :
  (forall prev s, snd <$> first_match ci r prev s = dm s) ->
  forall s prev, search ci r prev s = false -> clean dm s.
Proof.
  intros H. induction s as [|c t IH]; intros prev Hs; simpl in Hs.
  - split; [| exact I]. rewrite <- (H prev).
    destruct (first_match ci r prev []); [discriminate | reflexivity].
  - destruct (first_match ci r prev (c :: t)) eqn:E; [discriminate |].
    split; [rewrite <- (H prev), E; reflexivity | apply (IH (Some c)); exact Hs].
Qed.

Lemma no_tab_no_pair_single_spaced s :
  includes [9%N] s = false -> includes [32%N; 32%N] s = false -> single_spaced s.
Proof.
  induction s as [|c t IH]; intros H9 H32; [exact I |].
  simpl in H9, H32.
  apply orb_false_elim in H9 as [H9 H9t]. apply orb_false_elim in H32 as [H32 H32t].
  rewrite andb_true_r in H9.
  split; [| split; [| apply IH; assumption]].
  - intros ->. discriminate H9.
  - intros ->. change (32 =? c_sp)%N with true in H32. simpl in H32.
    destruct t as [|x t']; [exact I |].
    rewrite andb_true_r in H32. unfold is_blank.
    destruct (N.eqb_spec x 32) as [->|_]; [discriminate H32 |]. simpl.
    simpl in H9t. apply orb_false_elim in H9t as [H9x _]. rewrite andb_true_r in H9x.
    destruct (N.eqb_spec x 9) as [->|_]; [discriminate H9x | reflexivity].
Qed.

Lemma shape_plain s :
  test false re_tag s = false
  /\ test false re_nbsp s = false
  /\ includes [9%N] s = false
  /\ includes [32%N; 32%N] s = false
  /\ test false re_nl_sp s = false
  /\ test false re_sp_nl s = false
  /\ test false re_nl3 s = false
  /\ trim s = s ->
  plain s.
Proof.
  intros (T & Nb & H9 & H32 & L & M & K & Tr). unfold test in *. unfold plain.
  split; [apply (search_clean false _ _ agree_tag s None); exact T |].
  split; [apply (search_clean false _ _ (agree_lit (str "&nbsp;")) s None); exact Nb |].
  split; [apply no_tab_no_pair_single_spaced; assumption |].
  split; [apply (search_clean false _ _ (agree_lit [nl; c_sp]) s None); exact L |].
  split; [apply (search_clean false _ _ (agree_lit [c_sp; nl]) s None); exact M |].
  split; [apply (search_clean false _ _ agree_nl3 s None); exact K | exact Tr].
Qed.

Lemma plain_text_shape_tag html : test false re_tag (htmlToPlainText html) = false.
Proof.
  destruct (htmlToPlainText_plain html) as (T & _).
  apply (clean_search false _ _ agree_tag). exact T.
Qed.

Lemma trim_plain_text html : trim (htmlToPlainText html) = htmlToPlainText html.
Proof. destruct (htmlToPlainText_plain html) as (_ & _ & _ & _ & _ & _ & H). exact H. Qed.

Lemma blank_trimmed s : trim s = s -> blank s = negb (nonempty s).
Proof. intros H. unfold blank. rewrite H. reflexivity. Qed.

Lemma formatted_shape s :
  let out := trim (replace false re_nl3 [nl; nl] s) in
  clean dm_nl3 out /\ trim out = out.
Proof.
  intros out. split; [| apply trim_twice].
  unfold out. rewrite (replace_scan re_nl3 dm_nl3 [nl; nl] s agree_nl3).
  pose proof (nl3_clean _ _ (scan_all_rewrites dm_nl3 is_nl [nl; nl] s dm_nl3_blocks)) as Hc.
  destruct (trim_split (scan_all dm_nl3 [nl; nl] s)) as (w1 & w2 & E).
  rewrite E in Hc. apply (clean_middle dm_nl3 w1 _ w2 dm_nl3_mono Hc).
Qed.

Lemma clean_nl3_includes s : clean dm_nl3 s -> includes [nl; nl; nl] s = false.
Proof.
  induction s as [|c t IH]; intros Hc; [reflexivity |].
  destruct Hc as [H0 Hc]. simpl. rewrite (IH Hc), orb_false_r.
  destruct t as [|b [|c' t']]; simpl in *.
  - rewrite andb_false_r. reflexivity.
  - rewrite !andb_false_r. reflexivity.
  - rewrite andb_true_r. unfold is_nl in H0.
    destruct (nl =? c)%N, (nl =? b)%N, (nl =? c')%N;
      simpl in *; try reflexivity; discriminate H0.
Qed.

End ShapeFacts.

(** X9. The shape of plain text: for every string, none of the patterns that
    [htmlToPlainText] removes occurs in its result, which contains no
    block-closing tag or line break tag, no tag at all ([/<[^>]+>/]), no
    [&nbsp;], no tab and no two spaces in a row, no space next to a newline
    and no three newlines in a row, and which has no white space at its
    start or end. *)
Theorem plain_text_shape :
  forall html : jsstring,
    let out := ReportFormat.htmlToPlainText html in
    Regex.test true ReportFormat.re_block_end out = false
    /\ Regex.test false ReportFormat.re_tag out = false
    /\ Regex.test false ReportFormat.re_nbsp out = false
    /\ includes [9%N] out = false
    /\ includes [32%N; 32%N] out = false
    /\ Regex.test false ReportFormat.re_nl_sp out = false
    /\ Regex.test false ReportFormat.re_sp_nl out = false
    /\ Regex.test false ReportFormat.re_nl3 out = false
    /\ trim out = out.
Proof.
  intros html out.
  destruct (plain_shape out (htmlToPlainText_plain html)) as [Hb Hs].
  split; [exact Hb | exact Hs].
Qed.

(** X10. The asynchronous converter is the synchronous one followed by the
    structurer: for every HTML parser, every Markdown parser that returns a
    string and every content, [markdownToHtmlAsync(content)] is
    [enhanceReportHtml(markdownToHtml(content))]; for blank content both
    converters give the empty string. *)
Theorem async_is_sync_then_enhance :
  forall (parse : jsstring -> list Dom.node) (marked : jsstring -> jsstring)
         (content : jsstring),
    ReportFormat.markdownToHtmlAsync parse marked content
    = ReportFormat.enhanceReportHtml parse
        (ReportFormat.markdownToHtml parse (fun s => Some (marked s)) content)
    /\ (ReportFormat.blank content = true ->
        ReportFormat.markdownToHtmlAsync parse marked content = []
        /\ forall marked_sync, ReportFormat.markdownToHtml parse marked_sync content = []).
Proof.
  intros parse marked content.
  unfold ReportFormat.markdownToHtmlAsync, ReportFormat.markdownToHtml.
  destruct (ReportFormat.blank content).
  - split; [reflexivity |]. intros _. split; [reflexivity | intros; reflexivity].
  - split; [| discriminate].
    destruct (startsWith (str "<") (trim content)); reflexivity.
Qed.

Lemma async_is_sync_then_enhance_witness :
  ReportFormat.blank (str "  ") = true
  /\ ReportFormat.markdownToHtmlAsync Browser.parse (fun s => s) (str "  ") = [].
Proof.
  assert (H : ReportFormat.blank (str "  ") = true) by reflexivity.
  split; [exact H |].
  exact (proj1 (proj2 (async_is_sync_then_enhance Browser.parse (fun s => s) (str "  ")) H)).
Defined.

(** X11. The shape of formatted text: for every string and every parser,
    the result of [htmlToFormattedText] contains no three newlines in a row
    (never more than one empty line between two lines) and has no white
    space at its start or end. *)
Theorem formatted_text_shape :
  forall (parse : jsstring -> list Dom.node) (html : jsstring),
    let out := ReportFormat.htmlToFormattedText parse html in
    Regex.test false ReportFormat.re_nl3 out = false
    /\ includes [ReportFormat.nl; ReportFormat.nl; ReportFormat.nl] out = false
    /\ trim out = out.
Proof.
  intros parse html out.
  destruct (formatted_shape
              (ReportFormat.join [ReportFormat.nl]
                 (ReportFormat.lines_of (Dom.Element 0 (str "div") [] (parse html)))))
    as [Hc Ht].
  fold (ReportFormat.htmlToFormattedText parse html) in Hc, Ht. fold out in Hc, Ht.
  split; [apply (clean_search false _ _ agree_nl3); exact Hc |].
  split; [apply clean_nl3_includes; exact Hc | exact Ht].
Qed.

(* ================================================================== *)
(** * Properties of the report panel *)
(* ================================================================== *)

Section EffectFacts.

Import ReportFormat ReportViewer.

Variable parse : jsstring -> list Dom.node.
Variable marked : jsstring -> jsstring.

#[local] Arguments startsWith : simpl never.
#[local] Arguments str : simpl never.
#[local] Arguments trim : simpl never.

Lemma blank_trim r : blank (trim r) = blank r.
Proof. unfold blank. rewrite trim_twice. reflexivity. Qed.

Lemma markdownToHtmlAsync_trim r :
  markdownToHtmlAsync parse marked (trim r) = markdownToHtmlAsync parse marked r.
Proof. unfold markdownToHtmlAsync. rewrite blank_trim, trim_twice. reflexivity. Qed.

Lemma report_effect_report s : report (report_effect parse marked s) = report s.
Proof.
  unfold report_effect. destruct (report s) as [r|]; [| reflexivity].
  destruct (blank r); [reflexivity |].
  destruct (startsWith (str "<") (trim r)); reflexivity.
Qed.

Lemma report_effect_invariant s :
  (forall k c, conversions s !! k = Some c -> c_cancelled c = false -> pending s = Some k) ->
  conversion_invariant parse marked (report_effect parse marked s).
Proof.
  intros Hc.
  set (cs := match pending s with
             | Some k => alter cancel_conversion k (conversions s)
             | None => conversions s
             end).
  assert (Hcs : forall k c, cs !! k = Some c -> c_cancelled c = true).
  { intros k c Hk. unfold cs in Hk. destruct (pending s) as [k0|] eqn:Hp.
    - destruct (decide (k0 = k)) as [->|Hne].
      + rewrite list_lookup_alter_eq in Hk.
        destruct (conversions s !! k); [| discriminate]. injection Hk as <-. reflexivity.
      + rewrite list_lookup_alter_ne in Hk by exact Hne.
        destruct (c_cancelled c) eqn:E; [reflexivity |].
        specialize (Hc k c Hk E). congruence.
    - destruct (c_cancelled c) eqn:E; [reflexivity |].
      specialize (Hc k c Hk E). discriminate. }
  unfold conversion_invariant, report_effect. fold cs.
  destruct (report s) as [r|] eqn:Hr.
  - unfold html_of, markdownToHtmlAsync.
    destruct (blank r) eqn:Hb.
    + simpl. rewrite ?Hr, ?Hb. split; [| reflexivity].
      intros k c Hk Hcan. rewrite (Hcs k c Hk) in Hcan. discriminate.
    + destruct (startsWith (str "<") (trim r)) eqn:Hs.
      * simpl. rewrite ?Hr, ?Hb, ?Hs. split; [| reflexivity].
        intros k c Hk Hcan. rewrite (Hcs k c Hk) in Hcan. discriminate.
      * simpl. rewrite ?Hr, ?Hb, ?Hs. split.
        { intros k c Hk Hcan. destruct (decide (k < length cs)%nat) as [Hlt|Hge].
          - rewrite lookup_app_l in Hk by exact Hlt.
            rewrite (Hcs k c Hk) in Hcan. discriminate.
          - rewrite lookup_app_r in Hk by lia.
            destruct (k - length cs)%nat eqn:E; [| destruct n; discriminate Hk].
            f_equal. lia. }
        eexists. split; [apply list_lookup_middle; reflexivity |].
        split; [reflexivity |]. split; [| discriminate].
        simpl. unfold markdownToHtmlAsync. rewrite blank_trim, trim_twice, Hb, Hs.
        reflexivity.
  - simpl. rewrite ?Hr. split; [| reflexivity].
    intros k c Hk Hcan. rewrite (Hcs k c Hk) in Hcan. discriminate.
Qed.

Lemma converted_invariant k s :
  conversion_invariant parse marked s -> conversion_invariant parse marked (converted k s).
Proof.
  intros [Hc Hd]. unfold converted.
  destruct (conversions s !! k) as [c|] eqn:Hk; [| split; assumption].
  destruct (c_done c) eqn:Hdone; [split; assumption |].
  unfold conversion_invariant. simpl. split.
  - intros j cj Hj Hcan. destruct (decide (k = j)) as [<-|Hne].
    + rewrite list_lookup_alter_eq, Hk in Hj. injection Hj as <-.
      apply (Hc k c Hk). exact Hcan.
    + rewrite list_lookup_alter_ne in Hj by exact Hne. apply (Hc j cj Hj Hcan).
  - destruct (pending s) as [k0|] eqn:Hp.
    + destruct Hd as (c0 & Hk0 & Hcan0 & Hh & Hshown).
      destruct (decide (k = k0)) as [->|Hne].
      * rewrite Hk in Hk0. injection Hk0 as <-. rewrite Hcan0.
        exists (finish c). rewrite list_lookup_alter_eq, Hk.
        repeat split; try assumption.
      * assert (Hcan : c_cancelled c = true).
        { destruct (c_cancelled c) eqn:E; [reflexivity |].
          specialize (Hc k c Hk E). congruence. }
        rewrite Hcan. exists c0. rewrite list_lookup_alter_ne by exact Hne.
        repeat split; assumption.
    + assert (Hcan : c_cancelled c = true).
      { destruct (c_cancelled c) eqn:E; [reflexivity |].
        specialize (Hc k c Hk E). discriminate. }
      rewrite Hcan. exact Hd.
Qed.

Lemma with_view_invariant p s :
  displayHtml p = displayHtml (view s) ->
  conversion_invariant parse marked s -> conversion_invariant parse marked (with_view p s).
Proof.
  intros Hp [Hc Hd]. unfold conversion_invariant. simpl. split; [exact Hc |].
  destruct (pending s); [| rewrite Hp; exact Hd].
  destruct Hd as (c & H1 & H2 & H3 & H4). exists c. rewrite Hp.
  repeat split; assumption.
Qed.

Lemma report_reachable_invariant s :
  report_reachable parse marked s -> conversion_invariant parse marked s.
Proof.
  induction 1 as [r|s e _ IH].
  - apply report_effect_invariant. intros k c Hk. discriminate Hk.
  - destruct e as [r|k| |value|]; simpl.
    + apply report_effect_invariant. exact (proj1 IH).
    + apply converted_invariant. exact IH.
    + apply with_view_invariant; [reflexivity | exact IH].
    + apply with_view_invariant; [reflexivity | exact IH].
    + apply with_view_invariant; [reflexivity | exact IH].
Qed.

End EffectFacts.

(** X12. The panel shows the html of the current report: in every reachable
    state of the report panel in which no conversion is in force or the one
    in force has resolved, [displayHtml] is [markdownToHtmlAsync(report)]
    (the empty string when [report] is missing), whichever branch of the
    effect produced it; and when the conversion in force resolves, the panel
    shows that html in view mode and drops the saved edit. *)
Theorem current_report_is_displayed :
  forall (parse : jsstring -> list Dom.node) (marked : jsstring -> jsstring)
         (s : ReportViewer.report_state),
    ReportViewer.report_reachable parse marked s ->
    ((forall k c, ReportViewer.pending s = Some k ->
                  ReportViewer.conversions s !! k = Some c ->
                  ReportViewer.c_done c = true) ->
     ReportViewer.displayHtml (ReportViewer.view s)
     = ReportViewer.html_of parse marked (ReportViewer.report s))
    /\ (forall k c, ReportViewer.pending s = Some k ->
                    ReportViewer.conversions s !! k = Some c ->
                    ReportViewer.c_done c = false ->
                    ReportViewer.view (ReportViewer.converted k s)
                    = ReportViewer.show
                        (ReportViewer.html_of parse marked (ReportViewer.report s))
                        (ReportViewer.view s)).
Proof.
  intros parse marked s Hr.
  destruct (report_reachable_invariant parse marked s Hr) as [Hc Hd].
  split.
  - intros Hdone. destruct (ReportViewer.pending s) as [k|]; [| exact Hd].
    destruct Hd as (c & Hk & _ & Hh & Hshown).
    rewrite (Hshown (Hdone k c eq_refl Hk)). exact Hh.
  - intros k c Hp Hk Hnd. rewrite Hp in Hd.
    destruct Hd as (c0 & Hk0 & Hcan & Hh & _).
    rewrite Hk in Hk0. injection Hk0 as <-.
    unfold ReportViewer.converted. rewrite Hk, Hnd, Hcan. simpl. rewrite Hh. reflexivity.
Qed.

Lemma current_report_is_displayed_witness :
  let marked := fun s => str "<p>" ++ s ++ str "</p>" in
  let s := ReportViewer.report_step Browser.parse marked
             (ReportViewer.mount Browser.parse marked (Some (str "<h2>Findings</h2>")))
             (ReportViewer.NewReport (Some (str "L4-L5: disc bulge"))) in
  ReportViewer.report_reachable Browser.parse marked s
  /\ ReportViewer.pending s = Some 0%nat
  /\ ReportViewer.displayHtml (ReportViewer.view s)
     = str "<div class=" ++ [34%N] ++ str "report-section-findings" ++ [34%N]
       ++ str "><h2>Findings</h2></div>"
  /\ ReportViewer.displayHtml (ReportViewer.view (ReportViewer.converted 0 s))
     = str "<p class=" ++ [34%N] ++ str "report-level-abnormal" ++ [34%N]
       ++ str ">L4-L5: disc bulge</p>".
Proof.
  intros marked s.
  assert (Hr : ReportViewer.report_reachable Browser.parse marked s)
    by (apply ReportViewer.report_reach_step; apply ReportViewer.report_reach_mount).
  split; [exact Hr |]. split; [reflexivity |]. split; [vm_compute; reflexivity |].
  rewrite (proj2 (current_report_is_displayed Browser.parse marked s Hr)
             0%nat _ eq_refl eq_refl eq_refl).
  vm_compute. reflexivity.
Defined.

(** X13. A superseded conversion is dropped: in every reachable state of
    the report panel, when a conversion other than the one in force
    resolves, the panel (the html on display, the saved edit, the mode and
    the editor's content) is left as it is. *)
Theorem stale_conversion_is_dropped :
  forall (parse : jsstring -> list Dom.node) (marked : jsstring -> jsstring)
         (s : ReportViewer.report_state) (k : nat),
    ReportViewer.report_reachable parse marked s ->
    ReportViewer.pending s <> Some k ->
    ReportViewer.view (ReportViewer.converted k s) = ReportViewer.view s
    /\ ReportViewer.report (ReportViewer.converted k s) = ReportViewer.report s
    /\ ReportViewer.pending (ReportViewer.converted k s) = ReportViewer.pending s.
Proof.
  intros parse marked s k Hr Hp.
  destruct (report_reachable_invariant parse marked s Hr) as [Hc _].
  unfold ReportViewer.converted.
  destruct (ReportViewer.conversions s !! k) as [c|] eqn:Hk; [| repeat split].
  destruct (ReportViewer.c_done c); [repeat split |]. simpl.
  destruct (ReportViewer.c_cancelled c) eqn:E; [repeat split |].
  specialize (Hc k c Hk E). congruence.
Qed.

Lemma stale_conversion_is_dropped_witness :
  let marked := fun s => str "<p>" ++ s ++ str "</p>" in
  let s := ReportViewer.report_step Browser.parse marked
             (ReportViewer.mount Browser.parse marked (Some (str "first report")))
             (ReportViewer.NewReport (Some (str "second report"))) in
  ReportViewer.report_reachable Browser.parse marked s
  /\ ReportViewer.pending s <> Some 0%nat
  /\ (exists c, ReportViewer.conversions s !! 0%nat = Some c
                /\ ReportViewer.c_html c = str "<p>first report</p>")
  /\ ReportViewer.view (ReportViewer.converted 0 s) = ReportViewer.view s.
Proof.
  intros marked s.
  assert (Hr : ReportViewer.report_reachable Browser.parse marked s)
    by (apply ReportViewer.report_reach_step; apply ReportViewer.report_reach_mount).
  assert (Hp : ReportViewer.pending s <> Some 0%nat) by (vm_compute; discriminate).
  split; [exact Hr |]. split; [exact Hp |].
  split; [eexists; split; [reflexivity | vm_compute; reflexivity] |].
  exact (proj1 (stale_conversion_is_dropped Browser.parse marked s 0 Hr Hp)).
Defined.

(* ================================================================== *)
(** * Properties of the image ids *)
(* ================================================================== *)

Section AppFacts.

Import App.







End AppFacts.



(** X15. The image ids kept after an upload are absolute in the desktop
    shell: with [API_BASE_URL] as it is under Electron every id that
    [handleUpload] keeps starts with [http]; in the browser ([API_BASE_URL]
    empty) the ids of the server are kept as they are; and in both cases
    doing the conversion again changes nothing and the number of ids is
    that of the server. *)
Theorem uploaded_ids_are_absolute :
  forall (isElectron : bool) (ids : list jsstring),
    let base := App.API_BASE_URL isElectron in
    let kept := App.uploaded_image_ids base ids in
    length kept = length ids
    /\ App.uploaded_image_ids base kept = kept
    /\ (if isElectron then forallb (startsWith (str "http")) kept = true
        else kept = ids).
Proof.
  intros isElectron ids base kept. unfold kept, App.uploaded_image_ids.
  split; [apply length_map |].
  destruct isElectron; unfold base, App.API_BASE_URL.
  - assert (Hb : forall id, startsWith (str "http") (str "http://127.0.0.1:8001" ++ id) = true)
      by (intros id; reflexivity).
    split.
    + rewrite map_map. apply map_ext. intros id.
      destruct (startsWith (str "http") id) eqn:E; [rewrite E; reflexivity |].
      rewrite Hb. reflexivity.
    + rewrite forallb_forall. intros x Hx. apply in_map_iff in Hx as (id & <- & _).
      destruct (startsWith (str "http") id) eqn:E; [exact E | apply Hb].
  - assert (H : map (fun id => if startsWith (str "http") id then id else [] ++ id) ids = ids).
    { rewrite <- (map_id ids) at 2. apply map_ext. intros id.
      destruct (startsWith (str "http") id); reflexivity. }
    rewrite H. split; [exact H | reflexivity].
Qed.

(* ================================================================== *)
(** * Properties of copying and exporting *)
(* ================================================================== *)

Section ExportFacts.

Import ReportFormat ReportViewer.

Lemma draw_lines_drawn ph : forall lines y, drawn (draw_lines ph lines y) = lines.
Proof.
  induction lines as [|l rest IH]; intros y; [reflexivity |].
  simpl. destruct (below_margin ph y); simpl; rewrite IH; reflexivity.
Qed.

Lemma draw_lines_margins ph :
  QArith_base.Qle (QArith_base.inject_Z (margin + lineHeight))
                  (QArith_base.Qminus ph (QArith_base.inject_Z margin)) ->
  forall lines y, margin <= y ->
    Forall (fun c => match c with
                     | DrawText _ x y' =>
                         x = margin /\ margin <= y'
                         /\ QArith_base.Qle (QArith_base.inject_Z (y' + lineHeight))
                              (QArith_base.Qminus ph (QArith_base.inject_Z margin))
                     | AddPage => True
                     end) (draw_lines ph lines y).
Proof.
  intros Hfit. induction lines as [|l rest IH]; intros y Hy; [constructor |].
  simpl. destruct (below_margin ph y) eqn:E.
  - constructor; [exact I |]. constructor.
    + split; [reflexivity |]. split; [lia | exact Hfit].
    + apply IH. unfold lineHeight. lia.
  - constructor.
    + split; [reflexivity |]. split; [exact Hy |].
      unfold below_margin in E. apply negb_false_iff in E.
      apply QArith_base.Qle_bool_iff. exact E.
    + apply IH. unfold lineHeight. lia.
Qed.

Lemma draw_lines_left ph :
  forall lines y, margin <= y ->
    Forall (fun c => match c with
                     | DrawText _ x y' => x = margin /\ margin <= y'
                     | AddPage => True
                     end) (draw_lines ph lines y).
Proof.
  induction lines as [|l rest IH]; intros y Hy; [constructor |].
  simpl. destruct (below_margin ph y).
  - constructor; [exact I |]. constructor; [split; [reflexivity | lia] |].
    apply IH. unfold lineHeight. lia.
  - constructor; [split; [reflexivity | exact Hy] |].
    apply IH. unfold lineHeight. lia.
Qed.

Lemma draw_lines_pages ph :
  forall lines y, (added_pages (draw_lines ph lines y) <= length lines)%nat.
Proof.
  induction lines as [|l rest IH]; intros y; [simpl; lia |].
  simpl. destruct (below_margin ph y); simpl.
  - specialize (IH (margin + lineHeight)). lia.
  - specialize (IH (y + lineHeight)). lia.
Qed.

End ExportFacts.

(** X16. What is copied for PowerScribe: [copyToPowerScribe] writes to a
    clipboard exactly when the plain text of the current view is not empty
    and a clipboard is there, the Electron one first; the text it writes is
    [htmlToPlainText] of the current view, which is then not empty, has no
    white space at its ends and contains no tag; with an empty plain text
    nothing is written and the message is "No report content to copy.". *)
Theorem copied_text_is_plain :
  forall (electronAPI navigator_clipboard : bool) (p : ReportViewer.panel),
    let text := ReportFormat.htmlToPlainText (ReportViewer.currentViewHtml p) in
    let r := ReportViewer.copyToPowerScribe electronAPI navigator_clipboard p in
    (match ReportViewer.copied r with
     | Some (c, t) =>
         t = text /\ t <> [] /\ trim t = t
         /\ Regex.test false ReportFormat.re_tag t = false
         /\ c = (if electronAPI then ReportViewer.ElectronClipboard
                 else ReportViewer.NavigatorClipboard)
     | None => text = [] \/ (electronAPI = false /\ navigator_clipboard = false)
     end)
    /\ (text = [] -> ReportViewer.copied r = None
                     /\ ReportViewer.alert r = str "No report content to copy.")
    /\ (text <> [] -> electronAPI || navigator_clipboard = true ->
        exists c, ReportViewer.copied r = Some (c, text)).
Proof.
  intros electronAPI navigator_clipboard p text r.
  pose proof (trim_plain_text (ReportViewer.currentViewHtml p)) as Ht. fold text in Ht.
  pose proof (plain_text_shape_tag (ReportViewer.currentViewHtml p)) as Htag. fold text in Htag.
  pose proof (blank_trimmed text Ht) as Hb.
  unfold r, ReportViewer.copyToPowerScribe. fold text. rewrite Hb.
  destruct text as [|c0 t0] eqn:E; simpl.
  - split; [left; reflexivity |]. split; [intros _; split; reflexivity | congruence].
  - assert (Hne : c0 :: t0 <> []) by discriminate.
    destruct electronAPI; simpl.
    + split; [repeat split; assumption |]. split; [congruence |].
      intros _ _. eexists. reflexivity.
    + destruct navigator_clipboard; simpl.
      * split; [repeat split; assumption |]. split; [congruence |].
        intros _ _. eexists. reflexivity.
      * split; [right; split; reflexivity |]. split; [congruence | discriminate].
Qed.

Lemma copied_text_is_plain_witness :
  let p := {| ReportViewer.displayHtml := str "<p>L4-L5: disc bulge</p><p>No stenosis.</p>";
              ReportViewer.editedHtml := None; ReportViewer.viewMode := true;
              ReportViewer.editValue := [] |} in
  let text := ReportFormat.htmlToPlainText (ReportViewer.currentViewHtml p) in
  text = str "L4-L5: disc bulge" ++ [10%N] ++ str "No stenosis."
  /\ text <> []
  /\ true || false = true
  /\ exists c, ReportViewer.copied (ReportViewer.copyToPowerScribe true false p) = Some (c, text).
Proof.
  intros p text.
  assert (Hv : text = str "L4-L5: disc bulge" ++ [10%N] ++ str "No stenosis.")
    by (vm_compute; reflexivity).
  assert (Hne : text <> []) by (rewrite Hv; discriminate).
  split; [exact Hv |]. split; [exact Hne |]. split; [reflexivity |].
  exact (proj2 (proj2 (copied_text_is_plain true false p)) Hne eq_refl).
Defined.

(** X17. The pages of the PDF: [exportPdf] draws every line that
    [splitTextToSize] returns for the plain text of the current view, once
    and in order; it adds at most one page per line; when one line fits
    between the margins of a page, no line is drawn across the bottom
    margin ([y + lineHeight <= pageHeight - margin]); and whatever the
    page, every line is drawn at the left margin and never above the top
    margin. *)
Theorem pdf_lines_stay_within_margins :
  forall (pageWidth pageHeight : QArith_base.Q)
         (splitTextToSize : jsstring -> QArith_base.Q -> list jsstring)
         (p : ReportViewer.panel),
    let calls := ReportViewer.exportPdf pageWidth pageHeight splitTextToSize p in
    let lines :=
      splitTextToSize (ReportFormat.htmlToPlainText (ReportViewer.currentViewHtml p))
        (QArith_base.Qminus pageWidth
           (QArith_base.Qmult (QArith_base.inject_Z 2)
                              (QArith_base.inject_Z ReportViewer.margin))) in
    ReportViewer.drawn calls = lines
    /\ (ReportViewer.added_pages calls <= length lines)%nat
    /\ (QArith_base.Qle
          (QArith_base.inject_Z (ReportViewer.margin + ReportViewer.lineHeight))
          (QArith_base.Qminus pageHeight (QArith_base.inject_Z ReportViewer.margin)) ->
        Forall (fun c => match c with
                         | ReportViewer.DrawText _ x y =>
                             x = ReportViewer.margin /\ ReportViewer.margin <= y
                             /\ QArith_base.Qle
                                  (QArith_base.inject_Z (y + ReportViewer.lineHeight))
                                  (QArith_base.Qminus pageHeight
                                     (QArith_base.inject_Z ReportViewer.margin))
                         | ReportViewer.AddPage => True
                         end) calls)
    /\ Forall (fun c => match c with
                        | ReportViewer.DrawText _ x y =>
                            x = ReportViewer.margin /\ ReportViewer.margin <= y
                        | ReportViewer.AddPage => True
                        end) calls.
Proof.
  intros pageWidth pageHeight splitTextToSize p calls lines.
  unfold calls, ReportViewer.exportPdf. fold lines.
  split; [apply draw_lines_drawn |]. split; [apply draw_lines_pages |]. split.
  - intros Hfit. apply draw_lines_margins; [exact Hfit | lia].
  - apply draw_lines_left. lia.
Qed.

Lemma pdf_lines_stay_within_margins_witness :
  let a4 := QArith_base.Qmake 2970001 10000 in
  let split := fun (text : jsstring) (_ : QArith_base.Q) => repeat text 45 in
  let p := {| ReportViewer.displayHtml := str "<p>ok</p>";
              ReportViewer.editedHtml := None; ReportViewer.viewMode := true;
              ReportViewer.editValue := [] |} in
  let calls := ReportViewer.exportPdf (QArith_base.Qmake 210 1) a4 split p in
  QArith_base.Qle (QArith_base.inject_Z (ReportViewer.margin + ReportViewer.lineHeight))
                  (QArith_base.Qminus a4 (QArith_base.inject_Z ReportViewer.margin))
  /\ calls !! 42%nat = Some ReportViewer.AddPage
  /\ calls !! 43%nat = Some (ReportViewer.DrawText (str "ok") 20 20)
  /\ Forall (fun c => match c with
                      | ReportViewer.DrawText _ x y =>
                          x = ReportViewer.margin /\ ReportViewer.margin <= y
                          /\ QArith_base.Qle
                               (QArith_base.inject_Z (y + ReportViewer.lineHeight))
                               (QArith_base.Qminus a4 (QArith_base.inject_Z ReportViewer.margin))
                      | ReportViewer.AddPage => True
                      end) calls.
Proof.
  intros a4 split p calls.
  assert (Hfit : QArith_base.Qle
                   (QArith_base.inject_Z (ReportViewer.margin + ReportViewer.lineHeight))
                   (QArith_base.Qminus a4 (QArith_base.inject_Z ReportViewer.margin)))
    by (vm_compute; discriminate).
  split; [exact Hfit |]. split; [vm_compute; reflexivity |].
  split; [vm_compute; reflexivity |].
  exact (proj1 (proj2 (proj2 (pdf_lines_stay_within_margins (QArith_base.Qmake 210 1) a4 split p)))
               Hfit).
Defined.

(* ================================================================== *)
(** * Further properties of the initialisation and the tiers *)
(* ================================================================== *)

Section RetryFacts.

Import CornerstoneInit.

Lemma calls_same_memo envs :
  forall a b,
    initialized a = initialized b ->
    truthy (initError a) = truthy (initError b) ->
    (truthy (initError a) = true -> initError a = initError b) ->
    fst (calls envs a) = fst (calls envs b)
    /\ (setup_runs (snd (calls envs a)) - setup_runs a
        = setup_runs (snd (calls envs b)) - setup_runs b)%nat
    /\ (setup_runs a <= setup_runs (snd (calls envs a)))%nat
    /\ (setup_runs b <= setup_runs (snd (calls envs b)))%nat.
Proof.
  induction envs as [|env rest IH]; intros a b Hi Ht He.
  - simpl. repeat split; lia.
  - simpl. unfold initCornerstone.
    destruct (truthy (initError a)) eqn:Ea; rewrite <- Ht.
    + rewrite (He eq_refl).
      pose proof (IH a b Hi ltac:(congruence) ltac:(intros; apply He; reflexivity))
        as (H1 & H3 & H4 & H5).
      destruct (calls rest a) as [ra sa]. destruct (calls rest b) as [rb sb].
      simpl in *. rewrite H1. repeat split; assumption.
    + rewrite <- Hi. destruct (initialized a) eqn:Ei.
      * pose proof (IH a b ltac:(congruence) ltac:(congruence) ltac:(congruence))
          as (H1 & H3 & H4 & H5).
        destruct (calls rest a) as [ra sa]. destruct (calls rest b) as [rb sb].
        simpl in *. rewrite H1. repeat split; assumption.
      * destruct env as [|e].
        { pose proof (IH {| initialized := true; initError := initError a;
                            setup_runs := S (setup_runs a) |}
                         {| initialized := true; initError := initError b;
                            setup_runs := S (setup_runs b) |}
                         eq_refl ltac:(simpl; congruence) ltac:(simpl; congruence))
            as (H1 & H3 & H4 & H5).
          destruct (calls rest _) as [ra sa]. destruct (calls rest _) as [rb sb].
          simpl in *. rewrite H1. repeat split; lia. }
        { pose proof (IH {| initialized := false; initError := Some (describe e);
                            setup_runs := S (setup_runs a) |}
                         {| initialized := false; initError := Some (describe e);
                            setup_runs := S (setup_runs b) |}
                         eq_refl eq_refl ltac:(reflexivity)) as (H1 & H3 & H4 & H5).
          destruct (calls rest _) as [ra sa]. destruct (calls rest _) as [rb sb].
          simpl in *. rewrite H1. repeat split; lia. }
Qed.

End RetryFacts.

(** X18. A failure without a description is not remembered: when the setup
    throws a value whose description [e?.message || String(e)] is the empty
    string, that call returns [{ ok: false, error: '' }] and the next call
    runs the setup again; the calls after it return what they would return
    in a fresh module, and the setup is entered once more than it would be
    there. *)
Theorem undescribed_failure_is_retried :
  forall (e : CornerstoneInit.thrown) (later : list CornerstoneInit.setup),
    CornerstoneInit.describe e = [] ->
    fst (CornerstoneInit.calls (CornerstoneInit.Throws e :: later) CornerstoneInit.fresh)
    = {| CornerstoneInit.ok := false; CornerstoneInit.error := Some [] |}
      :: fst (CornerstoneInit.calls later CornerstoneInit.fresh)
    /\ CornerstoneInit.setup_runs
         (snd (CornerstoneInit.calls (CornerstoneInit.Throws e :: later) CornerstoneInit.fresh))
       = S (CornerstoneInit.setup_runs
              (snd (CornerstoneInit.calls later CornerstoneInit.fresh))).
Proof.
  intros e later He. simpl. rewrite He.
  destruct (calls_same_memo later
              {| CornerstoneInit.initialized := false;
                 CornerstoneInit.initError := Some [];
                 CornerstoneInit.setup_runs := 1 |}
              CornerstoneInit.fresh eq_refl eq_refl ltac:(discriminate)) as (H1 & H2 & H3 & _).
  destruct (CornerstoneInit.calls later _) as [ra sa].
  destruct (CornerstoneInit.calls later _) as [rb sb]. simpl in *.
  split; [rewrite H1; reflexivity | lia].
Qed.

Lemma undescribed_failure_is_retried_witness :
  let e := {| CornerstoneInit.message := None; CornerstoneInit.to_String := [] |} in
  CornerstoneInit.describe e = []
  /\ fst (CornerstoneInit.calls [CornerstoneInit.Throws e; CornerstoneInit.Completes;
                                 CornerstoneInit.Completes] CornerstoneInit.fresh)
     = [ {| CornerstoneInit.ok := false; CornerstoneInit.error := Some [] |};
         {| CornerstoneInit.ok := true; CornerstoneInit.error := None |};
         {| CornerstoneInit.ok := true; CornerstoneInit.error := None |} ].
Proof.
  intros e.
  assert (He : CornerstoneInit.describe e = []) by reflexivity.
  split; [exact He |].
  exact (proj1 (undescribed_failure_is_retried e
                  [CornerstoneInit.Completes; CornerstoneInit.Completes] He)).
Defined.

Section TierFacts.

Import ReportViewer.

Lemma existsb_orb {A} (f g : A -> bool) l :
  existsb f l || existsb g l = existsb (fun x => f x || g x) l.
Proof.
  induction l as [|x l IH]; [reflexivity |]. simpl. rewrite <- IH.
  destruct (f x), (g x), (existsb f l), (existsb g l); reflexivity.
Qed.

Lemma existsb_pointwise {A} (f g : A -> bool) l :
  (forall x, f x = g x) -> existsb f l = existsb g l.
Proof.
  intros H. induction l as [|x l IH]; [reflexivity |]. simpl. rewrite H, IH. reflexivity.
Qed.

Lemma lower_tier lc l :
  (forall t, lc !! l = Some t -> toLowerCase t = t) -> toLowerCase (tier lc l) = tier lc l.
Proof.
  intros H. unfold tier. destruct (lc !! l) as [[|c r]|]; [reflexivity | | reflexivity].
  simpl or_default. apply H. reflexivity.
Qed.

Lemma badge_of_tier t :
  let b := {| label := if JS.eqb t (str "low") then str "Low"
                       else if JS.eqb t (str "medium") then str "Medium" else str "High";
              title := if JS.eqb t (str "low") || JS.eqb t (str "medium")
                       then str "Verify carefully" else str "High confidence" |} in
  JS.eqb t (str "low") || JS.eqb t (str "medium") = negb (JS.eqb (label b) (str "High")).
Proof.
  intros b. unfold b. cbn [label].
  destruct (JS.eqb t (str "low")); [reflexivity |].
  destruct (JS.eqb t (str "medium")); reflexivity.
Qed.

End TierFacts.

(** X19. The verification banner agrees with the badges when the tiers are
    written in lower case: for a mapping whose values are in lower case,
    [hasLowConfidence] holds exactly when the badge of one of the five levels
    does not read High.  (The badge lower-cases the tier and the banner test
    does not, which is why the tiers are taken in lower case.) *)
Theorem banner_agrees_with_badges :
  forall levelConfidence : gmap jsstring jsstring,
    (forall l t, levelConfidence !! l = Some t -> toLowerCase t = t) ->
    ReportViewer.hasLowConfidence levelConfidence
    = existsb (fun l => negb (JS.eqb (ReportViewer.label
                                        (ReportViewer.level_badge levelConfidence l))
                                     (str "High")))
              ReportViewer.DISC_LEVELS.
Proof.
  intros lc Hlow. unfold ReportViewer.hasLowConfidence. rewrite existsb_orb.
  apply existsb_pointwise. intros l.
  unfold ReportViewer.level_badge. rewrite (lower_tier lc l (Hlow l)).
  apply badge_of_tier.
Qed.

Lemma banner_agrees_with_badges_witness :
  let lc : gmap jsstring jsstring :=
    list_to_map [(str "L1-L2", str "high"); (str "L2-L3", str "high");
                 (str "L3-L4", str "high"); (str "L4-L5", str "high");
                 (str "L5-S1", str "high")] in
  (forall l t, lc !! l = Some t -> toLowerCase t = t)
  /\ ReportViewer.hasLowConfidence lc = false.
Proof.
  intros lc.
  assert (H : forall l t, lc !! l = Some t -> toLowerCase t = t).
  { intros l t Hl. unfold lc in Hl. simpl in Hl.
    repeat (apply lookup_insert_Some in Hl as [[_ <-]|[_ Hl]]; [reflexivity |]).
    rewrite lookup_empty in Hl. discriminate. }
  split; [exact H |].
  rewrite (banner_agrees_with_badges lc H). vm_compute. reflexivity.
Defined.

(* ================================================================== *)
(** * Section cards *)
(* ================================================================== *)

Section CardFacts.

Import Dom ReportFormat.

#[local] Arguments str : simpl never.
#[local] Arguments JS.eqb : simpl never.
#[local] Arguments wrapperClass : simpl never.
#[local] Arguments toUpperCase : simpl never.
#[local] Arguments trim : simpl never.
#[local] Arguments textContent : simpl never.

Lemma find_none h n : h ∉ ids n -> find h n = None.
Proof.
  induction n as [j t a k IH | d | d] using node_induction; intros Hn; try reflexivity.
  simpl in Hn. apply not_elem_of_cons in Hn as [Hj Hk]. simpl.
  destruct (Nat.eqb_spec h j) as [E|_]; [congruence |].
  induction IH as [|c k Hc _ IHk]; simpl; [reflexivity |].
  simpl in Hk. apply not_elem_of_app in Hk as [Hc' Hk'].
  rewrite (Hc Hc'). apply IHk. exact Hk'.
Qed.

Lemma find_in_skip h done l :
  h ∉ flat_map ids done -> find_in h (done ++ l) = find_in h l.
Proof.
  unfold find_in. induction done as [|x done IH]; intros Hn; [reflexivity |].
  simpl in Hn. apply not_elem_of_app in Hn as [Hx Hd]. simpl.
  rewrite (find_none h x Hx). apply IH. exact Hd.
Qed.

Lemma wrap_siblings_fixed h w cls k :
  h ∉ flat_map ids k -> wrap_siblings h w cls k = k.
Proof.
  induction k as [|x k IH]; intros Hn; [reflexivity |].
  simpl in Hn. apply not_elem_of_app in Hn as [Hx Hk]. simpl.
  assert (E : has_id h x = false).
  { destruct x as [j t a c | d | d]; try reflexivity. simpl.
    simpl in Hx. apply not_elem_of_cons in Hx as [Hj _].
    destruct (Nat.eqb_spec h j); [congruence | reflexivity]. }
  rewrite E, (IH Hk). reflexivity.
Qed.

Lemma map_fixed {A} (f : A -> A) l : Forall (fun x => f x = x) l -> map f l = l.
Proof. induction 1 as [|x l Hx _ IH]; simpl; [reflexivity | rewrite Hx, IH; reflexivity]. Qed.

Lemma wrap_in_fixed h w cls n : h ∉ ids n -> wrap_in h w cls n = n.
Proof.
  induction n as [j t a k IH | d | d] using node_induction; intros Hn; try reflexivity.
  simpl in Hn. apply not_elem_of_cons in Hn as [_ Hk]. simpl.
  assert (Hm : map (wrap_in h w cls) k = k).
  { apply map_fixed. clear -IH Hk. induction IH as [|c k Hc _ IHk]; constructor.
    - apply Hc. simpl in Hk. apply not_elem_of_app in Hk as [Hc' _]. exact Hc'.
    - apply IHk. simpl in Hk. apply not_elem_of_app in Hk as [_ Hk']. exact Hk'. }
  rewrite Hm, (wrap_siblings_fixed h w cls k Hk). reflexivity.
Qed.

Lemma wrap_in_below h w cls i t a k :
  h ∉ flat_map ids k -> wrap_in h w cls (Element i t a k) = Element i t a k.
Proof.
  intros Hk. simpl.
  assert (Hm : map (wrap_in h w cls) k = k).
  { apply map_fixed. apply Forall_forall. intros c Hc. apply wrap_in_fixed.
    intros Hin. apply Hk. apply list_elem_of_In, in_flat_map. exists c.
    split; [apply list_elem_of_In; exact Hc | apply list_elem_of_In; exact Hin]. }
  rewrite Hm, (wrap_siblings_fixed h w cls k Hk). reflexivity.
Qed.

Lemma wrap_siblings_at h w cls done t a k rest :
  h ∉ flat_map ids done ->
  wrap_siblings h w cls (done ++ Element h t a k :: rest)
  = done ++ Element w (str "div") [(str "class", cls)]
                    (Element h t a k :: fst (toMove rest)) :: snd (toMove rest).
Proof.
  induction done as [|x done IH]; intros Hn.
  - simpl. rewrite Nat.eqb_refl. destruct (toMove rest). reflexivity.
  - simpl in Hn. apply not_elem_of_app in Hn as [Hx Hd]. simpl.
    assert (E : has_id h x = false).
    { destruct x as [j t' a' c | d | d]; try reflexivity. simpl.
      simpl in Hx. apply not_elem_of_cons in Hx as [Hj _].
      destruct (Nat.eqb_spec h j); [congruence | reflexivity]. }
    rewrite E, (IH Hd). reflexivity.
Qed.


Lemma toMove_length rest : (length (snd (toMove rest)) <= length rest)%nat.
Proof.
  induction rest as [|n rest IH]; simpl; [lia |].
  destruct (is_element n); [destruct (is_h2 n); [simpl; lia |] |];
    destruct (toMove rest) as [moved stay]; simpl in *; lia.
Qed.

Lemma toMove_stay rest x : x ∈ snd (toMove rest) -> x ∈ rest.
Proof.
  induction rest as [|n rest IH]; simpl; [intros H; exact H |].
  destruct (is_element n); [destruct (is_h2 n); [simpl; intros H; exact H |] |];
    destruct (toMove rest) as [moved stay]; simpl in *; intros H.
  - right. apply IH. exact H.
  - apply elem_of_cons in H as [->|H]; [left | right; apply IH; exact H].
Qed.

Lemma select_h2_none n :
  is_h2 n = false -> no_h2_below n = true -> select (str "h2") n = [].
Proof.
  destruct n as [j t a k | d | d]; try reflexivity. simpl. intros Ht Hk. rewrite Ht.
  unfold querySelectorAll in Hk. destruct (flat_map (select (str "h2")) k); [reflexivity |].
  discriminate Hk.
Qed.

Lemma toMove_select rest :
  Forall (fun n => no_h2_below n = true) rest ->
  querySelectorAll (str "h2") (snd (toMove rest)) = querySelectorAll (str "h2") rest.
Proof.
  unfold querySelectorAll. induction 1 as [|n rest Hn _ IH]; [reflexivity |]. simpl.
  destruct (is_element n) eqn:En.
  - destruct (is_h2 n) eqn:Eh; [reflexivity |].
    destruct (toMove rest) as [moved stay]. simpl in *.
    rewrite (select_h2_none n Eh Hn). exact IH.
  - destruct (toMove rest) as [moved stay]. simpl in *. rewrite IH. reflexivity.
Qed.

Lemma toMove_ids rest :
  NoDup (flat_map ids rest) ->
  NoDup (flat_map ids (snd (toMove rest)))
  /\ forall h, h ∈ flat_map ids (snd (toMove rest)) ->
               (h ∈ flat_map ids rest) /\ (h ∉ flat_map ids (fst (toMove rest))).
Proof.
  intros Hnd.
  pose proof (flat_map_perm ids _ _ (toMove_perm rest)) as Hp.
  rewrite flat_map_app in Hp. rewrite <- Hp in Hnd.
  apply NoDup_app in Hnd as (_ & Hdis & Hs). split; [exact Hs |].
  intros h Hh. split.
  - rewrite <- Hp. apply elem_of_app. right. exact Hh.
  - intros Hm. exact (Hdis h Hm Hh).
Qed.

Lemma fresh_id_above body h : h ∈ flat_map ids body -> (h < fresh_id body)%nat.
Proof.
  unfold fresh_id. generalize (flat_map ids body). intros l.
  induction l as [|x l IH]; intros H; [inversion H |].
  apply elem_of_cons in H as [->|H]; simpl; [lia | specialize (IH H); lia].
Qed.

Lemma cards_fold fuel :
  forall todo done w,
    (length todo <= fuel)%nat ->
    Forall (fun n => no_h2_below n = true) todo ->
    NoDup (flat_map ids todo) ->
    (forall h, h ∈ flat_map ids todo -> (h ∉ flat_map ids done) /\ (h < w)%nat) ->
    fst (fold_left wrap_section (querySelectorAll (str "h2") todo) (done ++ todo, w))
    = done ++ cards fuel w todo.
Proof.
  induction fuel as [|f IH]; intros todo done w Hlen Hflat Hnd Hout.
  { destruct todo; [reflexivity | simpl in Hlen; lia]. }
  destruct todo as [|n rest]; [reflexivity |].
  simpl in Hlen. apply Forall_cons in Hflat as [Hn Hrest].
  simpl flat_map in Hnd. apply NoDup_app in Hnd as (Hndn & Hdis & Hndr).
  assert (Hpass : fst (fold_left wrap_section (querySelectorAll (str "h2") rest)
                         (done ++ n :: rest, w))
                  = done ++ n :: cards f w rest).
  { replace (done ++ n :: rest) with ((done ++ [n]) ++ rest)
      by (rewrite <- app_assoc; reflexivity).
    rewrite (IH rest (done ++ [n]) w ltac:(lia) Hrest Hndr).
    - rewrite <- app_assoc. reflexivity.
    - intros h Hh. destruct (Hout h) as [Hd Hw].
      { simpl. apply elem_of_app. right. exact Hh. }
      split; [| exact Hw]. rewrite flat_map_app. simpl. rewrite app_nil_r.
      intros Hin. apply elem_of_app in Hin as [Hin|Hin]; [exact (Hd Hin) |].
      exact (Hdis h Hin Hh). }
  destruct (is_h2 n) eqn:Eh.
  - destruct n as [h t a k | d | d]; try discriminate Eh.
    assert (Hsel : querySelectorAll (str "h2") (Element h t a k :: rest)
                   = h :: querySelectorAll (str "h2") rest).
    { unfold querySelectorAll. simpl. simpl in Eh. rewrite Eh.
      simpl in Hn. unfold querySelectorAll in Hn.
      destruct (flat_map (select (str "h2")) k); [reflexivity | discriminate Hn]. }
    rewrite Hsel. simpl fold_left.
    destruct (Hout h) as [Hhd Hhw]; [simpl; left |].
    simpl ids in Hndn. apply NoDup_cons in Hndn as [Hhk _].
    assert (Hhr : h ∉ flat_map ids rest).
    { intros Hin. apply (Hdis h); [simpl; left | exact Hin]. }
    assert (Hfind : find_in h (done ++ Element h t a k :: rest) = Some (Element h t a k)).
    { rewrite (find_in_skip h done _ Hhd). unfold find_in. simpl.
      rewrite Nat.eqb_refl. reflexivity. }
    unfold wrap_section at 2. cbn [fst snd]. rewrite Hfind.
    simpl cards. simpl in Eh. cbn [is_h2]. rewrite Eh.
    destruct (wrapperClass (toUpperCase (trim (textContent (Element h t a k))))) as [cls|].
    + assert (Hmap : map (wrap_in h w cls) (done ++ Element h t a k :: rest)
                     = done ++ Element h t a k :: rest).
      { apply map_fixed. apply Forall_app. split; [| constructor].
        - apply Forall_forall. intros x Hx. apply wrap_in_fixed. intros Hin.
          apply Hhd. apply list_elem_of_In, in_flat_map. exists x.
          split; apply list_elem_of_In; assumption.
        - apply wrap_in_below. exact Hhk.
        - apply Forall_forall. intros x Hx. apply wrap_in_fixed. intros Hin.
          apply Hhr. apply list_elem_of_In, in_flat_map. exists x.
          split; apply list_elem_of_In; assumption. }
      unfold wrap_at. rewrite Hmap, (wrap_siblings_at h w cls done t a k rest Hhd).
      destruct (toMove_ids rest Hndr) as [Hnds Hids].
      pose proof (toMove_select rest Hrest) as Hq.
      pose proof (toMove_length rest) as Hl.
      assert (Hfs : Forall (fun n => no_h2_below n = true) (snd (toMove rest))).
      { apply Forall_forall. intros x Hx. rewrite Forall_forall in Hrest.
        apply Hrest. apply toMove_stay. exact Hx. }
      destruct (toMove rest) as [moved stay]. cbn [fst snd] in *.
      rewrite <- Hq.
      set (W := Element w (str "div") [(str "class", cls)] (Element h t a k :: moved)).
      replace (done ++ W :: stay) with ((done ++ [W]) ++ stay)
        by (rewrite <- app_assoc; reflexivity).
      rewrite (IH stay (done ++ [W]) (S w) ltac:(lia) Hfs Hnds).
      * rewrite <- app_assoc. reflexivity.
      * intros x Hx. destruct (Hids x Hx) as [Hxr Hxm].
        destruct (Hout x) as [Hxd Hxw]; [simpl; right; apply elem_of_app; right; exact Hxr |].
        split; [| lia]. rewrite flat_map_app. simpl. rewrite app_nil_r.
        intros Hin. apply elem_of_app in Hin as [Hin|Hin]; [exact (Hxd Hin) |].
        apply elem_of_cons in Hin as [->|Hin]; [lia |].
        apply elem_of_cons in Hin as [->|Hin]; [exact (Hhr Hxr) |].
        apply elem_of_app in Hin as [Hin|Hin]; [| exact (Hxm Hin)].
        apply (Hdis x); [simpl; right; exact Hin | exact Hxr].
    + exact Hpass.
  - assert (Hsel : querySelectorAll (str "h2") (n :: rest)
                   = querySelectorAll (str "h2") rest).
    { unfold querySelectorAll. simpl. rewrite (select_h2_none n Eh Hn). reflexivity. }
    rewrite Hsel. simpl cards. rewrite Eh. exact Hpass.
Qed.

End CardFacts.

(** X20. The section cards of a flat document: when every level-2 heading
    of a document is a child of [body] (and the elements are distinct), the
    wrapping loop of [enhanceReportHtml] gives, going through the children
    of [body] in order: for a heading whose upper-cased title contains
    IMPRESSION, CONCLUSION, FINDINGS or FINDING, one [div] with the class of
    the section that holds the heading followed by the elements up to the
    next level-2 heading (recognised or not); any other child where it was;
    the text nodes and comments passed over by a card right after it. *)
Theorem flat_document_cards :
  forall body : list Dom.node,
    forallb ReportFormat.no_h2_below body = true ->
    NoDup (flat_map Dom.ids body) ->
    ReportFormat.wrap_sections body = ReportFormat.section_cards body
    /\ ReportFormat.enhance_body body = map ReportFormat.walk (ReportFormat.section_cards body).
Proof.
  intros body Hflat Hnd.
  assert (H : ReportFormat.wrap_sections body = ReportFormat.section_cards body).
  { unfold ReportFormat.wrap_sections, ReportFormat.section_cards.
    apply (cards_fold (length body) body [] (Dom.fresh_id body)).
    - lia.
    - apply Forall_forall. intros n Hn. rewrite forallb_forall in Hflat.
      apply Hflat. apply list_elem_of_In. exact Hn.
    - exact Hnd.
    - intros h Hh. split; [intros Hin; inversion Hin | apply fresh_id_above; exact Hh]. }
  split; [exact H |]. unfold ReportFormat.enhance_body. rewrite H. reflexivity.
Qed.

Lemma flat_document_cards_witness :
  let body := Browser.parse
                (str "<h1>MRI</h1><h2>FINDINGS</h2><p>a</p>t<ul><li>b</li></ul><h2>Technique</h2><p>c</p><h2>Impression</h2><p>d</p>") in
  forallb ReportFormat.no_h2_below body = true
  /\ NoDup (flat_map Dom.ids body)
  /\ Dom.innerHTML (ReportFormat.wrap_sections body)
     = str "<h1>MRI</h1><div class=" ++ [34%N] ++ str "report-section-findings" ++ [34%N]
       ++ str "><h2>FINDINGS</h2><p>a</p><ul><li>b</li></ul></div>t<h2>Technique</h2><p>c</p><div class="
       ++ [34%N] ++ str "report-section-impression" ++ [34%N]
       ++ str "><h2>Impression</h2><p>d</p></div>".
Proof.
  intros body.
  assert (Hflat : forallb ReportFormat.no_h2_below body = true) by (vm_compute; reflexivity).
  assert (Hnd : NoDup (flat_map Dom.ids body))
    by (apply (bool_decide_unpack _); vm_compute; exact I).
  split; [exact Hflat |]. split; [exact Hnd |].
  rewrite (proj1 (flat_document_cards body Hflat Hnd)). vm_compute. reflexivity.
Defined.

(** X21. The strings that [htmlToPlainText] leaves as they are: a string is
    returned unchanged exactly when it contains no tag ([/<[^>]+>/]), no
    [&nbsp;], no tab, no two spaces in a row, no space next to a newline and
    no three newlines in a row, and has no white space at its start or
    end. *)
Theorem plain_text_fixed_points :
  forall s : jsstring,
    ReportFormat.htmlToPlainText s = s
    <-> (Regex.test false ReportFormat.re_tag s = false
         /\ Regex.test false ReportFormat.re_nbsp s = false
         /\ includes [9%N] s = false
         /\ includes [32%N; 32%N] s = false
         /\ Regex.test false ReportFormat.re_nl_sp s = false
         /\ Regex.test false ReportFormat.re_sp_nl s = false
         /\ Regex.test false ReportFormat.re_nl3 s = false
         /\ trim s = s).
Proof.
  intros s. split.
  - intros E. rewrite <- E.
    exact (proj2 (plain_shape _ (htmlToPlainText_plain s))).
  - intros H. apply plain_fixed, shape_plain. exact H.
Qed.

Lemma plain_text_fixed_points_witness :
  let s := str "FINDINGS" ++ [10%N; 10%N] ++ str "L4-L5: mild disc bulge." in
  (Regex.test false ReportFormat.re_tag s = false
   /\ Regex.test false ReportFormat.re_nbsp s = false
   /\ includes [9%N] s = false
   /\ includes [32%N; 32%N] s = false
   /\ Regex.test false ReportFormat.re_nl_sp s = false
   /\ Regex.test false ReportFormat.re_sp_nl s = false
   /\ Regex.test false ReportFormat.re_nl3 s = false
   /\ trim s = s)
  /\ ReportFormat.htmlToPlainText s = s.
Proof.
  intros s.
  assert (H : Regex.test false ReportFormat.re_tag s = false
              /\ Regex.test false ReportFormat.re_nbsp s = false
              /\ includes [9%N] s = false
              /\ includes [32%N; 32%N] s = false
              /\ Regex.test false ReportFormat.re_nl_sp s = false
              /\ Regex.test false ReportFormat.re_sp_nl s = false
              /\ Regex.test false ReportFormat.re_nl3 s = false
              /\ trim s = s)
    by (vm_compute; repeat split).
  split; [exact H | exact (proj2 (plain_text_fixed_points s) H)].
Defined.
